(** * SeamlessTransferApp: the transfer saga

    A shallow embedding of the account service (balance mutation and
    the RabbitMQ consumer with its retry envelope) and of the
    transaction service (submission and status reconciliation), with
    the properties of the transfer protocol stated over it.

    Where the definitions come from:
    - [AccountService]: account-service/internal/application
      (validateAmount, validateAccountID, CreateAccount, GetAccount,
      HandleTransactionSubmitted),
      .../infrastructure/postgres/account_repository.go (Create,
      GetByID, Update), .../interfaces/http/handlers.go
      (CreateAccount, GetAccount) and the publishing methods of
      .../infrastructure/messaging.
    - [Messaging]: the loop of SubscribeToTransactionEvents in
      account-service/internal/infrastructure/messaging/message_broker.go.
    - [TransactionService]:
      transaction-service/internal/application/transaction_service.go,
      its postgres repository, its two HTTP handlers, and the
      callback registered in transaction-service/cmd/main.go.
    - [BigFloat] and [Strings]: the parts of Go's math/big and strings
      that the account service calls.

    Conventions of the embedding:
    - Go's [int64] identifiers are [Z]; no arithmetic is done on them.
    - Go strings are [string] (byte strings).
    - A Go [error] result is [option error]; [None] is [nil].
    - A pointer result that may be [nil] is an [option].
    - Every call to the database or to the broker may fail.  The calls
      that fail are fixed by a fault schedule carried in the state: each
      call consumes one flag, [true] meaning that this call fails; an
      exhausted schedule means no further failure.
    - A run-time panic (nil dereference, [big.ErrNaN]) is the outcome
      [Panic]; the state it leaves behind is kept.
    - The table of transactions has its columns [created_at] and
      [updated_at], which the database sets on insert and which the
      trigger of init-db.sh rewrites on every update.  Time is counted
      in statements: each call of the repository takes one unit.  The
      same two columns of the table of accounts, which has no trigger
      and no statement that names them, never change after the insert
      and are left out.
    - Structured logging has no effect on the state and is left out. *)

From Stdlib Require Import ZArith QArith Lia String Ascii List Bool.
From stdpp Require Import base option gmap strings.
Import ListNotations.

Local Open Scope string_scope.
Local Open Scope Z_scope.

(** ** math/big: [big.Float] at its default precision

    [new(big.Float).SetString] gives a float with a 64-bit mantissa
    and rounding mode to-nearest-even.  A finite non-zero float is
    [Finite neg m e], of magnitude [m * 2^e], with the mantissa
    normalised to [2^63 <= m < 2^64] (Go stores the same mantissa as a
    fraction in [[0.5, 1)], with exponent [e + 64], which it keeps
    between [MinExp] and [MaxExp]).

    [SetString] is [Parse] in base 0, and the whole of its literal
    syntax is modelled: the spellings of infinity; an optional sign;
    a mantissa in base 10, or in base 2, 8 or 16 after the prefix
    [0b], [0o] or [0x], with at most one radix point and with [_]
    between digits; an exponent of ten ([e]) or of two ([p]).  The
    value is computed as Go computes it: the mantissa is an exact
    integer, a power of five of up to 27 digits is exact and a
    larger one is a product of floats of 128 and 192 bits, and the
    product or quotient is rounded once to 64 bits. *)
Module BigFloat.

Inductive Float : Type :=
| Zero (neg : bool)
| Finite (neg : bool) (m e : Z)
| Inf (neg : bool).

(** Round [N / D] to the nearest integer, ties to even
    ([0 <= N], [0 < D]). *)
Definition rne (N D : Z) : Z :=
  let q := N / D in
  match (2 * (N mod D)) ?= D with
  | Lt => q
  | Gt => q + 1
  | Eq => if Z.even q then q else q + 1
  end.

(** [n / (d * 2^e)] as a fraction of integers. *)
Definition scale (n d e : Z) : Z * Z :=
  if 0 <=? e then (n, d * 2 ^ e) else (n * 2 ^ (- e), d).

Definition round_at (n d e : Z) : Z :=
  let '(N, D) := scale n d e in rne N D.

(** The exponent of the float nearest to [n / d], for [0 < n] and
    [0 < d]: [floor (log2 (n / d)) - 63], which puts the mantissa
    between [2^63] and [2^64]. *)
Definition exponent (n d : Z) : Z :=
  (if d <=? n then Z.log2 (n / d)
   else - Z.log2_up (- ((- d) / n))) - 63.

(** Mantissa and exponent of the float nearest to [n / d]; a
    mantissa rounded up to [2^64] is renormalised. *)
Definition round_ratio (n d : Z) : Z * Z :=
  let e := exponent n d in
  let m := round_at n d e in
  if m =? 2 ^ 64 then (2 ^ 63, e + 1) else (m, e).

Definition finite_of_ratio (neg : bool) (n d : Z) : Float :=
  let '(m, e) := round_ratio n d in Finite neg m e.

(** *** The exponent range and rounding to 64 bits *)

Definition MinExp : Z := - 2 ^ 31.
Definition MaxExp : Z := 2 ^ 31 - 1.

(** The number of bits of [n], for [0 < n]. *)
Definition bitLen (n : Z) : Z := Z.log2 n + 1.

(** [setExpAndRound] for the magnitude [(n / d) * 2^shift], [0 < n]
    and [0 < d]: an exponent below [MinExp] gives zero, one above
    [MaxExp] infinity, before the rounding or after a mantissa that
    rounds up to the next power of two. *)
Definition round_scaled (neg : bool) (n d shift : Z) : Float :=
  let E := exponent n d + 64 + shift in
  if E <? MinExp then Zero neg
  else if MaxExp <? E then Inf neg
  else
    let '(m, e) := round_ratio n d in
    if MaxExp <? e + 64 + shift then Inf neg else Finite neg m (e + shift).

(** *** Powers of five

    [pow5] in a float of 128 bits: a table up to [5^27], and beyond
    it repeated squaring of a float of 192 bits.  These floats are
    at least 1; [XInf] is an exponent above [MaxExp]. *)
Inductive xfloat : Type :=
| XFin (m e : Z)
| XInf.

(** [n * 2^e], [0 < n], rounded to [p] bits. *)
Definition round_bits (p n e : Z) : xfloat :=
  let E := e + bitLen n in
  if MaxExp <? E then XInf
  else
    let s := bitLen n - p in
    if s <=? 0 then XFin n e
    else
      let m := rne n (2 ^ s) in
      if m =? 2 ^ p then
        if MaxExp <=? E then XInf else XFin (2 ^ (p - 1)) (e + s + 1)
      else XFin m (e + s).

Definition xmul (p : Z) (x y : xfloat) : xfloat :=
  match x, y with
  | XFin m1 e1, XFin m2 e2 => round_bits p (m1 * m2) (e1 + e2)
  | _, _ => XInf
  end.

(** The loop over the bits of [n], least significant first: [z] is
    multiplied by [f] for each bit set, [f] is squared each time. *)
Fixpoint pow5_loop (n : positive) (z f : xfloat) : xfloat :=
  match n with
  | xH => xmul 128 z f
  | xO n' => pow5_loop n' z (xmul 192 f f)
  | xI n' => pow5_loop n' (xmul 128 z f) (xmul 192 f f)
  end.

Definition pow5 (n : Z) : xfloat :=
  if n <=? 27 then XFin (5 ^ n) 0
  else
    match n - 27 with
    | Zpos k => pow5_loop k (XFin (5 ^ 27) 0) (XFin 5 0)
    | _ => XFin (5 ^ 27) 0
    end.

(** *** Scanning a literal *)

Definition byte (c : ascii) : Z := Z.of_N (N_of_ascii c).

(** The value of a byte as a digit: [0] to [9], then the letters of
    either case from 10; any other byte is above every base. *)
Definition digit_of (c : ascii) : Z :=
  let n := byte c in
  if (48 <=? n) && (n <=? 57) then n - 48
  else if (97 <=? n) && (n <=? 122) then n - 97 + 10
  else if (65 <=? n) && (n <=? 90) then n - 65 + 10
  else 63.

(** A decimal digit. *)
Definition digit_val (c : ascii) : option Z :=
  let n := Z.of_N (N_of_ascii c) in
  if (48 <=? n) && (n <=? 57) then Some (n - 48) else None.

(** What the scanner saw last: a digit, a separator, or anything
    else. *)
Inductive seen : Type := SeenDigit | SeenSep | SeenOther.

Definition is_sep (p : seen) : bool :=
  match p with SeenSep => true | _ => false end.

Definition is_digit (p : seen) : bool :=
  match p with SeenDigit => true | _ => false end.

(** A radix point is accepted until one has been seen. *)
Definition fracOk (dp : option Z) : bool :=
  match dp with None => true | Some _ => false end.

Record digits_scanned : Type := {
  mant : Z;
  count : Z;
  point : option Z;
  prev : seen;
  invalSep : bool
}.

(** The loop of [nat.scan] over the digits of a mantissa in base
    [b]: [acc] is the value of the digits read so far, [count] their
    number, [dp] the number of digits before the radix point once it
    has been seen.  A separator is valid after a digit only.  The
    loop stops at the first byte that is not part of the mantissa,
    which it leaves in the string. *)
Fixpoint scan_digits (b : Z) (s : string) (acc count : Z) (dp : option Z)
    (prev : seen) (invalSep : bool) : digits_scanned * string :=
  match s with
  | EmptyString =>
      ({| mant := acc; count := count; point := dp; prev := prev;
          invalSep := invalSep |}, s)
  | String ch rest =>
      if Ascii.eqb ch "."%char && fracOk dp then
        scan_digits b rest acc count (Some count) SeenOther
          (invalSep || is_sep prev)
      else if Ascii.eqb ch "_"%char then
        scan_digits b rest acc count dp SeenSep
          (invalSep || negb (is_digit prev))
      else
        let d1 := digit_of ch in
        if b <=? d1 then
          ({| mant := acc; count := count; point := dp; prev := prev;
              invalSep := invalSep |}, s)
        else scan_digits b rest (acc * b + d1) (count + 1) dp SeenDigit invalSep
  end.

(** [nat.scan] with base 0 and a fraction allowed: the base prefix,
    the digits, and the count of fractional digits as a negative
    number.  A leading [0] without a prefix letter is a digit. *)
Definition nat_scan (s : string) : option (Z * Z * Z) * string :=
  let '(b, count0, prev0, body) :=
    match s with
    | String c0 rest =>
        if Ascii.eqb c0 "0"%char then
          match rest with
          | String c rest' =>
              if Ascii.eqb c "b"%char || Ascii.eqb c "B"%char then
                (2, 0, SeenDigit, rest')
              else if Ascii.eqb c "o"%char || Ascii.eqb c "O"%char then
                (8, 0, SeenDigit, rest')
              else if Ascii.eqb c "x"%char || Ascii.eqb c "X"%char then
                (16, 0, SeenDigit, rest')
              else (10, 1, SeenDigit, rest)
          | EmptyString => (10, 1, SeenDigit, rest)
          end
        else (10, 0, SeenOther, s)
    | EmptyString => (10, 0, SeenOther, s)
    end in
  let '(r, rest) := scan_digits b body 0 count0 None prev0 false in
  if invalSep r || is_sep (prev r) then (None, rest)
  else if count r =? 0 then (None, rest)
  else
    (Some (mant r, b,
           match point r with Some dp => dp - count r | None => count r end),
     rest).

(** The digits of an exponent, with separators. *)
Fixpoint scan_exp_digits (s : string) (val : Z) (hasDigits : bool)
    (prev : seen) (invalSep : bool) : (Z * bool * seen * bool) * string :=
  match s with
  | EmptyString => ((val, hasDigits, prev, invalSep), s)
  | String ch rest =>
      match digit_val ch with
      | Some d => scan_exp_digits rest (val * 10 + d) true SeenDigit invalSep
      | None =>
          if Ascii.eqb ch "_"%char then
            scan_exp_digits rest val hasDigits SeenSep
              (invalSep || negb (is_digit prev))
          else ((val, hasDigits, prev, invalSep), s)
      end
  end.

(** [scanExponent], with a binary exponent and separators allowed:
    the exponent and its base.  The digits are converted by
    [strconv.ParseInt] to an [int64]. *)
Definition scanExponent (s : string) : option (Z * Z) * string :=
  match s with
  | EmptyString => (Some (0, 10), s)
  | String ch rest =>
      let ebase :=
        if Ascii.eqb ch "e"%char || Ascii.eqb ch "E"%char then Some 10
        else if Ascii.eqb ch "p"%char || Ascii.eqb ch "P"%char then Some 2
        else None in
      match ebase with
      | None => (Some (0, 10), s)
      | Some ebase =>
          let '(neg, digits) :=
            match rest with
            | String c r =>
                if Ascii.eqb c "-"%char then (true, r)
                else if Ascii.eqb c "+"%char then (false, r)
                else (false, rest)
            | EmptyString => (false, rest)
            end in
          let '((val, hasDigits, prev, invalSep), rest') :=
            scan_exp_digits digits 0 false SeenOther false in
          let exp := if neg then - val else val in
          if negb hasDigits then (None, rest')
          else if (exp <? - 2 ^ 63) || (2 ^ 63 - 1 <? exp) then (None, rest')
          else if invalSep || is_sep prev then (None, rest')
          else (Some (exp, ebase), rest')
      end
  end.

Definition scanSign (s : string) : bool * string :=
  match s with
  | String c rest =>
      if Ascii.eqb c "-"%char then (true, rest)
      else if Ascii.eqb c "+"%char then (false, rest)
      else (false, s)
  | EmptyString => (false, s)
  end.

(** The value of a scanned literal: the mantissa [mant] in base [b]
    with [- fcount] fractional digits when [fcount] is negative, and
    the exponent [exp] of base [ebase].  The powers of two go into
    the exponent, which must be in range, and the power of five that
    is left multiplies or divides the mantissa. *)
Definition scan_value (neg : bool) (mant b fcount exp ebase : Z)
  : option Float :=
  if mant =? 0 then Some (Zero neg)
  else
    let d := if fcount <? 0 then fcount else 0 in
    let exp5 :=
      (if b =? 10 then d else 0) + (if ebase =? 10 then exp else 0) in
    let exp2 :=
      bitLen mant
      + (if b =? 8 then 3 * d else if b =? 16 then 4 * d else d)
      + exp in
    if (MinExp <=? exp2) && (exp2 <=? MaxExp) then
      let shift := exp2 - bitLen mant in
      Some
        (if exp5 =? 0 then round_scaled neg mant 1 shift
         else if exp5 <? 0 then
           match pow5 (- exp5) with
           | XFin pm pe => round_scaled neg mant pm (shift - pe)
           | XInf => Zero neg
           end
         else
           match pow5 exp5 with
           | XFin pm pe => round_scaled neg (mant * pm) 1 (shift + pe)
           | XInf => Inf neg
           end)
    else None.

(** [Float.scan]: sign, mantissa, exponent; the rest of the string
    is returned with the result. *)
Definition scan (s : string) : option Float * string :=
  let '(neg, body) := scanSign s in
  match nat_scan body with
  | (None, rest) => (None, rest)
  | (Some (mant, b, fcount), rest) =>
      match scanExponent rest with
      | (None, rest') => (None, rest')
      | (Some (exp, ebase), rest') =>
          (scan_value neg mant b fcount exp ebase, rest')
      end
  end.

(** [Float.Parse] in base 0: the spellings of infinity, or a literal
    that takes the whole string. *)
Definition Parse (s : string) : option Float :=
  if String.eqb s "Inf" || String.eqb s "inf" then Some (Inf false)
  else if String.eqb s "+Inf" || String.eqb s "+inf" then Some (Inf false)
  else if String.eqb s "-Inf" || String.eqb s "-inf" then Some (Inf true)
  else
    match scan s with
    | (Some x, EmptyString) => Some x
    | _ => None
    end.

(** [new(big.Float).SetString(s)]; [None] is the result [(nil, false)]. *)
Definition SetString (s : string) : option Float := Parse s.

(** *** Plain decimal literals

    The literals of amounts of money are read by this loop: digits
    with at most one radix point, and nothing else. *)

Fixpoint scan_mantissa (s : string) (acc count : Z) (dp : option Z)
  : option (Z * Z * option Z) :=
  match s with
  | EmptyString => Some (acc, count, dp)
  | String c rest =>
      if Ascii.eqb c "."%char then
        match dp with
        | None => scan_mantissa rest acc count (Some count)
        | Some _ => None
        end
      else
        match digit_val c with
        | Some d => scan_mantissa rest (acc * 10 + d) (count + 1) dp
        | None => None
        end
  end.

(** *** Sign and comparison *)

Definition is_neg (x : Float) : bool :=
  match x with Zero n | Finite n _ _ | Inf n => n end.

Definition Sign (x : Float) : Z :=
  match x with
  | Zero _ => 0
  | Finite n _ _ | Inf n => if n then -1 else 1
  end.

(** [ord]: -2, -1, 0, 1, 2 for -Inf, negative, zero, positive, +Inf. *)
Definition ord (x : Float) : Z :=
  match x with
  | Zero _ => 0
  | Finite n _ _ => if n then -1 else 1
  | Inf n => if n then -2 else 2
  end.

(** Both magnitudes as integers over the smaller exponent. *)
Definition align (m1 e1 m2 e2 : Z) : Z * Z * Z :=
  let e := Z.min e1 e2 in
  (m1 * 2 ^ (e1 - e), m2 * 2 ^ (e2 - e), e).

Definition ucmp (x y : Float) : Z :=
  match x, y with
  | Finite _ m1 e1, Finite _ m2 e2 =>
      let '(a, b, _) := align m1 e1 m2 e2 in
      match a ?= b with Lt => -1 | Eq => 0 | Gt => 1 end
  | _, _ => 0
  end.

Definition Cmp (x y : Float) : Z :=
  let mx := ord x in
  let my := ord y in
  if mx <? my then -1
  else if my <? mx then 1
  else if mx =? -1 then ucmp y x
  else if mx =? 1 then ucmp x y
  else 0.

(** *** Addition and subtraction *)

(** A magnitude [M * 2^e], with [0 < M], rounded to 64 bits. *)
Definition round_mag (neg : bool) (M e : Z) : Float :=
  round_scaled neg M 1 e.

Definition uadd (neg : bool) (x y : Float) : Float :=
  match x, y with
  | Finite _ m1 e1, Finite _ m2 e2 =>
      let '(a, b, e) := align m1 e1 m2 e2 in
      round_mag neg (a + b) e
  | _, _ => Zero false
  end.

(** [usub] is called with [|x| >= |y|]; an exact zero is positive. *)
Definition usub (neg : bool) (x y : Float) : Float :=
  match x, y with
  | Finite _ m1 e1, Finite _ m2 e2 =>
      let '(a, b, e) := align m1 e1 m2 e2 in
      if a - b =? 0 then Zero false else round_mag neg (a - b) e
  | _, _ => Zero false
  end.

Definition Neg (x : Float) : Float :=
  match x with
  | Zero n => Zero (negb n)
  | Finite n m e => Finite (negb n) m e
  | Inf n => Inf (negb n)
  end.

(** The signed sum of two finite non-zero floats, [y] taken with the
    sign [yneg]: the common case of [Add] and [Sub]. *)
Definition add_signed (x y : Float) (yneg : bool) : Float :=
  if Bool.eqb (is_neg x) yneg then uadd (is_neg x) x y
  else if 0 <? ucmp x y then usub (is_neg x) x y
  else usub (negb (is_neg x)) y x.

(** [z.Add(x, y)]; [None] is the panic [ErrNaN]. *)
Definition Add (x y : Float) : option Float :=
  match x, y with
  | Finite _ _ _, Finite yn _ _ => Some (add_signed x y yn)
  | Inf xn, Inf yn => if Bool.eqb xn yn then Some x else None
  | Zero xn, Zero yn => Some (Zero (xn && yn))
  | Inf _, _ | _, Zero _ => Some x
  | _, _ => Some y
  end.

(** [z.Sub(x, y)]; [None] is the panic [ErrNaN]. *)
Definition Sub (x y : Float) : option Float :=
  match x, y with
  | Finite _ _ _, Finite yn _ _ => Some (add_signed x y (negb yn))
  | Inf xn, Inf yn => if Bool.eqb xn yn then None else Some x
  | Zero xn, Zero yn => Some (Zero (xn && negb yn))
  | Inf _, _ | _, Zero _ => Some x
  | _, _ => Some (Neg y)
  end.

(** *** Formatting: [x.Text('f', 2)] *)

Definition digit_char (d : Z) : ascii := ascii_of_N (Z.to_N (48 + d)).

(** Decimal digits of [n >= 0], most significant first, in front of
    [acc]. *)
Fixpoint digits_fuel (fuel : nat) (n : Z) (acc : string) : string :=
  let acc' := String (digit_char (n mod 10)) acc in
  match fuel with
  | O => acc'
  | S f => if n <? 10 then acc' else digits_fuel f (n / 10) acc'
  end.

Definition digits (n : Z) (acc : string) : string :=
  digits_fuel (Z.to_nat (Z.log2 n)) n acc.

(** [k] hundredths as a decimal with two fractional digits. *)
Definition fixed2 (k : Z) : string :=
  digits (k / 100)
    (String "." (String (digit_char (k mod 100 / 10))
                   (String (digit_char (k mod 10)) EmptyString))).

Definition hundredths (m e : Z) : Z :=
  if 0 <=? e then 100 * m * 2 ^ e else rne (100 * m) (2 ^ (- e)).

Definition Text_f2 (x : Float) : string :=
  match x with
  | Zero n => (if n then "-" else "") ++ "0.00"
  | Finite n m e => (if n then "-" else "") ++ fixed2 (hundredths m e)
  | Inf n => if n then "-Inf" else "+Inf"
  end.

End BigFloat.

Import BigFloat.

(** ** strings.TrimSpace

    Leading and trailing white space is removed: the six ASCII space
    bytes, and the UTF-8 encodings of the other code points of
    [unicode.IsSpace] (U+0085, U+00A0, U+1680, U+2000 to U+200A,
    U+2028, U+2029, U+202F, U+205F, U+3000). *)
Module Strings.

Definition code (c : ascii) : Z := Z.of_N (N_of_ascii c).

Definition asciiSpace (c : ascii) : bool :=
  let n := code c in ((9 <=? n) && (n <=? 13)) || (n =? 32).

Definition space2 (c1 c2 : ascii) : bool :=
  (code c1 =? 194) && ((code c2 =? 133) || (code c2 =? 160)).

Definition space3 (c1 c2 c3 : ascii) : bool :=
  let a := code c1 in let b := code c2 in let c := code c3 in
  ((a =? 225) && (b =? 154) && (c =? 128))
  || ((a =? 226) && (b =? 128)
      && (((128 <=? c) && (c <=? 138)) || (c =? 168) || (c =? 169) || (c =? 175)))
  || ((a =? 226) && (b =? 129) && (c =? 159))
  || ((a =? 227) && (b =? 128) && (c =? 128)).

Fixpoint trimLeft (s : string) : string :=
  match s with
  | EmptyString => s
  | String c1 r1 =>
      if asciiSpace c1 then trimLeft r1
      else
        match r1 with
        | EmptyString => s
        | String c2 r2 =>
            if space2 c1 c2 then trimLeft r2
            else
              match r2 with
              | EmptyString => s
              | String c3 r3 => if space3 c1 c2 c3 then trimLeft r3 else s
              end
        end
  end.

Definition rev (s : string) : string :=
  string_of_list_ascii (List.rev (list_ascii_of_string s)).

(** The same loop on the reversed string, the bytes of a rune met
    last to first. *)
Fixpoint trimLeftRev (s : string) : string :=
  match s with
  | EmptyString => s
  | String c1 r1 =>
      if asciiSpace c1 then trimLeftRev r1
      else
        match r1 with
        | EmptyString => s
        | String c2 r2 =>
            if space2 c2 c1 then trimLeftRev r2
            else
              match r2 with
              | EmptyString => s
              | String c3 r3 => if space3 c3 c2 c1 then trimLeftRev r3 else s
              end
        end
  end.

Definition trimRight (s : string) : string := rev (trimLeftRev (rev s)).

Definition TrimSpace (s : string) : string := trimRight (trimLeft s).

End Strings.

(** ** Outcomes and the state monad of a service *)

Inductive outcome (A : Type) : Type :=
| Ret (a : A)
| Panic (msg : string).
Arguments Ret {A} a.
Arguments Panic {A} msg.

Definition M (W A : Type) : Type := W -> outcome A * W.

Definition ret {W A} (a : A) : M W A := fun w => (Ret a, w).

Definition bind {W A B} (c : M W A) (k : A -> M W B) : M W B :=
  fun w =>
    match c w with
    | (Ret a, w') => k a w'
    | (Panic msg, w') => (Panic msg, w')
    end.

Definition panic {W A} (msg : string) : M W A := fun w => (Panic msg, w).

Notation "'let*' x ':=' c 'in' k" := (bind c (fun x => k))
  (at level 10, x pattern, c at level 100, k at level 200).
Notation "c ';;' k" := (bind c (fun _ => k))
  (at level 100, k at level 200, right associativity).

(** One call to an external system: the head of the fault schedule
    tells whether it fails. *)
Definition next_fault (faults : list bool) : bool * list bool :=
  match faults with
  | [] => (false, [])
  | b :: rest => (b, rest)
  end.

Definition nil_dereference : string :=
  "runtime error: invalid memory address or nil pointer dereference".

(** The event envelope, the same struct in both services. *)
Record TransactionEvent : Type := {
  TransactionID : Z;
  SourceAccountID : Z;
  DestinationAccountID : Z;
  Amount : string;
  Status : string
}.

Definition EventTransactionSubmitted : string := "transaction.submitted".
Definition EventTransactionCompleted : string := "transaction.completed".
Definition EventTransactionFailed : string := "transaction.failed".
Definition EventTransactionRollback : string := "transaction.rollback".

(** ** The account service *)
Module AccountService.

(** The errors of the application layer, [pgx.ErrNoRows], any other
    failure of the database driver, and [fmt.Errorf("...: %w", err)]. *)
Inductive error : Type :=
| ErrInvalidAmount
| ErrNegativeAmount
| ErrAccountExists
| ErrAccountNotFound
| ErrInvalidAccountID
| ErrInsufficientFunds
| ErrNoRows
| ErrDatabase
| Wrap (msg : string) (err : error).

Fixpoint error_eqb (a b : error) : bool :=
  match a, b with
  | ErrInvalidAmount, ErrInvalidAmount
  | ErrNegativeAmount, ErrNegativeAmount
  | ErrAccountExists, ErrAccountExists
  | ErrAccountNotFound, ErrAccountNotFound
  | ErrInvalidAccountID, ErrInvalidAccountID
  | ErrInsufficientFunds, ErrInsufficientFunds
  | ErrNoRows, ErrNoRows
  | ErrDatabase, ErrDatabase => true
  | Wrap m a', Wrap m' b' => String.eqb m m' && error_eqb a' b'
  | _, _ => false
  end.

(** [errors.Is]: the error or one it wraps is the target. *)
Fixpoint errors_Is (err target : error) : bool :=
  error_eqb err target
  || match err with
     | Wrap _ inner => errors_Is inner target
     | _ => false
     end.

Record Account : Type := {
  ID : Z;
  Balance : string
}.

(** The [accounts] table (id, balance as text), the events published
    on the [transactions] exchange with their routing keys, and the
    fault schedules of the database and of the broker. *)
Record World : Type := {
  accounts : gmap Z string;
  db_faults : list bool;
  outbox : list (string * TransactionEvent);
  bus_faults : list bool
}.

Definition set_accounts (w : World) (a : gmap Z string) : World :=
  {| accounts := a; db_faults := db_faults w;
     outbox := outbox w; bus_faults := bus_faults w |}.

Definition set_db_faults (w : World) (f : list bool) : World :=
  {| accounts := accounts w; db_faults := f;
     outbox := outbox w; bus_faults := bus_faults w |}.

Definition set_outbox (w : World) (o : list (string * TransactionEvent)) : World :=
  {| accounts := accounts w; db_faults := db_faults w;
     outbox := o; bus_faults := bus_faults w |}.

Definition set_bus_faults (w : World) (f : list bool) : World :=
  {| accounts := accounts w; db_faults := db_faults w;
     outbox := outbox w; bus_faults := f |}.

(** *** postgres.AccountRepository *)

(** [GetByID]: a failed scan, and a missing row is one, is returned
    as a wrapped error with a nil account. *)
Definition GetByID (id : Z) : M World (option Account * option error) :=
  fun w =>
    let '(fails, rest) := next_fault (db_faults w) in
    let w' := set_db_faults w rest in
    if fails then (Ret (None, Some (Wrap "failed to get account" ErrDatabase)), w')
    else
      match accounts w !! id with
      | Some balance =>
          (Ret (Some {| ID := id; Balance := balance |}, None), w')
      | None => (Ret (None, Some (Wrap "failed to get account" ErrNoRows)), w')
      end.

(** [Update]: [UPDATE accounts SET balance = $2 WHERE id = $1]; a
    statement that matches no row succeeds. *)
Definition Update (account : Account) : M World (option error) :=
  fun w =>
    let '(fails, rest) := next_fault (db_faults w) in
    let w' := set_db_faults w rest in
    if fails then (Ret (Some (Wrap "failed to update account" ErrDatabase)), w')
    else
      match accounts w !! ID account with
      | Some _ =>
          (Ret None,
           set_accounts w' (<[ID account := Balance account]> (accounts w)))
      | None => (Ret None, w')
      end.

(** *** messaging.RabbitMQBroker, publishing side *)

Inductive broker_error : Type := ErrPublish.

Definition Publish (key : string) (event : TransactionEvent)
  : M World (option broker_error) :=
  fun w =>
    let '(fails, rest) := next_fault (bus_faults w) in
    let w' := set_bus_faults w rest in
    if fails then (Ret (Some ErrPublish), w')
    else (Ret None, set_outbox w' (outbox w ++ [(key, event)])).

Definition PublishTransactionCompleted := Publish EventTransactionCompleted.
Definition PublishTransactionFailed := Publish EventTransactionFailed.

(** *** application.accountService *)

(** [validateAmount]: the amount string is valid and non-negative. *)
Definition validateAmount (amount : string) : option error :=
  let amount := Strings.TrimSpace amount in
  if String.eqb amount "" then Some ErrInvalidAmount
  else
    match SetString amount with
    | None => Some ErrInvalidAmount
    | Some value =>
        if Sign value <? 0 then Some ErrNegativeAmount else None
    end.

Definition validateAccountID (id : Z) : option error :=
  if id <=? 0 then Some ErrInvalidAccountID else None.

Definition GetAccount (id : Z) : M World (option Account * option error) :=
  match validateAccountID id with
  | Some err => ret (None, Some (Wrap "invalid account ID" err))
  | None =>
      let* (account, err) := GetByID id in
      match err with
      | Some err => ret (None, Some (Wrap "failed to get account" err))
      | None =>
          match account with
          | None => ret (None, Some ErrAccountNotFound)
          | Some account => ret (Some account, None)
          end
      end
  end.

(** The failed event of a submitted event, with the reason as its
    status. *)
Definition failedEvent (event : TransactionEvent) (status : string)
  : TransactionEvent :=
  {| TransactionID := TransactionID event;
     SourceAccountID := SourceAccountID event;
     DestinationAccountID := DestinationAccountID event;
     Amount := Amount event;
     Status := status |}.

Definition completedEvent (event : TransactionEvent) : TransactionEvent :=
  {| TransactionID := TransactionID event;
     SourceAccountID := SourceAccountID event;
     DestinationAccountID := DestinationAccountID event;
     Amount := Amount event;
     Status := "complete" |}.

(** The two publications of the handler; an error of the publish is
    logged and dropped. *)
Definition publishFailed (event : TransactionEvent) (status : string)
  : M World unit :=
  let* _ := PublishTransactionFailed (failedEvent event status) in
  ret tt.

Definition publishCompleted (event : TransactionEvent) : M World unit :=
  let* _ := PublishTransactionCompleted (completedEvent event) in
  ret tt.

(** The second half of [HandleTransactionSubmitted], once both accounts
    are loaded and the amount has passed the validation: the
    comparison, the arithmetic on the three parsed values, and the two
    writes.  A nil float (a string that did not parse) is dereferenced
    by the first operation that uses it. *)
Definition transfer (event : TransactionEvent)
    (sourceAccount destAccount : Account) : M World (option error) :=
  let sourceBalance := SetString (Balance sourceAccount) in
  let amount := SetString (Amount event) in
  let destBalance := SetString (Balance destAccount) in
  match sourceBalance, amount with
  | Some sourceBalance, Some amount =>
      if Cmp sourceBalance amount <? 0 then
        publishFailed event "failed: insufficient funds" ;;
        ret (Some ErrInsufficientFunds)
      else
        match Sub sourceBalance amount with
        | None => panic "subtraction of infinities with equal signs"
        | Some sourceBalance =>
            match destBalance with
            | None => panic nil_dereference
            | Some destBalance =>
                match Add destBalance amount with
                | None => panic "addition of infinities with opposite signs"
                | Some destBalance =>
                    let sourceAccount :=
                      {| ID := ID sourceAccount;
                         Balance := Text_f2 sourceBalance |} in
                    let destAccount :=
                      {| ID := ID destAccount;
                         Balance := Text_f2 destBalance |} in
                    let* err := Update sourceAccount in
                    match err with
                    | Some err =>
                        publishFailed event
                          "failed: could not update source account" ;;
                        ret (Some (Wrap "failed to update source account" err))
                    | None =>
                        let* err := Update destAccount in
                        match err with
                        | Some err =>
                            publishFailed event
                              "failed: could not update destination account" ;;
                            ret (Some (Wrap "failed to update destination account" err))
                        | None =>
                            publishCompleted event ;;
                            ret None
                        end
                    end
                end
            end
        end
  | _, _ => panic nil_dereference
  end.

Definition HandleTransactionSubmitted (event : TransactionEvent)
  : M World (option error) :=
  let* (sourceAccount, err) := GetByID (SourceAccountID event) in
  match err with
  | Some err =>
      publishFailed event "failed: source account not found" ;;
      ret (Some (Wrap "failed to get source account" err))
  | None =>
      match sourceAccount with
      | None =>
          publishFailed event "failed: source account not found" ;;
          ret (Some ErrAccountNotFound)
      | Some sourceAccount =>
          let* (destAccount, err) := GetByID (DestinationAccountID event) in
          match err with
          | Some err =>
              publishFailed event "failed: destination account not found" ;;
              ret (Some (Wrap "failed to get destination account" err))
          | None =>
              match destAccount with
              | None =>
                  publishFailed event "failed: destination account not found" ;;
                  ret (Some ErrAccountNotFound)
              | Some destAccount =>
                  match validateAmount (Amount event) with
                  | Some err =>
                      publishFailed event "failed: invalid amount" ;;
                      ret (Some (Wrap "invalid amount" err))
                  | None => transfer event sourceAccount destAccount
                  end
              end
          end
      end
  end.

(** *** interfaces/http: GET /accounts/{account_id}

    The identifier is the result of [strconv.ParseInt] on the path
    parameter, [None] when it does not parse. *)
Inductive body : Type :=
| ErrorResponse (message : string)
| AccountResponse (account_id : Z) (balance : string).

Definition StatusOK : Z := 200.
Definition StatusBadRequest : Z := 400.
Definition StatusNotFound : Z := 404.
Definition StatusInternalServerError : Z := 500.

Definition error_text (err : error) : string :=
  match err with
  | ErrInvalidAmount => "invalid amount format"
  | ErrNegativeAmount => "amount cannot be negative"
  | ErrAccountExists => "account already exists"
  | ErrAccountNotFound => "account not found"
  | ErrInvalidAccountID => "invalid account ID"
  | ErrInsufficientFunds => "insufficient funds"
  | ErrNoRows => "no rows in result set"
  | ErrDatabase => "database error"
  | Wrap msg _ => msg
  end.

Fixpoint Error (err : error) : string :=
  match err with
  | Wrap msg inner => msg ++ ": " ++ Error inner
  | _ => error_text err
  end.

Definition GetAccountHandler (accountID : option Z) : M World (Z * body) :=
  match accountID with
  | None => ret (StatusBadRequest, ErrorResponse "Invalid account ID")
  | Some accountID =>
      let* (account, err) := GetAccount accountID in
      match err with
      | Some err =>
          if errors_Is err ErrAccountNotFound then
            ret (StatusNotFound, ErrorResponse (Error err))
          else if errors_Is err ErrInvalidAccountID then
            ret (StatusBadRequest, ErrorResponse (Error err))
          else
            ret (StatusInternalServerError, ErrorResponse "Failed to get account")
      | None =>
          match account with
          | Some account =>
              ret (StatusOK, AccountResponse (ID account) (Balance account))
          | None => panic nil_dereference
          end
      end
  end.

(** *** Account creation

    [postgres.AccountRepository.Create]:
    [INSERT INTO accounts (id, balance) VALUES ($1, $2)].  The
    identifier is the primary key of the table: the insert of a second
    row under it is refused by the database. *)
Definition Create (account : Account) : M World (option error) :=
  fun w =>
    let '(fails, rest) := next_fault (db_faults w) in
    let w' := set_db_faults w rest in
    if fails then (Ret (Some (Wrap "failed to create account" ErrDatabase)), w')
    else
      match accounts w !! ID account with
      | Some _ => (Ret (Some (Wrap "failed to create account" ErrDatabase)), w')
      | None =>
          (Ret None,
           set_accounts w' (<[ID account := Balance account]> (accounts w)))
      end.

(** The messages published with the routing key [account.created]
    carry an account, not an event: they are recorded beside the world
    of the service. *)
Definition Registry : Type := World * list Account.

Definition lift {A : Type} (c : M World A) : M Registry A :=
  fun r =>
    let '(v, w) := c (fst r) in
    (v, (w, snd r)).

Definition PublishAccountCreated (account : Account)
  : M Registry (option broker_error) :=
  fun r =>
    let w := fst r in
    let '(fails, rest) := next_fault (bus_faults w) in
    let w' := set_bus_faults w rest in
    if fails then (Ret (Some ErrPublish), (w', snd r))
    else (Ret None, (w', (snd r ++ [account])%list)).

Record CreateAccountDTO : Type := {
  AccountID : Z;
  InitialBalance : string
}.

(** [CreateAccount]: the balance is validated after trimming and
    stored as it was given; an error of the publish is logged and
    dropped. *)
Definition CreateAccount (dto : CreateAccountDTO) : M Registry (option error) :=
  match validateAccountID (AccountID dto) with
  | Some err => ret (Some (Wrap "invalid account ID" err))
  | None =>
      match validateAmount (InitialBalance dto) with
      | Some err => ret (Some (Wrap "invalid initial balance" err))
      | None =>
          let* (existingAccount, err) := lift (GetByID (AccountID dto)) in
          match err, existingAccount with
          | None, Some _ => ret (Some ErrAccountExists)
          | _, _ =>
              let account :=
                {| ID := AccountID dto; Balance := InitialBalance dto |} in
              let* err := lift (Create account) in
              match err with
              | Some err => ret (Some (Wrap "failed to create account" err))
              | None =>
                  let* _ := PublishAccountCreated account in
                  ret None
              end
          end
      end
  end.

(** *** interfaces/http: POST /accounts

    The request is the decoded body, [None] when the body does not
    decode; the validator requires the identifier to be set and
    positive and the balance to be non-empty.  The result is the
    status code of the response. *)
Record CreateAccountRequest : Type := {
  ReqAccountID : Z;
  ReqInitialBalance : string
}.

Definition StatusCreated : Z := 201.
Definition StatusConflict : Z := 409.

Definition validate (req : CreateAccountRequest) : bool :=
  negb (ReqAccountID req =? 0)
  && (0 <? ReqAccountID req)
  && negb (String.eqb (ReqInitialBalance req) "").

Definition CreateAccountHandler (req : option CreateAccountRequest)
  : M Registry Z :=
  match req with
  | None => ret StatusBadRequest
  | Some req =>
      if negb (validate req) then ret StatusBadRequest
      else
        let dto :=
          {| AccountID := ReqAccountID req;
             InitialBalance := ReqInitialBalance req |} in
        let* err := CreateAccount dto in
        match err with
        | Some err =>
            if errors_Is err ErrAccountExists then ret StatusConflict
            else if errors_Is err ErrInvalidAmount
                    || errors_Is err ErrNegativeAmount
                    || errors_Is err ErrInvalidAccountID
            then ret StatusBadRequest
            else ret StatusInternalServerError
        | None => ret StatusCreated
        end
  end.

End AccountService.

(** ** The consumer of the account service

    [SubscribeToTransactionEvents] declares the queue
    [account_transaction_events], bound to the routing key
    [transaction.submitted] and dead-lettering to
    [account_transaction_events_dlq], and starts the loop below on its
    deliveries.  The broker is modelled by these two queues: a publish
    with that routing key appends to the first, a negative
    acknowledgement without requeue moves the delivery to the second,
    an acknowledgement removes it.  The expiry of queued messages
    (30 seconds) is a matter of real time and is not modelled. *)
Module Messaging.

(** A field of an [amqp.Table].  A Go [int] is written on the wire
    as a 32-bit integer and read back as an [int32]. *)
Inductive HeaderValue : Type :=
| HInt32 (v : Z)
| HInt64 (v : Z)
| HString (v : string)
| HBool (v : bool).

(** The body of a message: the JSON of an event, or bytes that
    [json.Unmarshal] rejects. *)
Inductive Payload : Type :=
| Json (event : TransactionEvent)
| Malformed (raw : string).

Definition Unmarshal (p : Payload) : option TransactionEvent :=
  match p with
  | Json event => Some event
  | Malformed _ => None
  end.

Record Delivery : Type := {
  Body : Payload;
  Headers : gmap string HeaderValue
}.

Section Consumer.

(** The state of the service behind the handler, and its errors. *)
Context {S E : Type}.
Variable handler : TransactionEvent -> M S (option E).

(** [calls] records the events handed to the handler, in order. *)
Record Channel : Type := {
  service : S;
  queue : list Delivery;
  dlq : list Delivery;
  calls : list TransactionEvent;
  faults : list bool
}.

Definition Nack (msg : Delivery) (c : Channel) : Channel :=
  {| service := service c; queue := queue c; dlq := dlq c ++ [msg];
     calls := calls c; faults := faults c |}.

(** The republish of a retry; [false] when it failed. *)
Definition Republish (msg : Delivery) (c : Channel) : bool * Channel :=
  let '(fails, rest) := next_fault (faults c) in
  if fails then
    (false,
     {| service := service c; queue := queue c; dlq := dlq c;
        calls := calls c; faults := rest |})
  else
    (true,
     {| service := service c; queue := queue c ++ [msg]; dlq := dlq c;
        calls := calls c; faults := rest |}).

Definition invoke (event : TransactionEvent) (c : Channel)
  : outcome (option E) * Channel :=
  let '(r, s) := handler event (service c) in
  (r, {| service := s; queue := queue c; dlq := dlq c;
         calls := calls c ++ [event]; faults := faults c |}).

Definition retryCountOf (msg : Delivery) : Z :=
  match Headers msg !! "x-retry-count" with
  | Some (HInt32 retries) => retries
  | _ => 0
  end.

(** The body of the loop, for the delivery [msg] taken from the
    queue. *)
Definition deliver (msg : Delivery) (c : Channel) : outcome unit * Channel :=
  match Unmarshal (Body msg) with
  | None => (Ret tt, Nack msg c)
  | Some event =>
      let retryCount := retryCountOf msg in
      if 3 <=? retryCount then (Ret tt, Nack msg c)
      else
        match invoke event c with
        | (Panic m, c) => (Panic m, c)
        | (Ret (Some _), c) =>
            let retryCount := retryCount + 1 in
            let headers : gmap string HeaderValue :=
              {[ "x-retry-count" := HInt32 retryCount ]} in
            if 3 <=? retryCount then (Ret tt, Nack msg c)
            else
              let '(_, c) :=
                Republish {| Body := Body msg; Headers := headers |} c in
              (Ret tt, c)
        | (Ret None, c) => (Ret tt, c)
        end
  end.

Definition pop (rest : list Delivery) (c : Channel) : Channel :=
  {| service := service c; queue := rest; dlq := dlq c;
     calls := calls c; faults := faults c |}.

(** The loop over the deliveries, for at most [fuel] of them.  It
    stops when the queue is empty; a panic of the handler ends it
    with the delivery unacknowledged, back in the queue. *)
Fixpoint consume (fuel : nat) (c : Channel) : outcome unit * Channel :=
  match fuel with
  | O => (Ret tt, c)
  | Datatypes.S fuel =>
      match queue c with
      | [] => (Ret tt, c)
      | msg :: rest =>
          match deliver msg (pop rest c) with
          | (Ret _, c) => consume fuel c
          | (Panic m, c) => (Panic m, pop (msg :: queue c) c)
          end
      end
  end.

End Consumer.

Arguments Channel : clear implicits.

End Messaging.

(** ** The transaction service *)
Module TransactionService.

Inductive error : Type :=
| ErrSameAccount
| ErrInvalidAmount
| ErrInsufficientFunds
| ErrAccountNotFound
| ErrDatabase
| ErrPublish
| ErrNotFound
| Wrap (msg : string) (err : error).

Fixpoint error_eqb (a b : error) : bool :=
  match a, b with
  | ErrSameAccount, ErrSameAccount
  | ErrInvalidAmount, ErrInvalidAmount
  | ErrInsufficientFunds, ErrInsufficientFunds
  | ErrAccountNotFound, ErrAccountNotFound
  | ErrDatabase, ErrDatabase
  | ErrPublish, ErrPublish
  | ErrNotFound, ErrNotFound => true
  | Wrap m a', Wrap m' b' => String.eqb m m' && error_eqb a' b'
  | _, _ => false
  end.

Fixpoint errors_Is (err target : error) : bool :=
  error_eqb err target
  || match err with
     | Wrap _ inner => errors_Is inner target
     | _ => false
     end.

(** [TransactionStatus]: the four constants of the domain, which are
    also the four values the [status] column admits. *)
Inductive TransactionStatus : Type :=
| TransactionStatusPending
| TransactionStatusComplete
| TransactionStatusFailed
| TransactionStatusRollback.

Definition status_string (s : TransactionStatus) : string :=
  match s with
  | TransactionStatusPending => "pending"
  | TransactionStatusComplete => "complete"
  | TransactionStatusFailed => "failed"
  | TransactionStatusRollback => "rollback"
  end.

(** [domain.Transaction], with the five fields that the code assigns
    and reads.  The struct has two more, [CreatedAt] and [UpdatedAt],
    strings that no query selects and no code assigns or reads: the
    columns [created_at] and [updated_at] of the table are kept by the
    database alone, and are in the [stamps] of the world below. *)
Record Transaction : Type := {
  ID : Z;
  TxSourceAccountID : Z;
  TxDestinationAccountID : Z;
  TxAmount : string;
  TxStatus : TransactionStatus
}.

Definition with_status (t : Transaction) (s : TransactionStatus) : Transaction :=
  {| ID := ID t; TxSourceAccountID := TxSourceAccountID t;
     TxDestinationAccountID := TxDestinationAccountID t;
     TxAmount := TxAmount t; TxStatus := s |}.

Definition with_id (t : Transaction) (id : Z) : Transaction :=
  {| ID := id; TxSourceAccountID := TxSourceAccountID t;
     TxDestinationAccountID := TxDestinationAccountID t;
     TxAmount := TxAmount t; TxStatus := TxStatus t |}.

Record TransactionDTO : Type := {
  DtoSourceAccountID : Z;
  DtoDestinationAccountID : Z;
  DtoAmount : string
}.

(** The [transactions] table, with the events published and the fault
    schedules.  Under the key of a row, [transactions] has the five
    columns that the queries name and [stamps] the two that the
    database sets: [created_at] and [updated_at], in this order.
    [next_id] is the next value of the serial key.  [clock] is the
    time of the database, counted in statements: every call of the
    repository takes one unit, and [CURRENT_TIMESTAMP] in a statement
    is the time at which it starts. *)
Record World : Type := {
  transactions : gmap Z Transaction;
  stamps : gmap Z (Z * Z);
  next_id : Z;
  clock : Z;
  db_faults : list bool;
  outbox : list (string * TransactionEvent);
  bus_faults : list bool
}.

Definition set_transactions (w : World) (t : gmap Z Transaction) (n : Z) : World :=
  {| transactions := t; stamps := stamps w; next_id := n; clock := clock w;
     db_faults := db_faults w; outbox := outbox w; bus_faults := bus_faults w |}.

Definition set_stamps (w : World) (s : gmap Z (Z * Z)) : World :=
  {| transactions := transactions w; stamps := s; next_id := next_id w;
     clock := clock w; db_faults := db_faults w; outbox := outbox w;
     bus_faults := bus_faults w |}.

Definition set_db_faults (w : World) (f : list bool) : World :=
  {| transactions := transactions w; stamps := stamps w; next_id := next_id w;
     clock := clock w; db_faults := f; outbox := outbox w;
     bus_faults := bus_faults w |}.

Definition set_bus (w : World) (o : list (string * TransactionEvent))
    (f : list bool) : World :=
  {| transactions := transactions w; stamps := stamps w; next_id := next_id w;
     clock := clock w; db_faults := db_faults w; outbox := o; bus_faults := f |}.

(** A statement has been executed: a unit of time has passed. *)
Definition tick (w : World) : World :=
  {| transactions := transactions w; stamps := stamps w; next_id := next_id w;
     clock := clock w + 1; db_faults := db_faults w; outbox := outbox w;
     bus_faults := bus_faults w |}.

(** The trigger [update_transactions_updated_at], before every update
    of a row: [NEW.updated_at = CURRENT_TIMESTAMP]. *)
Definition update_updated_at_column (now : Z) (stamp : Z * Z) : Z * Z :=
  (fst stamp, now).

(** *** postgres.transactionRepository *)

(** [Create]: the insert names four columns and returns the new key,
    stored in the record; [created_at] and [updated_at] take their
    default, [CURRENT_TIMESTAMP]. *)
Definition Create (t : Transaction) : M World (Transaction * option error) :=
  fun w =>
    let '(fails, rest) := next_fault (db_faults w) in
    let w' := tick (set_db_faults w rest) in
    if fails then (Ret (t, Some (Wrap "failed to create transaction" ErrDatabase)), w')
    else
      let t' := with_id t (next_id w) in
      (Ret (t', None),
       set_stamps
         (set_transactions w' (<[next_id w := t']> (transactions w))
            (next_id w + 1))
         (<[next_id w := (clock w, clock w)]> (stamps w))).

(** [GetByID]: the row of key [id], and [(nil, nil)] when there is
    none. *)
Definition GetByID (id : Z) : M World (option Transaction * option error) :=
  fun w =>
    let '(fails, rest) := next_fault (db_faults w) in
    let w' := tick (set_db_faults w rest) in
    if fails then (Ret (None, Some (Wrap "failed to get transaction" ErrDatabase)), w')
    else
      match transactions w !! id with
      | Some row => (Ret (Some (with_id row id), None), w')
      | None => (Ret (None, None), w')
      end.

(** [Update]: [UPDATE transactions SET status = $1 WHERE id = $2].
    The trigger rewrites [updated_at] of the row that is updated,
    also when the status written is the one the row has. *)
Definition Update (t : Transaction) : M World (option error) :=
  fun w =>
    let '(fails, rest) := next_fault (db_faults w) in
    let w' := tick (set_db_faults w rest) in
    if fails then (Ret (Some (Wrap "failed to update transaction" ErrDatabase)), w')
    else
      match transactions w !! ID t with
      | Some row =>
          (Ret None,
           set_stamps
             (set_transactions w'
                (<[ID t := with_status row (TxStatus t)]> (transactions w))
                (next_id w))
             (alter (update_updated_at_column (clock w)) (ID t) (stamps w)))
      | None => (Ret None, w')
      end.

(** Modelled from the spec: the messaging package of the transaction
    service is not among the sources.  Its publish is a call to the
    event channel that either fails or hands the event to the topic
    of submitted transfers. *)
Definition PublishTransactionSubmitted (event : TransactionEvent)
  : M World (option error) :=
  fun w =>
    let '(fails, rest) := next_fault (bus_faults w) in
    if fails then (Ret (Some ErrPublish), set_bus w (outbox w) rest)
    else
      (Ret None,
       set_bus w (outbox w ++ [(EventTransactionSubmitted, event)]) rest).

(** *** application.transactionService *)

Definition SubmitTransaction (dto : TransactionDTO) : M World (option error) :=
  if DtoSourceAccountID dto =? DtoDestinationAccountID dto then
    ret (Some ErrSameAccount)
  else
    let transaction :=
      {| ID := 0;
         TxSourceAccountID := DtoSourceAccountID dto;
         TxDestinationAccountID := DtoDestinationAccountID dto;
         TxAmount := DtoAmount dto;
         TxStatus := TransactionStatusPending |} in
    let* (transaction, err) := Create transaction in
    match err with
    | Some err => ret (Some (Wrap "failed to create transaction" err))
    | None =>
        let event :=
          {| TransactionID := ID transaction;
             SourceAccountID := TxSourceAccountID transaction;
             DestinationAccountID := TxDestinationAccountID transaction;
             Amount := TxAmount transaction;
             Status := status_string (TxStatus transaction) |} in
        let* err := PublishTransactionSubmitted event in
        match err with
        | Some err =>
            let transaction := with_status transaction TransactionStatusFailed in
            let* _ := Update transaction in
            ret (Some (Wrap "failed to publish transaction event" err))
        | None => ret None
        end
    end.

Definition GetTransaction (id : Z) : M World (option Transaction * option error) :=
  let* (transaction, err) := GetByID id in
  match err with
  | Some err => ret (None, Some (Wrap "failed to get transaction" err))
  | None =>
      match transaction with
      | None => ret (None, Some ErrNotFound)
      | Some transaction => ret (Some transaction, None)
      end
  end.

(** [HandleTransactionCompleted] assigns the status through the
    pointer it was given, without a test for nil. *)
Definition HandleTransactionCompleted (event : TransactionEvent)
  : M World (option error) :=
  let* (transaction, err) := GetByID (TransactionID event) in
  match err with
  | Some err => ret (Some (Wrap "failed to get transaction" err))
  | None =>
      match transaction with
      | None => panic nil_dereference
      | Some transaction =>
          let transaction := with_status transaction TransactionStatusComplete in
          let* err := Update transaction in
          match err with
          | Some err => ret (Some (Wrap "failed to update transaction" err))
          | None => ret None
          end
      end
  end.

Definition HandleTransactionFailed (event : TransactionEvent)
  : M World (option error) :=
  let* (transaction, err) := GetByID (TransactionID event) in
  match err with
  | Some err => ret (Some (Wrap "failed to get transaction" err))
  | None =>
      match transaction with
      | None => ret None
      | Some transaction =>
          let transaction := with_status transaction TransactionStatusFailed in
          let* err := Update transaction in
          match err with
          | Some err => ret (Some (Wrap "failed to update transaction" err))
          | None => ret None
          end
      end
  end.

(** The callback that [main] registers for the terminal events: the
    status label of the event selects the handler, and any other
    label is acknowledged without effect. *)
Definition dispatch (event : TransactionEvent) : M World (option error) :=
  if String.eqb (Status event) (status_string TransactionStatusComplete) then
    HandleTransactionCompleted event
  else if String.eqb (Status event) (status_string TransactionStatusFailed) then
    HandleTransactionFailed event
  else ret None.

(** *** interfaces/http: POST /transactions

    The request is the decoded body; the validator requires the two
    identifiers to be non-zero and the amount to be non-empty. *)
Record SubmitTransactionRequest : Type := {
  ReqSourceAccountID : Z;
  ReqDestinationAccountID : Z;
  ReqAmount : string
}.

Definition StatusCreated : Z := 201.
Definition StatusBadRequest : Z := 400.
Definition StatusNotFound : Z := 404.
Definition StatusInternalServerError : Z := 500.

Definition validate (req : SubmitTransactionRequest) : bool :=
  negb (ReqSourceAccountID req =? 0)
  && negb (ReqDestinationAccountID req =? 0)
  && negb (String.eqb (ReqAmount req) "").

Definition SubmitTransactionHandler (req : SubmitTransactionRequest)
  : M World Z :=
  if negb (validate req) then ret StatusBadRequest
  else
    let dto :=
      {| DtoSourceAccountID := ReqSourceAccountID req;
         DtoDestinationAccountID := ReqDestinationAccountID req;
         DtoAmount := ReqAmount req |} in
    let* err := SubmitTransaction dto in
    match err with
    | Some err =>
        if errors_Is err ErrSameAccount then ret StatusBadRequest
        else if errors_Is err ErrInvalidAmount then ret StatusBadRequest
        else if errors_Is err ErrInsufficientFunds then ret StatusBadRequest
        else if errors_Is err ErrAccountNotFound then ret StatusNotFound
        else ret StatusInternalServerError
    | None => ret StatusCreated
    end.

(** *** interfaces/http: GET /transactions/{id}

    The identifier is the result of [strconv.ParseInt] on the path
    parameter, [None] when it does not parse.  Every error of the
    service is answered in the same way. *)
Inductive response : Type :=
| ErrorResponse (message : string)
| TransactionResponse (id source_account_id destination_account_id : Z)
    (amount status : string).

Definition StatusOK : Z := 200.

Definition GetTransactionHandler (id : option Z) : M World (Z * response) :=
  match id with
  | None => ret (StatusBadRequest, ErrorResponse "Invalid transaction ID")
  | Some id =>
      let* (transaction, err) := GetTransaction id in
      match err with
      | Some _ => ret (StatusNotFound, ErrorResponse "Transaction not found")
      | None =>
          match transaction with
          | Some transaction =>
              ret (StatusOK,
                   TransactionResponse (ID transaction)
                     (TxSourceAccountID transaction)
                     (TxDestinationAccountID transaction)
                     (TxAmount transaction)
                     (status_string (TxStatus transaction)))
          | None => panic nil_dereference
          end
      end
  end.

End TransactionService.

(** ** Quantities of the statements *)

(** The number of hundredths that a plain decimal literal with at most
    two fractional digits denotes: [money "40.5"] is [Some 4050].  The
    only sign admitted is [+]. *)
Definition money (s : string) : option Z :=
  match scanSign s with
  | (true, _) => None
  | (false, body) =>
      match scan_mantissa body 0 0 None with
      | Some (acc, count, dp) =>
          let frac := match dp with Some p => count - p | None => 0 end in
          if (count =? 0) || (2 <? frac) then None
          else Some (acc * 10 ^ (2 - frac))
      | None => None
      end
  end.

(** The next [n] calls under a fault schedule do not fail. *)
Fixpoint calls_ok (n : nat) (faults : list bool) : Prop :=
  match n with
  | O => True
  | Datatypes.S n =>
      fst (next_fault faults) = false /\ calls_ok n (snd (next_fault faults))
  end.

(** *** Amounts of money as floats *)

(** Magnitudes are compared on a common integer scale: the unit of
    exponent [e] and the magnitude [m * 2^e], both multiplied by
    [2^256]. *)
Definition ulp (e : Z) : Z := 2 ^ (e + 256).
Definition scaled (m e : Z) : Z := m * ulp e.

(** The float that [SetString] gives for a literal of [k] hundredths. *)
Definition money_float (k : Z) : Float :=
  if k =? 0 then Zero false else finite_of_ratio false k 100.

(** [x] is a positive float of exponent at least [lo], within [j]
    units of error of [k] hundredths, a unit being at most [2^-13]. *)
Definition near (lo j : Z) (x : Float) (k : Z) : Prop :=
  exists m e,
    x = Finite false m e /\ lo <= e <= -13 /\ 0 <= m
    /\ - (j * 100 * 2 ^ 243) <= 200 * scaled m e - 2 * k * 2 ^ 256
       <= j * 100 * 2 ^ 243.

(** A byte that is not white space, alone or as part of a rune. *)
Definition solid (c : ascii) : Prop :=
  Strings.asciiSpace c = false /\ Strings.code c < 128.

(** A byte that a numeric literal may contain: a digit or a letter,
    the radix point, the separator, a sign. *)
Definition literal_byte (c : ascii) : bool :=
  (digit_of c <? 63) || Ascii.eqb c "."%char || Ascii.eqb c "_"%char
  || Ascii.eqb c "+"%char || Ascii.eqb c "-"%char.

(** [rest] is what is left of [s] after bytes of a literal. *)
Definition literal_prefix_of (s rest : string) : Prop :=
  exists pre,
    list_ascii_of_string s = (pre ++ list_ascii_of_string rest)%list
    /\ Forall (fun c => literal_byte c = true) pre.

(** The amounts that are refused.  An amount is malformed when, white
    space trimmed, it is not a number to [SetString]: empty, or not in
    the syntax of literals.  It is negative when it is a number whose
    sign is negative. *)
Definition malformed (amount : string) : Prop :=
  SetString (Strings.TrimSpace amount) = None.

Definition negative (amount : string) : Prop :=
  exists value,
    SetString (Strings.TrimSpace amount) = Some value /\ Sign value < 0.


(** The exact value of a plain decimal literal, as a rational. *)
Definition decimal (s : string) : option Q :=
  let '(neg, body) := scanSign s in
  match scan_mantissa body 0 0 None with
  | Some (acc, count, dp) =>
      if count =? 0 then None
      else
        let frac := match dp with Some p => count - p | None => 0 end in
        Some (Qmake (if neg then - acc else acc) (Z.to_pos (10 ^ frac)))
  | None => None
  end.

(** *** Scenarios of the account service *)

(** The world of the scenarios: account 1 holds [s], account 2 holds
    [d], and no call fails. *)
Definition two_accounts (s d : string) : AccountService.World :=
  {| AccountService.accounts := <[1 := s]> (<[2 := d]> ∅);
     AccountService.db_faults := [];
     AccountService.outbox := [];
     AccountService.bus_faults := [] |}.

Definition submitted (id src dst : Z) (amount : string) : TransactionEvent :=
  {| TransactionID := id; SourceAccountID := src; DestinationAccountID := dst;
     Amount := amount; Status := "pending" |}.

(** The error of a failed write of the destination balance. *)
Definition destination_write_failed (err : AccountService.error) : Prop :=
  exists inner, err = AccountService.Wrap "failed to update destination account" inner.

(** *** The consumer *)

(** The message that a retry publishes: the same body, and the count
    as the only header. *)
Definition retry_message (msg : Messaging.Delivery) (n : Z) : Messaging.Delivery :=
  {| Messaging.Body := Messaging.Body msg;
     Messaging.Headers := {[ "x-retry-count" := Messaging.HInt32 n ]} |}.

(** The state of the service after the handler has run on [event]. *)
Definition handled {S E : Type} (handler : TransactionEvent -> M S (option E))
    (event : TransactionEvent) (s : S) : S :=
  snd (handler event s).


Definition fresh_message (event : TransactionEvent) : Messaging.Delivery :=
  {| Messaging.Body := Messaging.Json event; Messaging.Headers := ∅ |}.


(** The three business failures of a "submitted" event, as the handler
    decides them, with the status that the failed event carries. *)
Inductive business_failure (event : TransactionEvent) (w : AccountService.World)
  : string -> Prop :=
| source_missing :
    AccountService.accounts w !! SourceAccountID event = None ->
    business_failure event w "failed: source account not found"
| destination_missing sb :
    AccountService.accounts w !! SourceAccountID event = Some sb ->
    AccountService.accounts w !! DestinationAccountID event = None ->
    business_failure event w "failed: destination account not found"
| insufficient_funds sb db sourceBalance amount :
    AccountService.accounts w !! SourceAccountID event = Some sb ->
    AccountService.accounts w !! DestinationAccountID event = Some db ->
    AccountService.validateAmount (Amount event) = None ->
    SetString sb = Some sourceBalance ->
    SetString (Amount event) = Some amount ->
    Cmp sourceBalance amount < 0 ->
    business_failure event w "failed: insufficient funds".

(** The state after one failed event has been published. *)
Definition with_failed (event : TransactionEvent) (status : string)
    (w : AccountService.World) : AccountService.World :=
  AccountService.set_outbox w
    (AccountService.outbox w
     ++ [(EventTransactionFailed, AccountService.failedEvent event status)]).

(** *** Scenarios of the transaction service *)

Definition stored (status : TransactionService.TransactionStatus)
  : TransactionService.Transaction :=
  {| TransactionService.ID := 5;
     TransactionService.TxSourceAccountID := 1;
     TransactionService.TxDestinationAccountID := 2;
     TransactionService.TxAmount := "40.00";
     TransactionService.TxStatus := status |}.

(** A transaction service that holds transaction 5 in the given
    status, with no failing call: the row was created at time 10 and
    last updated at time 12, and it is now time 20. *)
Definition one_transaction (status : TransactionService.TransactionStatus)
  : TransactionService.World :=
  {| TransactionService.transactions := {[ 5 := stored status ]};
     TransactionService.stamps := {[ 5 := (10, 12) ]};
     TransactionService.next_id := 6;
     TransactionService.clock := 20;
     TransactionService.db_faults := [];
     TransactionService.outbox := [];
     TransactionService.bus_faults := [] |}.

Definition no_transactions : TransactionService.World :=
  {| TransactionService.transactions := ∅;
     TransactionService.stamps := ∅;
     TransactionService.next_id := 1;
     TransactionService.clock := 0;
     TransactionService.db_faults := [];
     TransactionService.outbox := [];
     TransactionService.bus_faults := [] |}.

Definition terminal (id : Z) (status : string) : TransactionEvent :=
  {| TransactionID := id; SourceAccountID := 1; DestinationAccountID := 2;
     Amount := "40.00"; Status := status |}.

(** The status that a terminal event carries. *)
Definition terminal_status (label : string)
  : option TransactionService.TransactionStatus :=
  if String.eqb label "complete" then Some TransactionService.TransactionStatusComplete
  else if String.eqb label "failed" then Some TransactionService.TransactionStatusFailed
  else None.

(** *** Runs of the handlers *)

(** A property of the world that a computation keeps, whatever its
    result. *)
Definition keeps {W A : Type} (P : W -> Prop) (c : M W A) : Prop :=
  forall w, P w -> P (snd (c w)).

(** No call of the database or of the broker fails from here on. *)
Definition quiet (w : AccountService.World) : Prop :=
  AccountService.db_faults w = [] /\ AccountService.bus_faults w = [].

(** What one run of the handler on [event] has done, from the world
    [w] to the world [w'], with its result. *)
Inductive attempt (event : TransactionEvent) (w w' : AccountService.World)
  : outcome (option AccountService.error) -> Prop :=
| attempt_panics m :
    AccountService.accounts w' = AccountService.accounts w ->
    AccountService.outbox w' = AccountService.outbox w ->
    attempt event w w' (Panic m)
| attempt_fails err reason :
    (AccountService.accounts w' = AccountService.accounts w
     \/ (destination_write_failed err
         /\ exists sb b,
              AccountService.accounts w !! SourceAccountID event = Some sb
              /\ AccountService.accounts w'
                 = <[SourceAccountID event := b]> (AccountService.accounts w))) ->
    (AccountService.outbox w' = AccountService.outbox w
     \/ AccountService.outbox w'
        = (AccountService.outbox w
           ++ [(EventTransactionFailed,
                AccountService.failedEvent event ("failed: " ++ reason))])%list) ->
    attempt event w w' (Ret (Some err))
| attempt_completes sb db b b' :
    AccountService.accounts w !! SourceAccountID event = Some sb ->
    AccountService.accounts w !! DestinationAccountID event = Some db ->
    AccountService.accounts w'
    = <[DestinationAccountID event := b']>
        (<[SourceAccountID event := b]> (AccountService.accounts w)) ->
    (AccountService.outbox w' = AccountService.outbox w
     \/ AccountService.outbox w'
        = (AccountService.outbox w
           ++ [(EventTransactionCompleted, AccountService.completedEvent event)])%list) ->
    attempt event w w' (Ret None).

(** The handler succeeds on each of the events in turn, from the
    state [s]. *)
Fixpoint succeeds {S E : Type} (handler : TransactionEvent -> M S (option E))
    (events : list TransactionEvent) (s : S) : Prop :=
  match events with
  | [] => True
  | event :: rest =>
      fst (handler event s) = Ret None
      /\ succeeds handler rest (handled handler event s)
  end.

(** The body of [msg] is the body of a message of [msgs]. *)
Definition body_of (msgs : list Messaging.Delivery) (msg : Messaging.Delivery) : Prop :=
  exists m, In m msgs /\ Messaging.Body msg = Messaging.Body m.

(** *** Requests of the transaction service *)

(** The pending row of a request, under the key [id]. *)
Definition pending_row (id : Z) (dto : TransactionService.TransactionDTO)
  : TransactionService.Transaction :=
  {| TransactionService.ID := id;
     TransactionService.TxSourceAccountID := TransactionService.DtoSourceAccountID dto;
     TransactionService.TxDestinationAccountID :=
       TransactionService.DtoDestinationAccountID dto;
     TransactionService.TxAmount := TransactionService.DtoAmount dto;
     TransactionService.TxStatus := TransactionService.TransactionStatusPending |}.

(** The event of a stored request. *)
Definition submitted_event (id : Z) (dto : TransactionService.TransactionDTO)
  : TransactionEvent :=
  submitted id (TransactionService.DtoSourceAccountID dto)
    (TransactionService.DtoDestinationAccountID dto)
    (TransactionService.DtoAmount dto).




(** * Properties *)

(** ** The model on some literals *)

Example SetString_100 :
  SetString "100.00" = Some (Finite false (100 * 2 ^ 57) (-57)).
Proof. reflexivity. Qed.

Example SetString_tenth :
  SetString "0.1" = Some (Finite false 14757395258967641293 (-67)).
Proof. reflexivity. Qed.

Example SetString_forms :
  SetString "+5" = SetString "5." /\ SetString "-.5" = Some (Finite true (2 ^ 63) (-64))
  /\ SetString "." = None /\ SetString "" = None /\ SetString "1.2.3" = None
  /\ SetString " 5" = None /\ SetString "-0" = Some (Zero true)
  /\ SetString "-Inf" = Some (Inf true).
Proof. repeat split; reflexivity. Qed.

(** Ties go to the even digit, on the binary value. *)
Example Text_f2_ties :
  (Text_f2 <$> SetString "0.125") = Some "0.12"
  /\ (Text_f2 <$> SetString "0.375") = Some "0.38"
  /\ (Text_f2 <$> SetString "2.5") = Some "2.50"
  /\ (Text_f2 <$> SetString "-0") = Some "-0.00"
  /\ (Text_f2 <$> SetString "inf") = Some "+Inf".
Proof. repeat split; reflexivity. Qed.

Example sum_of_tenths :
  (x ← SetString "0.1"; y ← SetString "0.2"; Text_f2 <$> Add x y) = Some "0.30".
Proof. reflexivity. Qed.

Example TrimSpace_examples :
  Strings.TrimSpace "  40.00 " = "40.00"
  /\ Strings.TrimSpace (String (ascii_of_nat 9) "5" ++ String (ascii_of_nat 10) "")
     = "5"
  /\ Strings.TrimSpace (String (ascii_of_nat 194) (String (ascii_of_nat 160) "5"))
     = "5"
  /\ Strings.TrimSpace "4 0" = "4 0".
Proof. repeat split; reflexivity. Qed.

Example validateAmount_examples :
  AccountService.validateAmount "40.00" = None
  /\ AccountService.validateAmount " 5 " = None
  /\ AccountService.validateAmount "0" = None
  /\ AccountService.validateAmount "Inf" = None
  /\ AccountService.validateAmount "" = Some AccountService.ErrInvalidAmount
  /\ AccountService.validateAmount "abc" = Some AccountService.ErrInvalidAmount
  /\ AccountService.validateAmount "-5.00" = Some AccountService.ErrNegativeAmount.
Proof. repeat split; reflexivity. Qed.

Example money_examples :
  money "100.00" = Some 10000 /\ money "40" = Some 4000 /\ money "0.5" = Some 50
  /\ money "+7.25" = Some 725 /\ money "0.001" = None /\ money "-1" = None
  /\ money "Inf" = None.
Proof. repeat split; reflexivity. Qed.

(** ** Rounding to 64 bits *)

Lemma rne_bounds N D :
  0 <= N -> 0 < D ->
  0 <= rne N D /\ - D <= 2 * (rne N D * D - N) <= D.
Proof.
  intros HN HD. unfold rne.
  pose proof (Z.div_mod N D ltac:(lia)) as Hdm.
  pose proof (Z.mod_pos_bound N D HD) as Hr.
  pose proof (Z.div_pos N D HN HD) as Hq.
  destruct (Z.compare_spec (2 * (N mod D)) D) as [He | Hl | Hg].
  - destruct (Z.even (N / D)); split; nia.
  - split; nia.
  - split; nia.
Qed.

Lemma rne_scale t N D :
  0 < t -> 0 < D -> rne (t * N) (t * D) = rne N D.
Proof.
  intros Ht HD. unfold rne.
  rewrite Z.div_mul_cancel_l by lia.
  rewrite Z.mul_mod_distr_l by lia.
  destruct (Z.compare_spec (2 * (t * (N mod D))) (t * D)),
    (Z.compare_spec (2 * (N mod D)) D); try reflexivity; nia.
Qed.

Lemma round_at_scale t n d e :
  0 < t -> 0 < d -> round_at (t * n) (t * d) e = round_at n d e.
Proof.
  intros Ht Hd. unfold round_at, scale.
  destruct (0 <=? e) eqn:He.
  - apply Z.leb_le in He.
    rewrite <- Z.mul_assoc. apply rne_scale; [lia|].
    apply Z.mul_pos_pos; [lia|]. apply Z.pow_pos_nonneg; lia.
  - rewrite <- Z.mul_assoc. apply rne_scale; lia.
Qed.

Lemma exponent_scale t n d :
  0 < t -> 0 < n -> 0 < d -> exponent (t * n) (t * d) = exponent n d.
Proof.
  intros Ht Hn Hd. unfold exponent.
  replace (- (t * d)) with (t * - d) by ring.
  rewrite !Z.div_mul_cancel_l by lia.
  destruct (Z.leb_spec d n), (Z.leb_spec (t * d) (t * n)); try reflexivity; nia.
Qed.

Lemma round_ratio_scale t n d :
  0 < t -> 0 < n -> 0 < d -> round_ratio (t * n) (t * d) = round_ratio n d.
Proof.
  intros Ht Hn Hd. unfold round_ratio.
  rewrite exponent_scale, round_at_scale by assumption. reflexivity.
Qed.

Lemma exponent_upper i n d :
  0 < i -> 0 < n -> 0 < d -> n < 2 ^ i * d -> exponent n d <= i - 64.
Proof.
  intros Hi Hn Hd Hlt. unfold exponent.
  destruct (Z.leb_spec d n) as [Hle | Hgt].
  - assert (0 < n / d) by (apply Z.div_str_pos; lia).
    assert (n / d < 2 ^ i) as Hq
      by (apply Z.div_lt_upper_bound; lia).
    apply Z.log2_lt_pow2 in Hq; lia.
  - pose proof (Z.log2_up_nonneg (- (- d / n))). lia.
Qed.

Lemma exponent_lower j n d :
  0 <= j -> 0 < n -> 0 < d -> d <= 2 ^ j * n -> - 63 - j <= exponent n d.
Proof.
  intros Hj Hn Hd Hle. unfold exponent.
  destruct (Z.leb_spec d n) as [Hdn | Hgt].
  - pose proof (Z.log2_nonneg (n / d)). lia.
  - assert (- 2 ^ j <= - d / n) as Hq
      by (apply Z.div_le_lower_bound; nia).
    assert (- d / n < 0) as Hneg
      by (apply Z.div_lt_upper_bound; lia).
    assert (- (- d / n) <= 2 ^ j) as Hc by lia.
    apply Z.log2_up_le_pow2 in Hc; lia.
Qed.

(** The exponent brackets the ratio between two powers of two, and
    the mantissa that results is normalised: the model is a float of
    64 bits of precision. *)
Lemma exponent_bracket n d :
  0 < n -> 0 < d ->
  let L := exponent n d + 63 in
  (0 <= L -> 2 ^ L * d <= n < 2 ^ (L + 1) * d)
  /\ (L < 0 -> d <= 2 ^ (- L) * n /\ 2 ^ (- L - 1) * n < d).
Proof.
  intros Hn Hd. unfold exponent. cbv zeta.
  destruct (Z.leb_spec d n) as [Hle | Hgt].
  - replace (Z.log2 (n / d) - 63 + 63) with (Z.log2 (n / d)) by lia.
    assert (0 < n / d) as Hq by (apply Z.div_str_pos; lia).
    pose proof (Z.log2_spec (n / d) Hq) as [Hlo Hhi].
    pose proof (Z.log2_nonneg (n / d)) as HL.
    pose proof (Z.div_mod n d ltac:(lia)) as Hdm.
    pose proof (Z.mod_pos_bound n d Hd) as Hr.
    split; [|lia]. intros _.
    replace (Z.log2 (n / d) + 1) with (Z.succ (Z.log2 (n / d))) by lia.
    split; nia.
  - set (c := - (- d / n)).
    replace (- Z.log2_up c - 63 + 63) with (- Z.log2_up c) by lia.
    pose proof (Z.div_mod (- d) n ltac:(lia)) as Hdm.
    pose proof (Z.mod_pos_bound (- d) n Hn) as Hr.
    assert (1 < c) as Hc by (subst c; nia).
    pose proof (Z.log2_up_spec c Hc) as [Hlo Hhi].
    assert (0 < Z.log2_up c) as HP by (apply Z.log2_up_pos; lia).
    split; [lia|]. intros _.
    replace (- - Z.log2_up c) with (Z.log2_up c) by lia.
    replace (- - Z.log2_up c - 1) with (Z.pred (Z.log2_up c)) by lia.
    subst c. split; nia.
Qed.

Lemma round_ratio_normal n d m e :
  0 < n -> 0 < d -> round_ratio n d = (m, e) -> 2 ^ 63 <= m < 2 ^ 64.
Proof.
  intros Hn Hd Hr. unfold round_ratio in Hr.
  destruct (exponent_bracket n d Hn Hd) as [Hpos Hneg].
  set (e0 := exponent n d) in *.
  assert (2 ^ 63 <= round_at n d e0 <= 2 ^ 64) as Hm.
  { unfold round_at, scale.
    assert (forall N D, 0 < D -> 2 ^ 63 * D <= N < 2 ^ 64 * D ->
                        2 ^ 63 <= rne N D <= 2 ^ 64) as Hrne.
    { intros N D HD HN. unfold rne.
      pose proof (Z.div_mod N D ltac:(lia)) as Hdm.
      pose proof (Z.mod_pos_bound N D HD) as Hrm.
      assert (2 ^ 63 <= N / D) by (apply Z.div_le_lower_bound; lia).
      assert (N / D < 2 ^ 64) by (apply Z.div_lt_upper_bound; lia).
      destruct (2 * (N mod D) ?= D); [destruct (Z.even (N / D))| |]; lia. }
    destruct (Z.leb_spec 0 e0) as [He | He].
    - assert (0 < 2 ^ e0) by (apply Z.pow_pos_nonneg; lia).
      apply Hrne; [nia|].
      specialize (Hpos ltac:(lia)).
      replace (e0 + 63 + 1) with (64 + e0) in Hpos by lia.
      replace (e0 + 63) with (63 + e0) in Hpos by lia.
      rewrite !Z.pow_add_r in Hpos by lia. nia.
    - assert (0 < 2 ^ (- e0)) by (apply Z.pow_pos_nonneg; lia).
      apply Hrne; [lia|].
      destruct (Z.leb_spec 0 (e0 + 63)) as [HL | HL].
      + specialize (Hpos HL).
        assert (2 ^ 63 = 2 ^ (e0 + 63) * 2 ^ (- e0)) as H63
          by (rewrite <- Z.pow_add_r by lia; f_equal; lia).
        assert (2 ^ 64 = 2 ^ (e0 + 63 + 1) * 2 ^ (- e0)) as H64
          by (rewrite <- Z.pow_add_r by lia; f_equal; lia).
        rewrite H63, H64. nia.
      + destruct (Hneg HL) as [H1 H2].
        assert (2 ^ (- e0) = 2 ^ 63 * 2 ^ (- (e0 + 63))) as Hq
          by (rewrite <- Z.pow_add_r by lia; f_equal; lia).
        assert (2 ^ (- e0) = 2 ^ 64 * 2 ^ (- (e0 + 63) - 1)) as Hq'
          by (rewrite <- Z.pow_add_r by lia; f_equal; lia).
        assert (0 < 2 ^ (- (e0 + 63) - 1)) by (apply Z.pow_pos_nonneg; lia).
        assert (0 < 2 ^ (- (e0 + 63))) by (apply Z.pow_pos_nonneg; lia).
        split; [rewrite Hq | rewrite Hq']; nia. }
  destruct (Z.eqb_spec (round_at n d e0) (2 ^ 64)) as [Hc | Hc]; inversion Hr; subst m e; clear Hr Hpos Hneg; [ split; [lia | apply Z.pow_lt_mono_r; lia] | lia ].
Qed.

(** *** Powers of two in the denominator

    The exponent is the one integer that brackets the ratio, so that
    a power of two in the denominator only shifts it. *)

Lemma bracket_scaled n d L K :
  0 < n -> 0 < d ->
  (0 <= L -> 2 ^ L * d <= n < 2 ^ (L + 1) * d) ->
  (L < 0 -> d <= 2 ^ (- L) * n /\ 2 ^ (- L - 1) * n < d) ->
  0 <= K -> 0 <= K + L ->
  2 ^ (K + L) * d <= 2 ^ K * n < 2 ^ (K + L + 1) * d.
Proof.
  intros Hn Hd Hp Hm HK HKL.
  assert (0 < 2 ^ K) by (apply Z.pow_pos_nonneg; lia).
  destruct (Z.leb_spec 0 L) as [HL | HL].
  - specialize (Hp HL).
    replace (K + L + 1) with (K + (L + 1)) by lia.
    rewrite (Z.pow_add_r 2 K L), (Z.pow_add_r 2 K (L + 1)) by lia.
    assert (0 < 2 ^ L) by (apply Z.pow_pos_nonneg; lia).
    split; [rewrite <- Z.mul_assoc; apply Z.mul_le_mono_nonneg_l; lia|].
    rewrite <- Z.mul_assoc. apply Z.mul_lt_mono_pos_l; lia.
  - destruct (Hm HL) as [H1 H2].
    assert (2 ^ K = 2 ^ (K + L) * 2 ^ (- L)) as E1
      by (rewrite <- Z.pow_add_r by lia; f_equal; lia).
    assert (2 ^ K = 2 ^ (K + L + 1) * 2 ^ (- L - 1)) as E2
      by (rewrite <- Z.pow_add_r by lia; f_equal; lia).
    assert (0 < 2 ^ (K + L)) by (apply Z.pow_pos_nonneg; lia).
    assert (0 < 2 ^ (K + L + 1)) by (apply Z.pow_pos_nonneg; lia).
    split; [rewrite E1 | rewrite E2]; nia.
Qed.

Lemma exponent_scaled n d K :
  0 < n -> 0 < d -> 0 <= K -> 0 <= K + (exponent n d + 63) ->
  2 ^ (K + (exponent n d + 63)) * d <= 2 ^ K * n
  < 2 ^ (K + (exponent n d + 63) + 1) * d.
Proof.
  intros Hn Hd HK HKL.
  destruct (exponent_bracket n d Hn Hd) as [Hp Hm].
  apply bracket_scaled; assumption.
Qed.

Lemma exponent_unique n d L K :
  0 < n -> 0 < d -> 0 <= K -> 0 <= K + L ->
  2 ^ (K + L) * d <= 2 ^ K * n < 2 ^ (K + L + 1) * d ->
  exponent n d = L - 63.
Proof.
  intros Hn Hd HK HKL [Hlo Hhi].
  set (L0 := exponent n d + 63).
  set (J := Z.abs L0).
  pose proof (exponent_scaled n d (K + J) Hn Hd ltac:(lia) ltac:(lia)) as [Glo Ghi].
  fold L0 in Glo, Ghi.
  assert (0 < 2 ^ J) as HJ by (apply Z.pow_pos_nonneg; lia).
  assert (2 ^ (K + J + L) * d <= 2 ^ (K + J) * n) as Hlo'.
  { replace (K + J + L) with (J + (K + L)) by lia.
    replace (K + J) with (J + K) by lia.
    rewrite (Z.pow_add_r 2 J (K + L)), (Z.pow_add_r 2 J K) by lia.
    rewrite <- !Z.mul_assoc. apply Z.mul_le_mono_nonneg_l; lia. }
  assert (2 ^ (K + J) * n < 2 ^ (K + J + L + 1) * d) as Hhi'.
  { replace (K + J + L + 1) with (J + (K + L + 1)) by lia.
    replace (K + J) with (J + K) by lia.
    rewrite (Z.pow_add_r 2 J (K + L + 1)), (Z.pow_add_r 2 J K) by lia.
    rewrite <- !Z.mul_assoc. apply Z.mul_lt_mono_pos_l; lia. }
  enough (L = L0) by lia.
  destruct (Z.lt_trichotomy L L0) as [Hlt | [Heq | Hgt]]; [exfalso | exact Heq | exfalso].
  - assert (2 ^ (K + J + L + 1) <= 2 ^ (K + J + L0)) by (apply Z.pow_le_mono_r; lia).
    nia.
  - assert (2 ^ (K + J + L0 + 1) <= 2 ^ (K + J + L)) by (apply Z.pow_le_mono_r; lia).
    nia.
Qed.

Lemma exponent_shift k n d :
  0 <= k -> 0 < n -> 0 < d -> exponent n (2 ^ k * d) = exponent n d - k.
Proof.
  intros Hk Hn Hd.
  assert (0 < 2 ^ k) as Hp by (apply Z.pow_pos_nonneg; lia).
  set (L0 := exponent n d + 63).
  set (K := Z.abs L0 + k).
  pose proof (exponent_scaled n d K Hn Hd ltac:(lia) ltac:(lia)) as [Glo Ghi].
  fold L0 in Glo, Ghi.
  replace (exponent n d - k) with (L0 - k - 63) by lia.
  apply (exponent_unique n (2 ^ k * d) (L0 - k) K); [lia | nia | lia | lia |].
  assert (2 ^ (K + L0) = 2 ^ (K + (L0 - k)) * 2 ^ k) as E1
    by (rewrite <- Z.pow_add_r by lia; f_equal; lia).
  assert (2 ^ (K + L0 + 1) = 2 ^ (K + (L0 - k) + 1) * 2 ^ k) as E2
    by (rewrite <- Z.pow_add_r by lia; f_equal; lia).
  rewrite E1 in Glo. rewrite E2 in Ghi. split; nia.
Qed.

Lemma round_at_shift k n d e :
  0 <= k -> 0 < d -> round_at n (2 ^ k * d) (e - k) = round_at n d e.
Proof.
  intros Hk Hd. unfold round_at, scale.
  assert (0 < 2 ^ k) as Hp by (apply Z.pow_pos_nonneg; lia).
  destruct (Z.leb_spec 0 (e - k)) as [H1 | H1], (Z.leb_spec 0 e) as [H2 | H2];
    try lia.
  - f_equal. replace e with (k + (e - k)) at 2 by lia.
    rewrite Z.pow_add_r by lia. ring.
  - assert (0 < 2 ^ (- (e - k))) by (apply Z.pow_pos_nonneg; lia).
    assert (0 < 2 ^ e) by (apply Z.pow_pos_nonneg; lia).
    rewrite <- (rne_scale (2 ^ (- (e - k))) n (d * 2 ^ e)) by nia.
    f_equal; [ring|].
    replace k with (- (e - k) + e) at 1 by lia.
    rewrite Z.pow_add_r by lia. ring.
  - assert (0 < 2 ^ (- e)) by (apply Z.pow_pos_nonneg; lia).
    rewrite <- (rne_scale (2 ^ k) (n * 2 ^ (- e)) d) by lia.
    f_equal.
    replace (- (e - k)) with (k + - e) by lia.
    rewrite Z.pow_add_r by lia. ring.
Qed.

Lemma round_ratio_shift k n d :
  0 <= k -> 0 < n -> 0 < d ->
  round_ratio n (2 ^ k * d)
  = (fst (round_ratio n d), snd (round_ratio n d) - k).
Proof.
  intros Hk Hn Hd. unfold round_ratio.
  rewrite exponent_shift, round_at_shift by assumption.
  destruct (round_at n d (exponent n d) =? 2 ^ 64); cbn [fst snd]; f_equal; lia.
Qed.

(** Far from the ends of the exponent range, [round_scaled] is the
    nearest float. *)
Lemma round_scaled_small neg n d k :
  0 < n -> 0 < d -> 0 <= k <= 400 -> n < 2 ^ 400 * d -> d <= 2 ^ 400 * n ->
  round_scaled neg n d (- k) = finite_of_ratio neg n (2 ^ k * d).
Proof.
  intros Hn Hd Hk Hup Hlo. unfold round_scaled, finite_of_ratio.
  pose proof (exponent_upper 400 n d ltac:(lia) Hn Hd Hup) as He1.
  pose proof (exponent_lower 400 n d ltac:(lia) Hn Hd Hlo) as He2.
  rewrite round_ratio_shift by lia.
  unfold MinExp, MaxExp.
  destruct (Z.ltb_spec (exponent n d + 64 + - k) (- 2 ^ 31)); [lia|].
  destruct (Z.ltb_spec (2 ^ 31 - 1) (exponent n d + 64 + - k)); [lia|].
  assert (snd (round_ratio n d) <= exponent n d + 1) as He3.
  { unfold round_ratio.
    destruct (round_at n d (exponent n d) =? 2 ^ 64); cbn [snd]; lia. }
  destruct (round_ratio n d) as [m e]. cbn [fst snd] in *.
  destruct (Z.ltb_spec (2 ^ 31 - 1) (e + 64 + - k)); [lia|].
  f_equal. 
Qed.

Lemma round_mag_small neg M e :
  0 < M -> -400 <= e <= 0 -> M < 2 ^ 400 ->
  round_mag neg M e = finite_of_ratio neg M (2 ^ (- e)).
Proof.
  intros HM He Hup. unfold round_mag.
  replace e with (- - e) at 1 by lia.
  rewrite round_scaled_small by lia.
  rewrite Z.mul_1_r. reflexivity.
Qed.

(** *** Error bounds on an integer scale *)

Lemma ulp_pos e : -256 <= e -> 0 < ulp e.
Proof. intros. unfold ulp. apply Z.pow_pos_nonneg; lia. Qed.

Lemma ulp_succ e : -256 <= e -> ulp (e + 1) = 2 * ulp e.
Proof.
  intros. unfold ulp.
  replace (e + 1 + 256) with (Z.succ (e + 256)) by lia.
  rewrite Z.pow_succ_r by lia. reflexivity.
Qed.

Lemma ulp_unscale e : -256 <= e <= 0 -> 2 ^ (- e) * ulp e = 2 ^ 256.
Proof.
  intros. unfold ulp. rewrite <- Z.pow_add_r by lia. f_equal. lia.
Qed.

Lemma ulp_shift e k : -256 <= e -> 0 <= k -> ulp (e + k) = 2 ^ k * ulp e.
Proof.
  intros. unfold ulp. rewrite <- Z.pow_add_r by lia. f_equal. lia.
Qed.

(** The float nearest to [n / d], when [2^-j <= n / d < 2^50]: its
    exponent is between [-63 - j] and -13, and it is within half a
    unit of [n / d]. *)
Lemma round_ratio_spec j n d m e :
  0 <= j <= 190 ->
  0 < n -> 0 < d -> n < 2 ^ 50 * d -> d <= 2 ^ j * n ->
  round_ratio n d = (m, e) ->
  -63 - j <= e <= -13 /\ 0 <= m
  /\ - (d * ulp e) <= 2 * (scaled m e * d - n * 2 ^ 256) <= d * ulp e.
Proof.
  intros Hj Hn Hd Hup Hlo Hr. unfold round_ratio in Hr.
  pose proof (exponent_upper 50 n d ltac:(lia) Hn Hd Hup) as He1.
  pose proof (exponent_lower j n d ltac:(lia) Hn Hd Hlo) as He2.
  set (e0 := exponent n d) in *.
  assert (round_at n d e0 = rne (n * 2 ^ (- e0)) d) as Hm.
  { unfold round_at, scale. destruct (Z.leb_spec 0 e0); [lia | reflexivity]. }
  rewrite Hm in Hr.
  assert (0 < 2 ^ (- e0)) as HQ by (apply Z.pow_pos_nonneg; lia).
  destruct (rne_bounds (n * 2 ^ (- e0)) d ltac:(nia) Hd) as [Hm0 Hb].
  pose proof (ulp_pos e0 ltac:(lia)) as HU.
  pose proof (ulp_unscale e0 ltac:(lia)) as HQU.
  pose proof (ulp_succ e0 ltac:(lia)) as HS.
  unfold scaled.
  set (m0 := rne (n * 2 ^ (- e0)) d) in *.
  set (Q := 2 ^ (- e0)) in *. set (U := ulp e0) in *.
  assert (- (d * U) <= 2 * (m0 * U * d - n * 2 ^ 256) <= d * U) as Hgoal.
  { rewrite <- HQU.
    replace (2 * (m0 * U * d - n * (Q * U))) with (U * (2 * (m0 * d - n * Q))) by ring.
    split; nia. }
  destruct (Z.eqb_spec m0 (2 ^ 64)) as [Hc | Hc]; inversion Hr; subst m e.
  - split; [lia|]. split; [lia|]. rewrite HS.
    replace (2 ^ 63 * (2 * U)) with (m0 * U) by (rewrite Hc; ring).
    nia.
  - split; [lia|]. split; [lia|]. exact Hgoal.
Qed.

(** ** Floats that stand for amounts of money *)

(** The two constants of the scale as numerals, for [lia]. *)
Ltac scale_numerals :=
  let a := eval vm_compute in (2 ^ 256) in
  let b := eval vm_compute in (2 ^ 243) in
  change (2 ^ 256) with a in *; change (2 ^ 243) with b in *.

Lemma ulp_small e : -256 <= e <= -13 -> ulp e <= 2 ^ 243.
Proof.
  intros. unfold ulp. apply Z.pow_le_mono_r; lia.
Qed.

Lemma finite_of_ratio_near j n d k :
  0 <= j <= 190 ->
  0 < n -> 0 < d -> n < 2 ^ 50 * d -> d <= 2 ^ j * n ->
  100 * n = k * d ->
  near (-63 - j) 1 (finite_of_ratio false n d) k.
Proof.
  intros Hj Hn Hd Hup Hlo Hk. unfold finite_of_ratio.
  destruct (round_ratio n d) as [m e] eqn:Hr.
  destruct (round_ratio_spec j n d m e Hj Hn Hd Hup Hlo Hr) as (He & Hm & Hb).
  exists m, e. split; [reflexivity|]. split; [exact He|]. split; [exact Hm|].
  pose proof (ulp_small e ltac:(lia)) as HU.
  pose proof (ulp_pos e ltac:(lia)) as HU0.
  set (u := scaled m e) in *. set (U := ulp e) in *.
  assert (2 * (u * d - n * 2 ^ 256) * 100 = d * (200 * u - 2 * k * 2 ^ 256)) as Heq.
  { replace (2 * (u * d - n * 2 ^ 256) * 100)
      with (200 * u * d - 2 * 2 ^ 256 * (100 * n)) by ring.
    rewrite Hk. ring. }
  split; nia.
Qed.

Lemma money_float_near k :
  0 < k < 10 ^ 17 -> near (-70) 1 (money_float k) k.
Proof.
  intros Hk. unfold money_float.
  destruct (Z.eqb_spec k 0); [lia|].
  apply (finite_of_ratio_near 7); lia.
Qed.

(** Formatting a float that is near [k] hundredths prints [k]. *)
Lemma Text_f2_near lo j x k :
  -253 <= lo -> j <= 40 -> near lo j x k -> Text_f2 x = fixed2 k.
Proof.
  intros Hlo Hj (m & e & -> & He & Hm & Hb).
  change (Text_f2 (Finite false m e)) with (fixed2 (hundredths m e)).
  f_equal. unfold hundredths.
  destruct (Z.leb_spec 0 e); [lia|].
  assert (0 < 2 ^ (- e)) as HQ by (apply Z.pow_pos_nonneg; lia).
  destruct (rne_bounds (100 * m) (2 ^ (- e)) ltac:(lia) HQ) as [HK0 HK].
  pose proof (ulp_pos e ltac:(lia)) as HU.
  pose proof (ulp_unscale e ltac:(lia)) as HQU.
  unfold scaled in Hb.
  set (K := rne (100 * m) (2 ^ (- e))) in *.
  set (Q := 2 ^ (- e)) in *. set (U := ulp e) in *.
  assert (- 2 ^ 256 <= 2 * (K * 2 ^ 256 - 100 * (m * U)) <= 2 ^ 256) as HKT.
  { rewrite <- HQU.
    replace (2 * (K * (Q * U) - 100 * (m * U))) with (U * (2 * (K * Q - 100 * m))) by ring.
    split; nia. }
  scale_numerals. lia.
Qed.

(** *** Comparison, subtraction and addition of such floats *)

Arguments align : simpl never.
Arguments round_mag : simpl never.

Lemma align_scaled m1 e1 m2 e2 A B e :
  -253 <= e1 <= -13 -> -253 <= e2 <= -13 ->
  align m1 e1 m2 e2 = (A, B, e) ->
  e = Z.min e1 e2
  /\ A * ulp e = scaled m1 e1 /\ B * ulp e = scaled m2 e2.
Proof.
  intros H1 H2 Ha. unfold align in Ha. inversion Ha; subst; clear Ha.
  split; [reflexivity|]. unfold scaled.
  set (e := Z.min e1 e2).
  replace (ulp e1) with (ulp (e + (e1 - e))) by (f_equal; lia).
  replace (ulp e2) with (ulp (e + (e2 - e))) by (f_equal; lia).
  rewrite !ulp_shift by lia. split; ring.
Qed.

Lemma Cmp_same neg m e : Cmp (Finite neg m e) (Finite neg m e) = 0.
Proof.
  unfold Cmp, ord, ucmp, align. destruct neg; simpl; rewrite Z.compare_refl; reflexivity.
Qed.

Lemma Sub_same m e :
  Sub (Finite false m e) (Finite false m e) = Some (Zero false).
Proof.
  unfold Sub, add_signed, ucmp, usub, align. simpl.
  rewrite Z.compare_refl. simpl. rewrite Z.sub_diag. reflexivity.
Qed.

Lemma Sub_near x y a c :
  near (-70) 1 x a -> near (-70) 1 y c -> 0 < c < a -> a < 10 ^ 17 ->
  Cmp x y = 1
  /\ exists r, Sub x y = Some r /\ near (-253) 3 r (a - c).
Proof.
  intros (m1 & e1 & -> & He1 & Hm1 & Hb1) (m2 & e2 & -> & He2 & Hm2 & Hb2) Hc Ha.
  unfold Cmp, Sub, add_signed, ucmp, usub, ord.
  destruct (align m1 e1 m2 e2) as [[A B] e] eqn:Hal.
  destruct (align m2 e2 m1 e1) as [[B' A'] e'] eqn:Hal'. simpl.
  destruct (align_scaled m1 e1 m2 e2 A B e) as (He & HA & HB);
    [lia | lia | exact Hal |].
  assert (-70 <= e <= -13) as Her by lia.
  pose proof (ulp_pos e ltac:(lia)) as HU.
  pose proof (ulp_small e1 ltac:(lia)) as HU1.
  pose proof (ulp_small e2 ltac:(lia)) as HU2.
  pose proof (ulp_unscale e ltac:(lia)) as HQU.
  rewrite <- HA in Hb1. rewrite <- HB in Hb2.
  assert (0 < (A - B) * ulp e) as Hpos.
  { rewrite Z.mul_sub_distr_r. scale_numerals. lia. }
  assert (B < A) as HAB by nia.
  destruct (Z.compare_spec A B) as [? | ? | _]; try lia. simpl.
  split; [reflexivity|].
  destruct (Z.eqb_spec (A - B) 0); [lia|].
  assert (0 < A - B < 2 ^ 400) as HM.
  { assert ((A - B) * ulp e < 2 ^ 50 * 2 ^ 256) as HM0
      by (rewrite Z.mul_sub_distr_r; scale_numerals; lia).
    assert (2 ^ 50 * 2 ^ 256 < 2 ^ 400) as HM1 by (vm_compute; reflexivity).
    split; [lia | nia]. }
  rewrite round_mag_small by lia.
  assert (0 < 2 ^ (- e)) as HQ by (apply Z.pow_pos_nonneg; lia).
  unfold finite_of_ratio.
  destruct (round_ratio (A - B) (2 ^ (- e))) as [m3 e3] eqn:Hr.
  assert (2 ^ (- e) <= 2 ^ 70) as HQ70 by (apply Z.pow_le_mono_r; lia).
  assert ((A - B) * ulp e < 2 ^ 50 * 2 ^ 256) as Hlt.
  { rewrite Z.mul_sub_distr_r. scale_numerals. lia. }
  destruct (round_ratio_spec 70 (A - B) (2 ^ (- e)) m3 e3) as (He3 & Hm3 & Hb3);
    [lia | lia | exact HQ | | nia | exact Hr | ].
  { rewrite <- HQU in Hlt. nia. }
  eexists. split; [reflexivity|].
  exists m3, e3. split; [reflexivity|]. split; [lia|]. split; [exact Hm3|].
  pose proof (ulp_small e3 ltac:(lia)) as HU3.
  pose proof (ulp_pos e3 ltac:(lia)) as HU30.
  set (u3 := scaled m3 e3) in *. set (Q := 2 ^ (- e)) in *.
  set (U := ulp e) in *. set (U3 := ulp e3) in *.
  assert (- U3 <= 2 * (u3 - (A - B) * U) <= U3) as Hd.
  { assert (2 * (u3 * Q - (A - B) * 2 ^ 256) = Q * (2 * (u3 - (A - B) * U))) as Heq
      by (rewrite <- HQU; ring).
    rewrite Heq in Hb3. split; nia. }
  rewrite Z.mul_sub_distr_r in Hd.
  scale_numerals. lia.
Qed.

Lemma Add_near x y b c :
  near (-70) 1 x b -> near (-70) 1 y c -> 0 < b -> 0 < c -> b + c < 10 ^ 17 ->
  exists r, Add x y = Some r /\ near (-253) 3 r (b + c).
Proof.
  intros (m1 & e1 & -> & He1 & Hm1 & Hb1) (m2 & e2 & -> & He2 & Hm2 & Hb2) Hb Hc Hs.
  unfold Add, add_signed, uadd.
  destruct (align m1 e1 m2 e2) as [[A B] e] eqn:Hal. simpl.
  destruct (align_scaled m1 e1 m2 e2 A B e) as (He & HA & HB);
    [lia | lia | exact Hal |].
  assert (-70 <= e <= -13) as Her by lia.
  pose proof (ulp_pos e ltac:(lia)) as HU.
  pose proof (ulp_small e1 ltac:(lia)) as HU1.
  pose proof (ulp_small e2 ltac:(lia)) as HU2.
  pose proof (ulp_unscale e ltac:(lia)) as HQU.
  rewrite <- HA in Hb1. rewrite <- HB in Hb2.
  assert (0 < A * ulp e /\ 0 < B * ulp e) as [HpA HpB]
    by (scale_numerals; lia).
  assert (0 < A /\ 0 < B) as [HA0 HB0] by nia.
  assert (0 < A + B < 2 ^ 400) as HM.
  { assert ((A + B) * ulp e < 2 ^ 50 * 2 ^ 256) as HM0
      by (rewrite Z.mul_add_distr_r; scale_numerals; lia).
    assert (2 ^ 50 * 2 ^ 256 < 2 ^ 400) as HM1 by (vm_compute; reflexivity).
    split; [lia | nia]. }
  rewrite round_mag_small by lia.
  assert (0 < 2 ^ (- e)) as HQ by (apply Z.pow_pos_nonneg; lia).
  unfold finite_of_ratio.
  destruct (round_ratio (A + B) (2 ^ (- e))) as [m3 e3] eqn:Hr.
  assert (2 ^ (- e) <= 2 ^ 70) as HQ70 by (apply Z.pow_le_mono_r; lia).
  assert ((A + B) * ulp e < 2 ^ 50 * 2 ^ 256) as Hlt.
  { rewrite Z.mul_add_distr_r. scale_numerals. lia. }
  destruct (round_ratio_spec 70 (A + B) (2 ^ (- e)) m3 e3) as (He3 & Hm3 & Hb3);
    [lia | lia | exact HQ | | nia | exact Hr | ].
  { rewrite <- HQU in Hlt. nia. }
  eexists. split; [reflexivity|].
  exists m3, e3. split; [reflexivity|]. split; [lia|]. split; [exact Hm3|].
  pose proof (ulp_small e3 ltac:(lia)) as HU3.
  pose proof (ulp_pos e3 ltac:(lia)) as HU30.
  set (u3 := scaled m3 e3) in *. set (Q := 2 ^ (- e)) in *.
  set (U := ulp e) in *. set (U3 := ulp e3) in *.
  assert (- U3 <= 2 * (u3 - (A + B) * U) <= U3) as Hd.
  { assert (2 * (u3 * Q - (A + B) * 2 ^ 256) = Q * (2 * (u3 - (A + B) * U))) as Heq
      by (rewrite <- HQU; ring).
    rewrite Heq in Hb3. split; nia. }
  rewrite Z.mul_add_distr_r in Hd.
  scale_numerals. lia.
Qed.

(** The debit: the source holds [a] hundredths, the amount is [c]. *)
Lemma debit_arithmetic a c :
  0 < c <= a -> a < 10 ^ 17 ->
  (Cmp (money_float a) (money_float c) <? 0) = false
  /\ exists r, Sub (money_float a) (money_float c) = Some r
               /\ Text_f2 r = fixed2 (a - c).
Proof.
  intros Hc Ha.
  pose proof (money_float_near a ltac:(lia)) as Hna.
  pose proof (money_float_near c ltac:(lia)) as Hnc.
  destruct (Z.eq_dec a c) as [-> | Hne].
  - destruct Hnc as (m & e & -> & _). rewrite Cmp_same, Sub_same.
    split; [reflexivity|]. eexists. split; [reflexivity|].
    rewrite Z.sub_diag. reflexivity.
  - destruct (Sub_near _ _ a c Hna Hnc ltac:(lia) Ha) as (-> & r & Hs & Hr).
    split; [reflexivity|]. exists r. split; [exact Hs|].
    apply (Text_f2_near (-253) 3); [lia | lia | exact Hr].
Qed.

(** The credit: the destination holds [b] hundredths. *)
Lemma credit_arithmetic b c :
  0 <= b -> 0 < c -> b + c < 10 ^ 17 ->
  exists r, Add (money_float b) (money_float c) = Some r
            /\ Text_f2 r = fixed2 (b + c).
Proof.
  intros Hb Hc Hs.
  pose proof (money_float_near c ltac:(lia)) as Hnc.
  destruct (Z.eq_dec b 0) as [-> | Hne].
  - exists (money_float c). split.
    + destruct Hnc as (m & e & -> & _). reflexivity.
    + apply (Text_f2_near (-70) 1); [lia | lia | exact Hnc].
  - pose proof (money_float_near b ltac:(lia)) as Hnb.
    destruct (Add_near _ _ b c Hnb Hnc ltac:(lia) Hc Hs) as (r & Ha & Hr).
    exists r. split; [exact Ha|].
    apply (Text_f2_near (-253) 3); [lia | lia | exact Hr].
Qed.

(** ** Literals of money *)

Lemma digit_val_range c d : digit_val c = Some d -> 0 <= d <= 9.
Proof.
  unfold digit_val. intros H.
  destruct (Z.leb_spec 48 (Z.of_N (N_of_ascii c))); simpl in H; [|discriminate].
  destruct (Z.leb_spec (Z.of_N (N_of_ascii c)) 57); simpl in H; [|discriminate].
  inversion H. lia.
Qed.

Lemma scan_mantissa_inv s : forall acc count dp acc' count' dp',
  scan_mantissa s acc count dp = Some (acc', count', dp') ->
  0 <= acc -> 0 <= count ->
  (forall p, dp = Some p -> 0 <= p <= count) ->
  0 <= acc' /\ count <= count'
  /\ (forall p, dp' = Some p -> 0 <= p <= count').
Proof.
  induction s as [|c s IH]; intros acc count dp acc' count' dp' H Hacc Hcount Hdp;
    simpl in H.
  - inversion H; subst. auto with zarith.
  - destruct (Ascii.eqb c "."%char).
    + destruct dp as [p|]; [discriminate|].
      apply IH in H; try lia.
      * destruct H as (? & ? & ?). auto with zarith.
      * intros p Hp. inversion Hp. lia.
    + destruct (digit_val c) as [d|] eqn:Hd; [|discriminate].
      apply digit_val_range in Hd.
      apply IH in H; try lia.
      * destruct H as (? & ? & ?). split; [lia|]. split; [lia|]. assumption.
      * intros p Hp. specialize (Hdp p Hp). lia.
Qed.

(** A plain decimal literal is scanned by the loop of [nat.scan] as
    it is by [scan_mantissa]. *)
Lemma digit_val_of c d :
  digit_val c = Some d ->
  digit_of c = d /\ Ascii.eqb c "."%char = false /\ Ascii.eqb c "_"%char = false.
Proof.
  intros H. pose proof (digit_val_range c d H) as Hr.
  unfold digit_val in H. unfold digit_of, byte.
  destruct ((48 <=? Z.of_N (N_of_ascii c)) && (Z.of_N (N_of_ascii c) <=? 57)) eqn:Hb;
    [|discriminate].
  inversion H; subst d. split; [reflexivity|].
  apply andb_true_iff in Hb as [H1 H2]. apply Z.leb_le in H1, H2.
  split.
  - destruct (Ascii.eqb_spec c "."%char) as [-> | _]; [|reflexivity].
    vm_compute in H1. exfalso. apply H1. reflexivity.
  - destruct (Ascii.eqb_spec c "_"%char) as [-> | _]; [|reflexivity].
    vm_compute in H2. exfalso. apply H2. reflexivity.
Qed.

Lemma scan_digits_plain s : forall acc count dp p acc' count' dp',
  scan_mantissa s acc count dp = Some (acc', count', dp') ->
  is_sep p = false ->
  exists p',
    scan_digits 10 s acc count dp p false
    = ({| mant := acc'; BigFloat.count := count'; point := dp'; prev := p';
          invalSep := false |}, "")
    /\ is_sep p' = false.
Proof.
  induction s as [|c s IH]; intros acc count dp p acc' count' dp' H Hp;
    cbn [scan_mantissa scan_digits] in *.
  - inversion H; subst. exists p. split; [reflexivity | exact Hp].
  - destruct (Ascii.eqb_spec c "."%char) as [-> | Hdot].
    + destruct dp as [q|]; [discriminate|]. cbn [fracOk andb].
      rewrite Hp. apply (IH _ _ _ SeenOther) in H; [exact H | reflexivity].
    + cbn [andb].
      destruct (digit_val c) as [d|] eqn:Hd; [|discriminate].
      destruct (digit_val_of c d Hd) as (Hof & _ & Hsep).
      rewrite Hsep, Hof.
      pose proof (digit_val_range c d Hd) as Hr.
      destruct (Z.leb_spec 10 d); [lia|].
      apply (IH _ _ _ SeenDigit) in H; [exact H | reflexivity].
Qed.

Lemma nat_scan_plain body acc count dp :
  scan_mantissa body 0 0 None = Some (acc, count, dp) ->
  count <> 0 ->
  nat_scan body
  = (Some (acc, 10, match dp with Some p => p - count | None => count end), "").
Proof.
  intros H Hc. unfold nat_scan.
  assert (forall r p,
            r = {| mant := acc; BigFloat.count := count; point := dp; prev := p;
                   invalSep := false |} ->
            is_sep p = false ->
            (if invalSep r || is_sep (prev r) then (None, "")
             else if BigFloat.count r =? 0 then (None, "")
             else (Some (mant r, 10,
                         match point r with
                         | Some q => q - BigFloat.count r
                         | None => BigFloat.count r
                         end), ""))
            = (Some (acc, 10, match dp with Some q => q - count | None => count end),
               "")) as Hfin.
  { intros r p -> Hp. cbn [invalSep prev mant BigFloat.count point orb].
    rewrite Hp. destruct (Z.eqb_spec count 0); [contradiction | reflexivity]. }
  destruct body as [|c0 rest]; [cbn in H; inversion H; subst; contradiction|].
  destruct (Ascii.eqb_spec c0 "0"%char) as [-> | Hz].
  - change (scan_mantissa (String "0" rest) 0 0 None)
      with (scan_mantissa rest 0 1 None) in H.
    destruct rest as [|c rest'].
    + destruct (scan_digits_plain _ _ _ _ SeenDigit _ _ _ H eq_refl) as (p' & -> & Hp').
      eapply Hfin; [reflexivity | exact Hp'].
    + assert (Ascii.eqb c "b"%char || Ascii.eqb c "B"%char = false
              /\ Ascii.eqb c "o"%char || Ascii.eqb c "O"%char = false
              /\ Ascii.eqb c "x"%char || Ascii.eqb c "X"%char = false)
        as (-> & -> & ->).
      { cbn [scan_mantissa] in H.
        destruct (Ascii.eqb_spec c "."%char) as [-> | _];
          [repeat split; reflexivity|].
        destruct (digit_val c) as [d|] eqn:Hd; [|discriminate].
        pose proof (digit_val_range c d Hd) as Hr. unfold digit_val in Hd.
        repeat split;
          repeat match goal with
          | |- context [Ascii.eqb c ?l] =>
              destruct (Ascii.eqb_spec c l) as [Hl | _];
              [rewrite Hl in Hd; vm_compute in Hd; discriminate|]
          end; reflexivity. }
      destruct (scan_digits_plain _ _ _ _ SeenDigit _ _ _ H eq_refl) as (p' & -> & Hp').
      eapply Hfin; [reflexivity | exact Hp'].
  - destruct (scan_digits_plain _ _ _ _ SeenOther _ _ _ H eq_refl) as (p' & -> & Hp').
    eapply Hfin; [reflexivity | exact Hp'].
Qed.

Lemma money_nonneg s k : money s = Some k -> 0 <= k.
Proof.
  unfold money. intros H.
  destruct (scanSign s) as [[|] body]; [discriminate|].
  destruct (scan_mantissa body 0 0 None) as [[[acc count] dp]|] eqn:Hs;
    [|discriminate].
  destruct (scan_mantissa_inv _ _ _ _ _ _ _ Hs) as (Hacc & Hcount & Hdp);
    [lia | lia | discriminate |].
  destruct (Z.eqb_spec count 0) as [|Hc0]; [discriminate|]. simpl in H.
  set (frac := match dp with Some p => count - p | None => 0 end) in *.
  assert (0 <= frac) as Hf0.
  { subst frac. destruct dp as [p|]; [specialize (Hdp p eq_refl)|]; lia. }
  destruct (Z.ltb_spec 2 frac) as [|Hf2]; [discriminate|].
  inversion H; subst k.
  assert (0 < 10 ^ (2 - frac)) by (apply Z.pow_pos_nonneg; lia). nia.
Qed.

(** The value of plain digits, with either sign: no exponent, at most
    two fractional digits. *)
Lemma scan_value_plain neg acc count dp :
  0 <= acc -> 0 <= count ->
  (forall p, dp = Some p -> 0 <= p <= count) ->
  match dp with Some p => count - p | None => 0 end <= 2 ->
  acc * 10 ^ (2 - match dp with Some p => count - p | None => 0 end) < 10 ^ 17 ->
  scan_value neg acc 10 (match dp with Some p => p - count | None => count end)
    0 10
  = Some (if acc =? 0 then Zero neg
          else finite_of_ratio neg
                 (acc * 10 ^ (2 - match dp with
                                   | Some p => count - p
                                   | None => 0
                                   end)) 100).
Proof.
  intros Hacc Hcount Hdp.
  set (frac := match dp with Some p => count - p | None => 0 end).
  intros Hf2 Hk.
  assert (0 <= frac) as Hf0.
  { subst frac. destruct dp as [p|]; [specialize (Hdp p eq_refl)|]; lia. }
  assert (0 < 10 ^ (2 - frac)) as Ht by (apply Z.pow_pos_nonneg; lia).
  unfold scan_value.
  destruct (Z.eqb_spec acc 0) as [-> | Hne]; [reflexivity|].
  set (fcount := match dp with Some p => p - count | None => count end).
  assert ((if fcount <? 0 then fcount else 0) = - frac) as ->.
  { subst fcount frac. destruct dp as [p|].
    - specialize (Hdp p eq_refl). destruct (Z.ltb_spec (p - count) 0); lia.
    - destruct (Z.ltb_spec count 0); lia. }
  change (10 =? 10) with true. change (10 =? 8) with false.
  change (10 =? 16) with false. cbv iota.
  replace (- frac + 0) with (- frac) by lia.
  replace (bitLen acc + - frac + 0 - bitLen acc) with (- frac) by lia.
  assert (acc < 2 ^ 57) as Hacc57.
  { assert (10 ^ 17 < 2 ^ 57) by (vm_compute; reflexivity). nia. }
  assert (0 <= Z.log2 acc < 57) as Hlog.
  { split; [apply Z.log2_nonneg | apply Z.log2_lt_pow2; lia]. }
  unfold bitLen, MinExp, MaxExp.
  destruct (Z.leb_spec (- 2 ^ 31) (Z.log2 acc + 1 + - frac + 0)); [|lia].
  destruct (Z.leb_spec (Z.log2 acc + 1 + - frac + 0) (2 ^ 31 - 1)); [|lia].
  cbn [andb]. f_equal.
  assert (finite_of_ratio neg (acc * 10 ^ (2 - frac)) 100
          = finite_of_ratio neg acc (10 ^ frac)) as ->.
  { unfold finite_of_ratio.
    replace 100 with (10 ^ (2 - frac) * 10 ^ frac).
    - rewrite (Z.mul_comm acc).
      rewrite round_ratio_scale; [reflexivity | lia | lia |].
      apply Z.pow_pos_nonneg; lia.
    - rewrite <- Z.pow_add_r by lia. replace (2 - frac + frac) with 2 by lia.
      reflexivity. }
  assert (10 ^ frac = 2 ^ frac * 5 ^ frac) as ->
    by (rewrite <- Z.pow_mul_l; reflexivity).
  assert (0 < 5 ^ frac <= 25) as H5.
  { assert (frac = 0 \/ frac = 1 \/ frac = 2) as [-> | [-> | ->]] by lia;
      vm_compute; split; congruence. }
  destruct (Z.eqb_spec (- frac) 0) as [Hz | Hnz].
  - assert (frac = 0) as -> by lia.
    change (- 0) with (- (0)).
    rewrite (round_scaled_small neg acc 1 0); [reflexivity | lia | lia | lia | |];
      [assert (0 < 2 ^ 400) by (apply Z.pow_pos_nonneg; lia); nia
      | assert (0 < 2 ^ 400) by (apply Z.pow_pos_nonneg; lia); nia].
  - destruct (Z.ltb_spec (- frac) 0); [|lia].
    replace (- - frac) with frac by lia.
    unfold pow5. destruct (Z.leb_spec frac 27); [|lia].
    replace (- frac - 0) with (- frac) by lia.
    assert (2 ^ 57 < 2 ^ 400) by (apply Z.pow_lt_mono_r; lia).
    assert (1 < 2 ^ 400) by (apply (Z.pow_gt_1 2 400); lia).
    rewrite round_scaled_small; [reflexivity | lia | lia | lia | nia | nia].
Qed.

(** A literal of [k] hundredths parses to [money_float k]. *)
Lemma SetString_money s k :
  money s = Some k -> k < 10 ^ 17 -> SetString s = Some (money_float k) /\ 0 <= k.
Proof.
  intros H Hk. split; [|eapply money_nonneg; exact H].
  unfold SetString, Parse.
  repeat match goal with
  | |- context [String.eqb s ?lit] =>
      destruct (String.eqb_spec s lit) as [Heq | _];
      [rewrite Heq in H; vm_compute in H; discriminate|]
  end.
  simpl. unfold money in H. unfold scan.
  destruct (scanSign s) as [[|] body]; [discriminate|].
  destruct (scan_mantissa body 0 0 None) as [[[acc count] dp]|] eqn:Hs;
    [|discriminate].
  destruct (scan_mantissa_inv _ _ _ _ _ _ _ Hs) as (Hacc & Hcount & Hdp);
    [lia | lia | discriminate |].
  destruct (Z.eqb_spec count 0) as [|Hc0]; [discriminate|]. simpl in H.
  rewrite (nat_scan_plain body acc count dp Hs Hc0).
  cbn [scanExponent].
  destruct (Z.ltb_spec 2 (match dp with Some p => count - p | None => 0 end))
    as [|Hf2]; [discriminate|].
  inversion H; subst k; clear H.
  rewrite scan_value_plain by (assumption || lia).
  unfold money_float.
  destruct (Z.eqb_spec acc 0) as [-> | Hne]; [reflexivity|].
  assert (0 < 10 ^ (2 - match dp with Some p => count - p | None => 0 end))
    as Ht.
  { apply Z.pow_pos_nonneg; [lia|].
    destruct dp as [p|]; [specialize (Hdp p eq_refl)|]; lia. }
  destruct (Z.eqb_spec (acc * 10 ^ (2 - match dp with
                                       | Some p => count - p
                                       | None => 0
                                       end)) 0) as [|_]; [nia|].
  reflexivity.
Qed.

(** A literal of [k] hundredths after a minus sign parses to a
    negative float, for [0 < k]. *)
Lemma SetString_minus_money body k :
  scanSign body = (false, body) -> money body = Some k -> 0 < k < 10 ^ 17 ->
  SetString (String "-" body) = Some (finite_of_ratio true k 100).
Proof.
  intros Hsign H Hk. unfold money in H. rewrite Hsign in H.
  destruct (scan_mantissa body 0 0 None) as [[[acc count] dp]|] eqn:Hs;
    [|discriminate].
  unfold SetString, Parse.
  repeat match goal with
  | |- context [String.eqb (String "-" body) ?lit] =>
      destruct (String.eqb_spec (String "-" body) lit) as [Heq | _];
      [try discriminate Heq; inversion Heq as [Hb]; rewrite Hb in Hs;
       vm_compute in Hs; discriminate|]
  end.
  simpl. unfold scan. cbn [scanSign Ascii.eqb Bool.eqb].
  destruct (scan_mantissa_inv _ _ _ _ _ _ _ Hs) as (Hacc & Hcount & Hdp);
    [lia | lia | discriminate |].
  destruct (Z.eqb_spec count 0) as [|Hc0]; [discriminate|]. simpl in H.
  rewrite (nat_scan_plain body acc count dp Hs Hc0).
  cbn [scanExponent].
  destruct (Z.ltb_spec 2 (match dp with Some p => count - p | None => 0 end))
    as [|Hf2]; [discriminate|].
  inversion H; subst k; clear H.
  rewrite scan_value_plain by (assumption || lia).
  destruct (Z.eqb_spec acc 0) as [-> | Hne]; [lia | reflexivity].
Qed.

(** *** White space *)

Lemma trimLeft_solid c s :
  solid c -> Strings.trimLeft (String c s) = String c s.
Proof.
  intros [Hs Hc]. simpl. rewrite Hs.
  destruct s as [|c2 [|c3 s]]; try reflexivity.
  - unfold Strings.space2.
    destruct (Z.eqb_spec (Strings.code c) 194); [lia | reflexivity].
  - unfold Strings.space2, Strings.space3.
    destruct (Z.eqb_spec (Strings.code c) 194); [lia|].
    destruct (Z.eqb_spec (Strings.code c) 225); [lia|].
    destruct (Z.eqb_spec (Strings.code c) 226); [lia|].
    destruct (Z.eqb_spec (Strings.code c) 227); [lia|].
    reflexivity.
Qed.

Lemma trimLeftRev_solid c s :
  solid c -> Strings.trimLeftRev (String c s) = String c s.
Proof.
  intros [Hs Hc]. simpl. rewrite Hs.
  destruct s as [|c2 [|c3 s]]; try reflexivity.
  - unfold Strings.space2.
    destruct (Z.eqb_spec (Strings.code c) 133); [lia|].
    destruct (Z.eqb_spec (Strings.code c) 160); [lia|].
    rewrite andb_false_r. reflexivity.
  - unfold Strings.space2, Strings.space3.
    destruct (Z.eqb_spec (Strings.code c) 133); [lia|].
    destruct (Z.eqb_spec (Strings.code c) 160); [lia|].
    destruct (Z.eqb_spec (Strings.code c) 128); [lia|].
    destruct (Z.eqb_spec (Strings.code c) 159); [lia|].
    destruct (Z.eqb_spec (Strings.code c) 168); [lia|].
    destruct (Z.eqb_spec (Strings.code c) 169); [lia|].
    destruct (Z.eqb_spec (Strings.code c) 175); [lia|].
    destruct (Z.leb_spec 128 (Strings.code c)); [lia|].
    rewrite !andb_false_r. reflexivity.
Qed.

Lemma rev_rev s : Strings.rev (Strings.rev s) = s.
Proof.
  unfold Strings.rev.
  rewrite list_ascii_of_string_of_list_ascii, rev_involutive.
  apply string_of_list_ascii_of_string.
Qed.

Lemma TrimSpace_solid s :
  Forall solid (list_ascii_of_string s) -> Strings.TrimSpace s = s.
Proof.
  intros Hall. unfold Strings.TrimSpace, Strings.trimRight.
  assert (Strings.trimLeft s = s) as ->.
  { destruct s as [|c s]; [reflexivity|].
    apply trimLeft_solid. simpl in Hall. inversion Hall; assumption. }
  assert (Strings.trimLeftRev (Strings.rev s) = Strings.rev s) as ->.
  { assert (Forall solid (list_ascii_of_string (Strings.rev s))) as Hrev.
    { unfold Strings.rev. rewrite list_ascii_of_string_of_list_ascii.
      apply Forall_rev. exact Hall. }
    destruct (Strings.rev s) as [|c t]; [reflexivity|].
    apply trimLeftRev_solid. simpl in Hrev. inversion Hrev; assumption. }
  apply rev_rev.
Qed.

Lemma digit_solid c d : digit_val c = Some d -> solid c.
Proof.
  unfold digit_val, solid, Strings.asciiSpace, Strings.code. intros H.
  destruct (Z.leb_spec 48 (Z.of_N (N_of_ascii c))); simpl in H; [|discriminate].
  destruct (Z.leb_spec (Z.of_N (N_of_ascii c)) 57); simpl in H; [|discriminate].
  split; [|lia].
  destruct (Z.leb_spec (Z.of_N (N_of_ascii c)) 13); [lia|].
  destruct (Z.eqb_spec (Z.of_N (N_of_ascii c)) 32); [lia|].
  rewrite andb_false_r. reflexivity.
Qed.

Lemma scan_mantissa_solid s : forall acc count dp r,
  scan_mantissa s acc count dp = Some r ->
  Forall solid (list_ascii_of_string s).
Proof.
  induction s as [|c s IH]; intros acc count dp r H; simpl in *.
  - constructor.
  - destruct (Ascii.eqb_spec c "."%char) as [-> | _].
    + destruct dp; [discriminate|]. constructor; [|eauto].
      split; [reflexivity | vm_compute; reflexivity].
    + destruct (digit_val c) as [d|] eqn:Hd; [|discriminate].
      constructor; [eapply digit_solid; eassumption | eauto].
Qed.

(** A literal of money is left alone by [TrimSpace] and is not empty. *)
Lemma money_TrimSpace s k :
  money s = Some k -> Strings.TrimSpace s = s /\ s <> "".
Proof.
  intros H. split.
  - apply TrimSpace_solid. unfold money in H.
    destruct s as [|c s]; [constructor|].
    unfold scanSign in H.
    destruct (Ascii.eqb_spec c "-"%char); [discriminate|].
    destruct (Ascii.eqb_spec c "+"%char) as [-> | _].
    + destruct (scan_mantissa s 0 0 None) eqn:Hs; [|discriminate].
      simpl. constructor; [|eapply scan_mantissa_solid; eassumption].
      split; [reflexivity | vm_compute; reflexivity].
    + destruct (scan_mantissa (String c s) 0 0 None) eqn:Hs; [|discriminate].
      eapply scan_mantissa_solid; eassumption.
  - intros ->. vm_compute in H. discriminate.
Qed.

(** *** The bytes of a literal

    Every byte that the scanner consumes is a byte of a literal, so
    that a string that parses holds no other byte, and no white
    space in particular. *)

Lemma literal_solid c : literal_byte c = true -> solid c.
Proof.
  destruct c as [[] [] [] [] [] [] [] []]; vm_compute; intros H;
    try discriminate H; split; reflexivity.
Qed.

Lemma digit_literal c b : digit_of c < b -> b <= 63 -> literal_byte c = true.
Proof.
  intros H Hb. unfold literal_byte.
  destruct (Z.ltb_spec (digit_of c) 63); [reflexivity | lia].
Qed.

Lemma literal_prefix_refl s : literal_prefix_of s s.
Proof. exists []. split; [reflexivity | constructor]. Qed.

Lemma literal_prefix_cons c s rest :
  literal_byte c = true -> literal_prefix_of s rest ->
  literal_prefix_of (String c s) rest.
Proof.
  intros Hc (pre & Hs & Hp). exists (c :: pre). split.
  - cbn. rewrite Hs. reflexivity.
  - constructor; assumption.
Qed.

Lemma scan_digits_bytes b s : forall acc count dp p i r rest,
  b <= 63 ->
  scan_digits b s acc count dp p i = (r, rest) -> literal_prefix_of s rest.
Proof.
  induction s as [|c s IH]; intros acc count dp p i r rest Hb H;
    cbn [scan_digits] in H.
  - inversion H; subst. apply literal_prefix_refl.
  - destruct (Ascii.eqb_spec c "."%char) as [-> | _]; cbn [andb] in H.
    + destruct (fracOk dp).
      * apply literal_prefix_cons; [reflexivity | eapply IH; eassumption].
      * destruct (Ascii.eqb_spec "."%char "_"%char) as [E | _];
          [discriminate E|].
        destruct (Z.leb_spec b (digit_of "."%char)).
        -- inversion H; subst. apply literal_prefix_refl.
        -- apply literal_prefix_cons; [reflexivity | eapply IH; eassumption].
    + destruct (Ascii.eqb_spec c "_"%char) as [-> | _].
      * apply literal_prefix_cons; [reflexivity | eapply IH; eassumption].
      * destruct (Z.leb_spec b (digit_of c)).
        -- inversion H; subst. apply literal_prefix_refl.
        -- apply literal_prefix_cons; [eapply digit_literal; eassumption|].
           eapply IH; eassumption.
Qed.

Lemma scan_exp_digits_bytes s : forall val has p i r rest,
  scan_exp_digits s val has p i = (r, rest) -> literal_prefix_of s rest.
Proof.
  induction s as [|c s IH]; intros val has p i r rest H;
    cbn [scan_exp_digits] in H.
  - inversion H; subst. apply literal_prefix_refl.
  - destruct (digit_val c) as [d|] eqn:Hd.
    + apply literal_prefix_cons; [|eapply IH; eassumption].
      destruct (digit_val_of c d Hd) as (Hof & _).
      pose proof (digit_val_range c d Hd).
      apply (digit_literal c 10); lia.
    + destruct (Ascii.eqb_spec c "_"%char) as [-> | _].
      * apply literal_prefix_cons; [reflexivity | eapply IH; eassumption].
      * inversion H; subst. apply literal_prefix_refl.
Qed.

Lemma literal_prefix_trans s t u :
  literal_prefix_of s t -> literal_prefix_of t u -> literal_prefix_of s u.
Proof.
  intros (p1 & H1 & F1) (p2 & H2 & F2). exists (p1 ++ p2)%list. split.
  - rewrite H1, H2, app_assoc. reflexivity.
  - apply Forall_app. split; assumption.
Qed.

Lemma nat_scan_bytes s r rest :
  nat_scan s = (r, rest) -> literal_prefix_of s rest.
Proof.
  unfold nat_scan. intros H.
  assert (forall b body c0 p,
            b <= 63 ->
            (let '(r0, rest0) := scan_digits b body 0 c0 None p false in
             if invalSep r0 || is_sep (prev r0) then (None, rest0)
             else if count r0 =? 0 then (None, rest0)
             else (Some (mant r0, b,
                         match point r0 with
                         | Some dp => dp - count r0
                         | None => count r0
                         end), rest0)) = (r, rest) ->
            literal_prefix_of body rest) as Hbody.
  { intros b body c0 p Hb Hd.
    destruct (scan_digits b body 0 c0 None p false) as [r0 rest0] eqn:Hs.
    apply scan_digits_bytes in Hs; [|exact Hb].
    destruct (invalSep r0 || is_sep (prev r0));
      [|destruct (count r0 =? 0)]; inversion Hd; subst; exact Hs. }
  destruct s as [|c0 s]; [apply (Hbody 10 _ 0 SeenOther); [lia | exact H]|].
  destruct (Ascii.eqb_spec c0 "0"%char) as [-> | _];
    [|apply (Hbody 10 _ 0 SeenOther); [lia | exact H]].
  destruct s as [|c s].
  - apply literal_prefix_cons; [reflexivity|].
    apply (Hbody 10 _ 1 SeenDigit); [lia | exact H].
  - destruct (Ascii.eqb_spec c "b"%char) as [-> | _];
      [apply literal_prefix_cons; [reflexivity|];
       apply literal_prefix_cons; [reflexivity|];
       apply (Hbody 2 _ 0 SeenDigit); [lia | exact H]|].
    destruct (Ascii.eqb_spec c "B"%char) as [-> | _];
      [apply literal_prefix_cons; [reflexivity|];
       apply literal_prefix_cons; [reflexivity|];
       apply (Hbody 2 _ 0 SeenDigit); [lia | exact H]|].
    destruct (Ascii.eqb_spec c "o"%char) as [-> | _];
      [apply literal_prefix_cons; [reflexivity|];
       apply literal_prefix_cons; [reflexivity|];
       apply (Hbody 8 _ 0 SeenDigit); [lia | exact H]|].
    destruct (Ascii.eqb_spec c "O"%char) as [-> | _];
      [apply literal_prefix_cons; [reflexivity|];
       apply literal_prefix_cons; [reflexivity|];
       apply (Hbody 8 _ 0 SeenDigit); [lia | exact H]|].
    destruct (Ascii.eqb_spec c "x"%char) as [-> | _];
      [apply literal_prefix_cons; [reflexivity|];
       apply literal_prefix_cons; [reflexivity|];
       apply (Hbody 16 _ 0 SeenDigit); [lia | exact H]|].
    destruct (Ascii.eqb_spec c "X"%char) as [-> | _];
      [apply literal_prefix_cons; [reflexivity|];
       apply literal_prefix_cons; [reflexivity|];
       apply (Hbody 16 _ 0 SeenDigit); [lia | exact H]|].
    apply literal_prefix_cons; [reflexivity|].
    apply (Hbody 10 _ 1 SeenDigit); [lia | exact H].
Qed.

Lemma scanExponent_bytes s r rest :
  scanExponent s = (r, rest) -> literal_prefix_of s rest.
Proof.
  unfold scanExponent. intros H.
  destruct s as [|ch s]; [inversion H; subst; apply literal_prefix_refl|].
  assert (forall ebase : Z,
            literal_byte ch = true ->
            (let '(neg, digits) :=
               match s with
               | String c r0 =>
                   if Ascii.eqb c "-"%char then (true, r0)
                   else if Ascii.eqb c "+"%char then (false, r0)
                   else (false, s)
               | EmptyString => (false, s)
               end in
             let '((val, hasDigits, prev, invalSep), rest') :=
               scan_exp_digits digits 0 false SeenOther false in
             let exp := if neg then - val else val in
             if negb hasDigits then (None, rest')
             else if (exp <? - 2 ^ 63) || (2 ^ 63 - 1 <? exp) then (None, rest')
             else if invalSep || is_sep prev then (None, rest')
             else (Some (exp, ebase), rest')) = (r, rest) ->
            literal_prefix_of (String ch s) rest) as Hexp.
  { intros ebase Hch Hd. apply literal_prefix_cons; [exact Hch|].
    assert (forall (neg : bool) digits,
              literal_prefix_of s digits ->
              (let '((val, hasDigits, prev, invalSep), rest') :=
                 scan_exp_digits digits 0 false SeenOther false in
               let exp := if neg then - val else val in
               if negb hasDigits then (None, rest')
               else if (exp <? - 2 ^ 63) || (2 ^ 63 - 1 <? exp) then (None, rest')
               else if invalSep || is_sep prev then (None, rest')
               else (Some (exp, ebase), rest')) = (r, rest) ->
              literal_prefix_of s rest) as Hdig.
    { intros neg digits Hpre Hx.
      destruct (scan_exp_digits digits 0 false SeenOther false)
        as [[[[val has] p] i] rest'] eqn:Hs.
      apply scan_exp_digits_bytes in Hs.
      cbv zeta in Hx.
      destruct (negb has);
        [|destruct ((_ <? _) || (_ <? _)); [|destruct (i || is_sep p)]];
        inversion Hx; subst; eapply literal_prefix_trans; eassumption. }
    destruct s as [|c r0];
      [apply (Hdig false ""%string); [apply literal_prefix_refl | exact Hd]|].
    destruct (Ascii.eqb_spec c "-"%char) as [-> | _].
    { apply (Hdig true r0); [|exact Hd].
      apply literal_prefix_cons; [reflexivity | apply literal_prefix_refl]. }
    destruct (Ascii.eqb_spec c "+"%char) as [-> | _].
    { apply (Hdig false r0); [|exact Hd].
      apply literal_prefix_cons; [reflexivity | apply literal_prefix_refl]. }
    apply (Hdig false (String c r0)); [apply literal_prefix_refl | exact Hd]. }
  destruct (Ascii.eqb_spec ch "e"%char) as [-> | _];
    [apply (Hexp 10); [reflexivity | exact H]|].
  destruct (Ascii.eqb_spec ch "E"%char) as [-> | _];
    [apply (Hexp 10); [reflexivity | exact H]|].
  destruct (Ascii.eqb_spec ch "p"%char) as [-> | _];
    [apply (Hexp 2); [reflexivity | exact H]|].
  destruct (Ascii.eqb_spec ch "P"%char) as [-> | _];
    [apply (Hexp 2); [reflexivity | exact H]|].
  cbn in H. inversion H; subst. apply literal_prefix_refl.
Qed.

Lemma scan_bytes s r rest : scan s = (r, rest) -> literal_prefix_of s rest.
Proof.
  unfold scan. intros H.
  assert (forall neg body,
            literal_prefix_of s body ->
            match nat_scan body with
            | (None, rest0) => (None, rest0)
            | (Some (mant, b, fcount), rest0) =>
                match scanExponent rest0 with
                | (None, rest') => (None, rest')
                | (Some (exp, ebase), rest') =>
                    (scan_value neg mant b fcount exp ebase, rest')
                end
            end = (r, rest) ->
            literal_prefix_of s rest) as Hbody.
  { intros neg body Hpre Hx.
    destruct (nat_scan body) as [[[[mant b] fcount]|] rest0] eqn:Hn;
      apply nat_scan_bytes in Hn.
    - destruct (scanExponent rest0) as [[[exp ebase]|] rest'] eqn:He;
        apply scanExponent_bytes in He; inversion Hx; subst;
        eapply literal_prefix_trans; [exact Hpre | | exact Hpre |];
        eapply literal_prefix_trans; eassumption.
    - inversion Hx; subst. eapply literal_prefix_trans; eassumption. }
  unfold scanSign in H.
  destruct s as [|c s];
    [apply (Hbody false ""%string); [apply literal_prefix_refl | exact H]|].
  destruct (Ascii.eqb_spec c "-"%char) as [-> | _].
  { apply (Hbody true s); [|exact H].
    apply literal_prefix_cons; [reflexivity | apply literal_prefix_refl]. }
  destruct (Ascii.eqb_spec c "+"%char) as [-> | _].
  { apply (Hbody false s); [|exact H].
    apply literal_prefix_cons; [reflexivity | apply literal_prefix_refl]. }
  apply (Hbody false (String c s)); [apply literal_prefix_refl | exact H].
Qed.

(** A string that parses is made of bytes of a literal. *)
Lemma SetString_literal s v :
  SetString s = Some v ->
  Forall (fun c => literal_byte c = true) (list_ascii_of_string s).
Proof.
  unfold SetString, Parse.
  repeat match goal with
  | |- context [String.eqb s ?lit] =>
      destruct (String.eqb_spec s lit) as [-> | _];
      [intros _; repeat constructor|]
  end.
  cbn [orb]. destruct (scan s) as [[x|] rest] eqn:Hs; [|discriminate].
  destruct rest; [|discriminate]. intros _.
  apply scan_bytes in Hs as (pre & Hl & Hp).
  rewrite Hl. cbn. rewrite app_nil_r. exact Hp.
Qed.

Lemma SetString_solid s v :
  SetString s = Some v -> Forall solid (list_ascii_of_string s).
Proof.
  intros H. apply SetString_literal in H.
  eapply Forall_impl; [exact H|]. intros c Hc. apply literal_solid. exact Hc.
Qed.

Lemma SetString_TrimSpace s v : SetString s = Some v -> Strings.TrimSpace s = s.
Proof. intros H. apply TrimSpace_solid. eapply SetString_solid. exact H. Qed.

Lemma Sign_money_float k : (Sign (money_float k) <? 0) = false.
Proof.
  unfold money_float, finite_of_ratio.
  destruct (k =? 0); [reflexivity|].
  destruct (round_ratio k 100). reflexivity.
Qed.

Lemma validateAmount_money s k :
  money s = Some k -> k < 10 ^ 17 -> AccountService.validateAmount s = None.
Proof.
  intros H Hk. unfold AccountService.validateAmount.
  destruct (money_TrimSpace s k H) as [-> Hne].
  destruct (String.eqb_spec s ""); [contradiction|].
  destruct (SetString_money s k H Hk) as [-> _].
  rewrite Sign_money_float. reflexivity.
Qed.

(** *** The amounts that the validation refuses

    [validateAmount] refuses the malformed amounts with
    [ErrInvalidAmount], the negative ones with [ErrNegativeAmount],
    and no other. *)

Lemma SetString_empty : SetString "" = None.
Proof. reflexivity. Qed.


Lemma validateAmount_accepts amount :
  AccountService.validateAmount amount = None
  <-> exists value,
        SetString (Strings.TrimSpace amount) = Some value /\ 0 <= Sign value.
Proof.
  unfold AccountService.validateAmount.
  destruct (String.eqb_spec (Strings.TrimSpace amount) "") as [-> | Hne].
  - rewrite SetString_empty. split; [discriminate|].
    intros (v & H & _). discriminate H.
  - destruct (SetString (Strings.TrimSpace amount)) as [v|].
    + destruct (Z.ltb_spec (Sign v) 0) as [Hs | Hs]; split.
      * discriminate.
      * intros (v' & H & Hs'). inversion H; subst v'. lia.
      * intros _. exists v. split; [reflexivity | exact Hs].
      * reflexivity.
    + split; [discriminate|]. intros (v & H & _). discriminate H.
Qed.

(** An amount that is blank is malformed, and so is one that holds,
    between its white space, a byte that no literal has. *)
Lemma malformed_blank amount : Strings.TrimSpace amount = "" -> malformed amount.
Proof. unfold malformed. intros ->. reflexivity. Qed.

Lemma malformed_byte amount c :
  In c (list_ascii_of_string (Strings.TrimSpace amount)) ->
  literal_byte c = false -> malformed amount.
Proof.
  unfold malformed. intros Hin Hc.
  destruct (SetString (Strings.TrimSpace amount)) as [v|] eqn:H; [|reflexivity].
  apply SetString_literal in H. rewrite List.Forall_forall in H.
  specialize (H c Hin). congruence.
Qed.

(** A literal of [k] hundredths after a minus sign is negative, for
    [0 < k]. *)
Lemma negative_money body k :
  scanSign body = (false, body) -> money body = Some k -> 0 < k < 10 ^ 17 ->
  negative (String "-" body).
Proof.
  intros Hsign H Hk. unfold negative.
  pose proof (SetString_minus_money body k Hsign H Hk) as Hv.
  rewrite (SetString_TrimSpace _ _ Hv). eexists. split; [exact Hv|].
  unfold finite_of_ratio. destruct (round_ratio k 100). cbn. lia.
Qed.

(** A literal of money is neither. *)
Lemma money_accepted s k :
  money s = Some k -> k < 10 ^ 17 -> ~ malformed s /\ ~ negative s.
Proof.
  intros H Hk. destruct (money_TrimSpace s k H) as [Ht _].
  destruct (SetString_money s k H Hk) as [Hv _].
  unfold malformed, negative. rewrite Ht, Hv. split; [discriminate|].
  intros (v & [= <-] & Hs). pose proof (Sign_money_float k) as Hn.
  destruct (Z.ltb_spec (Sign (money_float k)) 0); [discriminate | lia].
Qed.

(** Some amounts of each kind.  An exponent, a base prefix and digit
    separators are part of the syntax of numbers. *)
Example malformed_amounts :
  malformed "" /\ malformed "   " /\ malformed "abc" /\ malformed "12.3.4"
  /\ malformed "1e" /\ malformed "1,000" /\ malformed "$5" /\ malformed "NaN"
  /\ malformed "1 000" /\ malformed "--1" /\ malformed "1__0" /\ malformed "0x".
Proof. vm_compute. repeat split; reflexivity. Qed.

Example numeric_amounts :
  AccountService.validateAmount "1e2" = None
  /\ AccountService.validateAmount "0x10" = None
  /\ AccountService.validateAmount "1_000" = None
  /\ AccountService.validateAmount " 12.50 " = None
  /\ AccountService.validateAmount "+Inf" = None
  /\ AccountService.validateAmount "-0" = None
  /\ AccountService.validateAmount "-0.01"
     = Some AccountService.ErrNegativeAmount
  /\ AccountService.validateAmount "-1e2"
     = Some AccountService.ErrNegativeAmount
  /\ AccountService.validateAmount "-Inf"
     = Some AccountService.ErrNegativeAmount.
Proof. vm_compute. repeat split; reflexivity. Qed.

(** ** The steps of the account service *)

Section AccountSteps.
Import AccountService.

Lemma GetByID_found id balance w :
  fst (next_fault (db_faults w)) = false ->
  accounts w !! id = Some balance ->
  GetByID id w =
    (Ret (Some {| ID := id; Balance := balance |}, None),
     set_db_faults w (snd (next_fault (db_faults w)))).
Proof.
  intros Hf Hl. unfold GetByID.
  destruct (next_fault (db_faults w)) as [fails rest]. simpl in *. subst fails.
  rewrite Hl. reflexivity.
Qed.

Lemma Update_found account balance w :
  fst (next_fault (db_faults w)) = false ->
  accounts w !! ID account = Some balance ->
  Update account w =
    (Ret None,
     set_accounts (set_db_faults w (snd (next_fault (db_faults w))))
       (<[ID account := Balance account]> (accounts w))).
Proof.
  intros Hf Hl. unfold Update.
  destruct (next_fault (db_faults w)) as [fails rest]. simpl in *. subst fails.
  rewrite Hl. reflexivity.
Qed.

Lemma Publish_accounts key event w :
  accounts (snd (Publish key event w)) = accounts w
  /\ db_faults (snd (Publish key event w)) = db_faults w
  /\ exists r, fst (Publish key event w) = Ret r.
Proof.
  unfold Publish. destruct (next_fault (bus_faults w)) as [[|] rest]; simpl; eauto.
Qed.

Lemma Publish_ok key event w :
  calls_ok 1 (bus_faults w) ->
  outbox (snd (Publish key event w)) = (outbox w ++ [(key, event)])%list.
Proof.
  intros [Hf _]. unfold Publish.
  destruct (next_fault (bus_faults w)) as [fails rest]. simpl in *. subst fails.
  reflexivity.
Qed.

Lemma publishCompleted_spec event w :
  exists w',
    publishCompleted event w = (Ret tt, w')
    /\ accounts w' = accounts w /\ db_faults w' = db_faults w
    /\ (calls_ok 1 (bus_faults w) ->
        outbox w' = (outbox w ++ [(EventTransactionCompleted, completedEvent event)])%list).
Proof.
  unfold publishCompleted, PublishTransactionCompleted, bind, ret.
  pose proof (Publish_accounts EventTransactionCompleted (completedEvent event) w)
    as (Ha & Hd & r & Hr).
  pose proof (Publish_ok EventTransactionCompleted (completedEvent event) w) as Ho.
  destruct (Publish EventTransactionCompleted (completedEvent event) w) as [o w'].
  simpl in *. subst o. eauto.
Qed.

Lemma publishFailed_spec event status w :
  exists w',
    publishFailed event status w = (Ret tt, w')
    /\ accounts w' = accounts w /\ db_faults w' = db_faults w
    /\ (calls_ok 1 (bus_faults w) ->
        outbox w' = (outbox w ++ [(EventTransactionFailed, failedEvent event status)])%list).
Proof.
  unfold publishFailed, PublishTransactionFailed, bind, ret.
  pose proof (Publish_accounts EventTransactionFailed (failedEvent event status) w)
    as (Ha & Hd & r & Hr).
  pose proof (Publish_ok EventTransactionFailed (failedEvent event status) w) as Ho.
  destruct (Publish EventTransactionFailed (failedEvent event status) w) as [o w'].
  simpl in *. subst o. eauto.
Qed.

End AccountSteps.

Section Transfer.
Import AccountService.

Local Opaque SetString Cmp Sub Add Text_f2 fixed2 validateAmount.

(** The arithmetic and the two writes, for accounts that were loaded
    with balances of [a] and [b] hundredths. *)
Lemma transfer_completes event src dst sb db a b c w :
  accounts w !! src = Some sb ->
  accounts w !! dst = Some db ->
  money sb = Some a -> money db = Some b -> money (Amount event) = Some c ->
  0 < c <= a -> a < 10 ^ 17 -> b + c < 10 ^ 17 ->
  calls_ok 2 (db_faults w) ->
  exists w',
    transfer event {| ID := src; Balance := sb |} {| ID := dst; Balance := db |} w
      = (Ret None, w')
    /\ accounts w' =
         <[dst := fixed2 (b + c)]> (<[src := fixed2 (a - c)]> (accounts w))
    /\ (calls_ok 1 (bus_faults w) ->
        outbox w' = (outbox w ++ [(EventTransactionCompleted, completedEvent event)])%list).
Proof.
  intros Hs Hd Ha Hb Hc Hca Har Hbr (Hf1 & Hf2 & _).
  pose proof (money_nonneg _ _ Hb) as Hb0.
  destruct (SetString_money _ _ Ha ltac:(lia)) as [Hpa _].
  destruct (SetString_money _ _ Hb ltac:(lia)) as [Hpb _].
  destruct (SetString_money _ _ Hc ltac:(lia)) as [Hpc _].
  destruct (debit_arithmetic a c Hca Har) as (Hcmp & x & Hsub & Hx).
  destruct (credit_arithmetic b c Hb0 ltac:(lia) Hbr) as (z & Hadd & Hz).
  unfold transfer. cbn [Balance ID].
  rewrite Hpa, Hpc, Hpb, Hcmp, Hsub, Hadd, Hx, Hz.
  unfold bind.
  rewrite (Update_found {| ID := src; Balance := fixed2 (a - c) |} sb w Hf1 Hs).
  cbn [ID Balance].
  set (w1 := set_accounts _ _).
  assert (accounts w1 !! dst = Some (if decide (src = dst) then fixed2 (a - c) else db))
    as Hd1.
  { subst w1. cbn [accounts set_accounts]. rewrite lookup_insert.
    destruct (decide (src = dst)); [reflexivity | exact Hd]. }
  rewrite (Update_found {| ID := dst; Balance := fixed2 (b + c) |} _ w1 Hf2 Hd1).
  cbn [ID Balance].
  set (w2 := set_accounts _ _).
  destruct (publishCompleted_spec event w2) as (w3 & Hp & Hacc & _ & Hout).
  rewrite Hp. unfold ret. exists w3. split; [reflexivity|].
  split; [rewrite Hacc; reflexivity | exact Hout].
Qed.

End Transfer.

(** *** The handler on a transfer that completes *)

Section Completed.
Import AccountService.

Local Opaque SetString Cmp Sub Add Text_f2 fixed2 validateAmount transfer.

Lemma submitted_completes event sb db a b c w :
  accounts w !! SourceAccountID event = Some sb ->
  accounts w !! DestinationAccountID event = Some db ->
  money sb = Some a -> money db = Some b -> money (Amount event) = Some c ->
  0 < c <= a -> a < 10 ^ 17 -> b + c < 10 ^ 17 ->
  calls_ok 4 (db_faults w) ->
  exists w',
    HandleTransactionSubmitted event w = (Ret None, w')
    /\ accounts w' =
         <[DestinationAccountID event := fixed2 (b + c)]>
           (<[SourceAccountID event := fixed2 (a - c)]> (accounts w))
    /\ (calls_ok 1 (bus_faults w) ->
        outbox w' = (outbox w ++ [(EventTransactionCompleted, completedEvent event)])%list).
Proof.
  intros Hs Hd Ha Hb Hc Hca Har Hbr (Hf1 & Hf2 & Hf34).
  unfold HandleTransactionSubmitted, bind.
  rewrite (GetByID_found _ sb w Hf1 Hs).
  set (w1 := set_db_faults w _).
  rewrite (GetByID_found _ db w1 Hf2 Hd).
  set (w2 := set_db_faults w1 _).
  rewrite (validateAmount_money _ _ Hc) by lia.
  destruct (transfer_completes event (SourceAccountID event)
              (DestinationAccountID event) sb db a b c w2)
    as (w' & Ht & Hacc & Hout); try assumption.
  exists w'. split; [exact Ht|]. split; [exact Hacc | exact Hout].
Qed.

End Completed.

(** ** What [Text('f', 2)] prints is read back as the same amount *)

Lemma digit_char_val d :
  0 <= d <= 9 ->
  digit_val (digit_char d) = Some d
  /\ Ascii.eqb (digit_char d) "."%char = false
  /\ Ascii.eqb (digit_char d) "-"%char = false
  /\ Ascii.eqb (digit_char d) "+"%char = false.
Proof.
  intros H.
  assert (d = 0 \/ d = 1 \/ d = 2 \/ d = 3 \/ d = 4 \/ d = 5 \/ d = 6 \/ d = 7
          \/ d = 8 \/ d = 9) as Hd by lia.
  repeat (destruct Hd as [-> | Hd]); try subst d; repeat split; reflexivity.
Qed.

Lemma scan_digit d rest acc count dp :
  0 <= d <= 9 ->
  scan_mantissa (String (digit_char d) rest) acc count dp
  = scan_mantissa rest (acc * 10 + d) (count + 1) dp.
Proof.
  intros H. destruct (digit_char_val d H) as (Hv & Hp & _).
  simpl. rewrite Hp, Hv. reflexivity.
Qed.

Lemma scan_point rest acc count :
  scan_mantissa (String "." rest) acc count None
  = scan_mantissa rest acc count (Some count).
Proof. reflexivity. Qed.

Lemma scan_digits_fuel fuel : forall n rest,
  0 <= n < 10 ^ (Z.of_nat fuel + 1) ->
  exists L, 0 < L /\ forall acc count dp,
    scan_mantissa (digits_fuel fuel n rest) acc count dp
    = scan_mantissa rest (acc * 10 ^ L + n) (count + L) dp.
Proof.
  induction fuel as [|fuel IH]; intros n rest Hn.
  - exists 1. split; [lia|]. intros acc count dp. cbn [digits_fuel].
    change (10 ^ (Z.of_nat 0 + 1)) with 10 in Hn.
    rewrite Z.mod_small by lia.
    rewrite scan_digit by lia. rewrite Z.pow_1_r. reflexivity.
  - cbn [digits_fuel]. destruct (Z.ltb_spec n 10) as [Hlt | Hge].
    + exists 1. split; [lia|]. intros acc count dp.
      rewrite Z.mod_small by lia.
      rewrite scan_digit by lia. rewrite Z.pow_1_r. reflexivity.
    + assert (0 <= n / 10 < 10 ^ (Z.of_nat fuel + 1)) as Hq.
      { split; [apply Z.div_pos; lia|].
        apply Z.div_lt_upper_bound; [lia|].
        replace (Z.of_nat (Datatypes.S fuel) + 1) with (Z.succ (Z.of_nat fuel + 1)) in Hn by lia.
        rewrite Z.pow_succ_r in Hn by lia. lia. }
      destruct (IH (n / 10) (String (digit_char (n mod 10)) rest) Hq)
        as (L & HL & Hscan).
      exists (L + 1). split; [lia|]. intros acc count dp.
      rewrite Hscan.
      pose proof (Z.mod_pos_bound n 10 ltac:(lia)) as Hm.
      rewrite scan_digit by lia.
      rewrite Z.pow_add_r, Z.pow_1_r by lia.
      f_equal; [|lia].
      pose proof (Z.div_mod n 10 ltac:(lia)). lia.
Qed.

Lemma digits_head fuel : forall n rest,
  exists d tail, 0 <= d <= 9 /\ digits_fuel fuel n rest = String (digit_char d) tail.
Proof.
  induction fuel as [|fuel IH]; intros n rest; cbn [digits_fuel].
  - pose proof (Z.mod_pos_bound n 10 ltac:(lia)).
    exists (n mod 10), rest. split; [lia | reflexivity].
  - destruct (n <? 10).
    + pose proof (Z.mod_pos_bound n 10 ltac:(lia)).
      exists (n mod 10), rest. split; [lia | reflexivity].
    + apply IH.
Qed.

Lemma digits_fuel_enough n :
  0 <= n -> n < 10 ^ (Z.of_nat (Z.to_nat (Z.log2 n)) + 1).
Proof.
  intros Hn. rewrite Z2Nat.id by apply Z.log2_nonneg.
  destruct (Z.eq_dec n 0) as [-> | Hne]; [reflexivity|].
  pose proof (Z.log2_spec n ltac:(lia)) as [_ Hup].
  pose proof (Z.log2_nonneg n).
  eapply Z.lt_le_trans; [exact Hup|].
  replace (Z.succ (Z.log2 n)) with (Z.log2 n + 1) by lia.
  apply Z.pow_le_mono_l. lia.
Qed.

Lemma money_fixed2 k : 0 <= k -> money (fixed2 k) = Some k.
Proof.
  intros Hk. unfold fixed2, digits.
  set (tail := String "." _).
  pose proof (Z.div_pos k 100 Hk ltac:(lia)) as Hq.
  destruct (digits_head (Z.to_nat (Z.log2 (k / 100))) (k / 100) tail)
    as (d & rest & Hd & Hhead).
  destruct (scan_digits_fuel (Z.to_nat (Z.log2 (k / 100))) (k / 100) tail)
    as (L & HL & Hscan).
  { split; [exact Hq | apply digits_fuel_enough; exact Hq]. }
  unfold money.
  assert (scanSign (digits_fuel (Z.to_nat (Z.log2 (k / 100))) (k / 100) tail)
          = (false, digits_fuel (Z.to_nat (Z.log2 (k / 100))) (k / 100) tail)) as ->.
  { rewrite Hhead. unfold scanSign.
    destruct (digit_char_val d Hd) as (_ & _ & -> & ->). reflexivity. }
  rewrite Hscan. subst tail.
  pose proof (Z.mod_pos_bound k 100 ltac:(lia)) as Hm100.
  pose proof (Z.mod_pos_bound k 10 ltac:(lia)) as Hm10.
  assert (0 <= k mod 100 / 10 <= 9) as Hd1.
  { split; [apply Z.div_pos; lia|].
    assert (k mod 100 / 10 < 10) by (apply Z.div_lt_upper_bound; lia). lia. }
  rewrite scan_point, !scan_digit by lia. cbn [scan_mantissa].
  destruct (Z.eqb_spec (0 + L + 1 + 1) 0) as [|_]; [lia|].
  destruct (Z.ltb_spec 2 (0 + L + 1 + 1 - (0 + L))) as [|_]; [lia|].
  simpl orb. cbv iota. f_equal.
  replace (2 - (0 + L + 1 + 1 - (0 + L))) with 0 by lia.
  rewrite Z.pow_0_r.
  pose proof (Z.div_mod k 100 ltac:(lia)) as H100.
  pose proof (Z.div_mod (k mod 100) 10 ltac:(lia)) as H10.
  assert (k mod 100 mod 10 = k mod 10) as Hmm.
  { symmetry. apply (Z.mod_unique _ _ (k / 10 - 10 * (k / 100))); [lia|].
    pose proof (Z.div_mod k 10 ltac:(lia)). lia. }
  rewrite Hmm in H10. lia.
Qed.

(** ** C1 and C10: what a completed transfer writes *)

Section CompletedTransfers.
Import AccountService.

(** C1 (amended).  For every "submitted" event between two distinct
    existing accounts whose balances and amount are plain decimals
    with at most two fractional digits, with a positive amount not
    above the source balance, all below 10^15, and with no failing
    database call: the handler returns success, the persisted source
    balance is the prior one minus the amount and the persisted
    destination balance is the prior one plus the amount, exactly
    (in hundredths), and no other account changes. *)
Theorem C1_completed_transfer_moves_the_amount event sb db a b c w :
  SourceAccountID event <> DestinationAccountID event ->
  accounts w !! SourceAccountID event = Some sb ->
  accounts w !! DestinationAccountID event = Some db ->
  money sb = Some a -> money db = Some b -> money (Amount event) = Some c ->
  0 < c <= a -> a < 10 ^ 17 -> b + c < 10 ^ 17 ->
  calls_ok 4 (db_faults w) ->
  exists w',
    HandleTransactionSubmitted event w = (Ret None, w')
    /\ accounts w' !! SourceAccountID event = Some (fixed2 (a - c))
    /\ money (fixed2 (a - c)) = Some (a - c)
    /\ accounts w' !! DestinationAccountID event = Some (fixed2 (b + c))
    /\ money (fixed2 (b + c)) = Some (b + c)
    /\ (forall id, id <> SourceAccountID event ->
                   id <> DestinationAccountID event ->
                   accounts w' !! id = accounts w !! id).
Proof.
  intros Hne Hs Hd Ha Hb Hc Hca Har Hbr Hok.
  pose proof (money_nonneg _ _ Hb) as Hb0.
  destruct (submitted_completes event sb db a b c w) as (w' & Hrun & Hacc & _);
    try assumption.
  exists w'. split; [exact Hrun|]. rewrite Hacc.
  split; [rewrite lookup_insert_ne, lookup_insert_eq by congruence; reflexivity|].
  split; [apply money_fixed2; lia|].
  split; [apply lookup_insert_eq|].
  split; [apply money_fixed2; lia|].
  intros id H1 H2. rewrite !lookup_insert_ne by congruence. reflexivity.
Qed.

(** Scenario A: 100.00 and 0.00, transfer of 40.00. *)
Lemma C1_scenario_A :
  exists w',
    HandleTransactionSubmitted (submitted 1 1 2 "40.00") (two_accounts "100.00" "0.00")
      = (Ret None, w')
    /\ accounts w' !! 1 = Some "60.00"
    /\ accounts w' !! 2 = Some "40.00".
Proof.
  destruct (C1_completed_transfer_moves_the_amount
              (submitted 1 1 2 "40.00") "100.00" "0.00" 10000 0 4000
              (two_accounts "100.00" "0.00"))
    as (w' & Hrun & Hs & _ & Hd & _);
    [ discriminate | reflexivity | reflexivity | reflexivity | reflexivity
    | reflexivity | lia | reflexivity | reflexivity
    | simpl; tauto | ].
  exists w'. split; [exact Hrun|]. split; [exact Hs | exact Hd].
Defined.

(** C1 as stated fails on three completed transfers.  An amount of
    0.001 is completed with both balances as they were; a transfer from
    an account to itself adds the amount to it; a source balance of
    10^20 is not reduced by a transfer of 0.01 that the destination
    receives. *)
Lemma C1_counterexample :
  (let r := HandleTransactionSubmitted (submitted 1 1 2 "0.001")
              (two_accounts "100.00" "0.00") in
   fst r = Ret None
   /\ accounts (snd r) !! 1 = Some "100.00"
   /\ accounts (snd r) !! 2 = Some "0.00"
   /\ decimal "100.00" = Some (10000 # 100)
   /\ decimal "0.001" = Some (1 # 1000)
   /\ ~ (10000 # 100 == (10000 # 100) - (1 # 1000))%Q)
  /\ (let r := HandleTransactionSubmitted (submitted 1 1 1 "40.00")
                 (two_accounts "100.00" "0.00") in
      fst r = Ret None
      /\ accounts (snd r) !! 1 = Some "140.00")
  /\ (let r := HandleTransactionSubmitted (submitted 1 1 2 "0.01")
                 (two_accounts "100000000000000000000.00" "0.00") in
      fst r = Ret None
      /\ accounts (snd r) !! 1 = Some "100000000000000000000.00"
      /\ accounts (snd r) !! 2 = Some "0.01").
Proof.
  split; [|split].
  - vm_compute. repeat split; try reflexivity. intros H; discriminate H.
  - vm_compute. split; reflexivity.
  - vm_compute. repeat split; reflexivity.
Qed.

(** C10 (amended).  The handler has no test that source and
    destination differ.  For every "submitted" event whose source and
    destination are the same existing account, with balance and amount
    plain decimals with at most two fractional digits, a positive
    amount not above the balance, all below 10^15, and no failing
    call: the account is read twice, the credit is written over the
    debit, the persisted balance is the original balance plus the
    amount, and a "completed" event is published. *)
Theorem C10_same_account_transfer_creates_money event sb a c w :
  SourceAccountID event = DestinationAccountID event ->
  accounts w !! SourceAccountID event = Some sb ->
  money sb = Some a -> money (Amount event) = Some c ->
  0 < c <= a -> a + c < 10 ^ 17 ->
  calls_ok 4 (db_faults w) -> calls_ok 1 (bus_faults w) ->
  exists w',
    HandleTransactionSubmitted event w = (Ret None, w')
    /\ accounts w' =
         <[SourceAccountID event := fixed2 (a + c)]>
           (<[SourceAccountID event := fixed2 (a - c)]> (accounts w))
    /\ accounts w' !! SourceAccountID event = Some (fixed2 (a + c))
    /\ money (fixed2 (a + c)) = Some (a + c)
    /\ outbox w' =
         (outbox w ++ [(EventTransactionCompleted, completedEvent event)])%list.
Proof.
  intros Heq Hs Ha Hc Hca Hr Hok Hbus.
  destruct (submitted_completes event sb sb a a c w) as (w' & Hrun & Hacc & Hout);
    try assumption; [rewrite <- Heq; exact Hs | lia |].
  exists w'. rewrite <- Heq in Hacc.
  split; [exact Hrun|]. split; [exact Hacc|].
  split; [rewrite Hacc; apply lookup_insert_eq|].
  split; [apply money_fixed2; lia | exact (Hout Hbus)].
Qed.

(** 100.00 sent from account 1 to account 1 with amount 40.00 leaves
    140.00. *)
Lemma C10_witness :
  exists w',
    HandleTransactionSubmitted (submitted 1 1 1 "40.00") (two_accounts "100.00" "0.00")
      = (Ret None, w')
    /\ accounts w' !! 1 = Some "140.00"
    /\ outbox w' = [(EventTransactionCompleted,
                     completedEvent (submitted 1 1 1 "40.00"))].
Proof.
  destruct (C10_same_account_transfer_creates_money
              (submitted 1 1 1 "40.00") "100.00" 10000 4000
              (two_accounts "100.00" "0.00"))
    as (w' & Hrun & _ & Hs & _ & Hout);
    [ reflexivity | reflexivity | reflexivity | reflexivity | lia | reflexivity
    | simpl; tauto | simpl; tauto | ].
  exists w'. split; [exact Hrun|]. split; [exact Hs | exact Hout].
Defined.

(** C10 as stated fails in two ways.  For an amount below one
    hundredth the transfer is completed and the balance stays 100.00,
    not 100.001; a balance of 10^20 stays as it is when 0.01 is added
    to it. *)
Lemma C10_counterexample :
  (let r := HandleTransactionSubmitted (submitted 1 1 1 "0.001")
              (two_accounts "100.00" "0.00") in
   fst r = Ret None
   /\ accounts (snd r) !! 1 = Some "100.00"
   /\ decimal "100.00" = Some (10000 # 100)
   /\ decimal "0.001" = Some (1 # 1000)
   /\ ~ (10000 # 100 == (10000 # 100) + (1 # 1000))%Q)
  /\ (let r := HandleTransactionSubmitted (submitted 1 1 1 "0.01")
                 (two_accounts "100000000000000000000.00" "0.00") in
      fst r = Ret None
      /\ accounts (snd r) !! 1 = Some "100000000000000000000.00").
Proof.
  split.
  - vm_compute. repeat split; try reflexivity. intros H; discriminate H.
  - vm_compute. split; reflexivity.
Qed.

End CompletedTransfers.

(** ** Balances after a failed attempt *)

Section FailedAttempt.
Import AccountService.

Local Opaque SetString Cmp Sub Add Text_f2 validateAmount.

Lemma GetByID_frame id w r w' :
  GetByID id w = (r, w') -> accounts w' = accounts w /\ exists v, r = Ret v.
Proof.
  unfold GetByID. intros H.
  destruct (next_fault (db_faults w)) as [[|] rest];
    [|destruct (accounts w !! id)]; inversion H; subst; eauto.
Qed.

Lemma publishFailed_frame event status w r w' :
  publishFailed event status w = (r, w') ->
  accounts w' = accounts w /\ r = Ret tt.
Proof.
  intros H. destruct (publishFailed_spec event status w) as (w1 & Hp & Ha & _).
  rewrite Hp in H. inversion H; subst. auto.
Qed.

Lemma publishCompleted_frame event w r w' :
  publishCompleted event w = (r, w') ->
  accounts w' = accounts w /\ r = Ret tt.
Proof.
  intros H. destruct (publishCompleted_spec event w) as (w1 & Hp & Ha & _).
  rewrite Hp in H. inversion H; subst. auto.
Qed.

Lemma Update_failed account w err w' :
  Update account w = (Ret (Some err), w') -> accounts w' = accounts w.
Proof.
  unfold Update. intros H.
  destruct (next_fault (db_faults w)) as [[|] rest];
    [|destruct (accounts w !! ID account)]; inversion H; subst; reflexivity.
Qed.

Lemma transfer_failure_frame event src dst w err w' :
  transfer event src dst w = (Ret (Some err), w') ->
  ~ destination_write_failed err ->
  accounts w' = accounts w.
Proof.
  unfold transfer, bind, ret, panic. intros H Hnd.
  destruct (SetString (Balance src)) as [sourceBalance|]; [|discriminate].
  destruct (SetString (Amount event)) as [amount|]; [|discriminate].
  destruct (Cmp sourceBalance amount <? 0).
  - destruct (publishFailed event "failed: insufficient funds" w) as [r w1] eqn:Hp.
    apply publishFailed_frame in Hp as [Ha ->]. inversion H; subst. exact Ha.
  - destruct (Sub sourceBalance amount) as [sb|]; [|discriminate].
    destruct (SetString (Balance dst)) as [destBalance|]; [|discriminate].
    destruct (Add destBalance amount) as [db|]; [|discriminate].
    match type of H with context [Update ?a w] =>
      destruct (Update a w) as [[[e1|]|m] w1] eqn:Hu1 end; [| |discriminate].
    + apply Update_failed in Hu1.
      match type of H with context [publishFailed ?e ?s w1] =>
        destruct (publishFailed e s w1) as [r w2] eqn:Hp end.
      apply publishFailed_frame in Hp as [Ha ->]. inversion H; subst. congruence.
    + match type of H with context [Update ?a w1] =>
        destruct (Update a w1) as [[[e2|]|m] w2] eqn:Hu2 end; [| |discriminate].
      * match type of H with context [publishFailed ?e ?s w2] =>
          destruct (publishFailed e s w2) as [r w3] eqn:Hp end.
        apply publishFailed_frame in Hp as [Ha ->]. inversion H; subst.
        exfalso. apply Hnd. eexists; reflexivity.
      * match type of H with context [publishCompleted ?e w2] =>
          destruct (publishCompleted e w2) as [r w3] eqn:Hp end.
        apply publishCompleted_frame in Hp as [Ha ->]. inversion H.
Qed.

(** Every failure of the handler other than a failed write of the
    destination balance (a missing or unreadable account, a rejected
    amount, insufficient funds, a failed write of the source balance)
    leaves every balance as it was. *)
Lemma failure_leaves_balances event w err w' :
  HandleTransactionSubmitted event w = (Ret (Some err), w') ->
  ~ destination_write_failed err ->
  accounts w' = accounts w.
Proof.
  unfold HandleTransactionSubmitted, bind, ret. intros H Hnd.
  destruct (GetByID (SourceAccountID event) w) as [r1 w1] eqn:Hg1.
  apply GetByID_frame in Hg1 as [Ha1 [[sourceAccount e1] ->]].
  destruct e1 as [e1|].
  { destruct (publishFailed event "failed: source account not found" w1)
      as [r w2] eqn:Hp.
    apply publishFailed_frame in Hp as [Ha ->]. inversion H; subst. congruence. }
  destruct sourceAccount as [sourceAccount|].
  2:{ destruct (publishFailed event "failed: source account not found" w1)
        as [r w2] eqn:Hp.
      apply publishFailed_frame in Hp as [Ha ->]. inversion H; subst. congruence. }
  destruct (GetByID (DestinationAccountID event) w1) as [r2 w2] eqn:Hg2.
  apply GetByID_frame in Hg2 as [Ha2 [[destAccount e2] ->]].
  destruct e2 as [e2|].
  { destruct (publishFailed event "failed: destination account not found" w2)
      as [r w3] eqn:Hp.
    apply publishFailed_frame in Hp as [Ha ->]. inversion H; subst. congruence. }
  destruct destAccount as [destAccount|].
  2:{ destruct (publishFailed event "failed: destination account not found" w2)
        as [r w3] eqn:Hp.
      apply publishFailed_frame in Hp as [Ha ->]. inversion H; subst. congruence. }
  destruct (validateAmount (Amount event)) as [e3|].
  { destruct (publishFailed event "failed: invalid amount" w2) as [r w3] eqn:Hp.
    apply publishFailed_frame in Hp as [Ha ->]. inversion H; subst. congruence. }
  apply transfer_failure_frame in H; [congruence | exact Hnd].
Qed.

End FailedAttempt.

(** ** The retry envelope of the consumer *)

Section Retry.
Import Messaging.

Context {S E : Type}.
Variable handler : TransactionEvent -> M S (option E).
Variable event : TransactionEvent.

(** The states in which the handler is known to fail on [event]. *)
Variable failing : S -> Prop.
Hypothesis handler_fails :
  forall s, failing s ->
    (exists err, fst (handler event s) = Ret (Some err))
    /\ failing (snd (handler event s)).

Lemma retryCountOf_retry msg n : retryCountOf (retry_message msg n) = n.
Proof.
  unfold retryCountOf, retry_message. simpl.
  rewrite lookup_singleton_eq. reflexivity.
Qed.

Lemma deliver_failing msg c :
  Unmarshal (Body msg) = Some event ->
  retryCountOf msg < 3 ->
  failing (service c) ->
  deliver handler msg c =
    let c1 := {| service := handled handler event (service c); queue := queue c; dlq := dlq c;
                 calls := calls c ++ [event]; faults := faults c |} in
    (Ret tt,
     if 3 <=? retryCountOf msg + 1 then Nack msg c1
     else snd (Republish (retry_message msg (retryCountOf msg + 1)) c1)).
Proof.
  intros Hu Hr Hf. unfold deliver. rewrite Hu.
  destruct (Z.leb_spec 3 (retryCountOf msg)); [lia|].
  unfold invoke, handled.
  destruct (handler_fails _ Hf) as [[err Herr] _].
  destruct (handler event (service c)) as [r s']. simpl in Herr. subst r.
  cbn [snd].
  destruct (3 <=? retryCountOf msg + 1); [reflexivity|].
  unfold retry_message.
  destruct (Republish _ _) as [ok c2]. reflexivity.
Qed.

(** The last attempt: the handler fails a third time and the delivery
    is dead-lettered. *)
Lemma consume_last fuel msg s d k fs :
  Unmarshal (Body msg) = Some event ->
  retryCountOf msg = 2 ->
  failing s ->
  consume handler (Datatypes.S fuel)
    {| service := s; queue := [msg]; dlq := d; calls := k; faults := fs |}
  = (Ret tt,
     {| service := handled handler event s; queue := []; dlq := d ++ [msg];
        calls := k ++ [event]; faults := fs |}).
Proof.
  intros Hu Hr Hf. cbn [consume queue]. unfold pop.
  rewrite deliver_failing; [| exact Hu | lia | exact Hf].
  rewrite Hr. unfold Nack. cbn. destruct fuel; reflexivity.
Qed.

(** An earlier attempt whose republish succeeds: the loop goes on with
    the republished message. *)
Lemma consume_retry fuel msg s d k fs :
  Unmarshal (Body msg) = Some event ->
  retryCountOf msg < 2 ->
  failing s ->
  fst (next_fault fs) = false ->
  consume handler (Datatypes.S fuel)
    {| service := s; queue := [msg]; dlq := d; calls := k; faults := fs |}
  = consume handler fuel
      {| service := handled handler event s;
         queue := [retry_message msg (retryCountOf msg + 1)];
         dlq := d; calls := k ++ [event]; faults := snd (next_fault fs) |}.
Proof.
  intros Hu Hr Hf Hok. cbn [consume queue]. unfold pop.
  rewrite deliver_failing; [| exact Hu | lia | exact Hf].
  cbn [service queue dlq calls faults].
  destruct (Z.leb_spec 3 (retryCountOf msg + 1)); [lia|].
  unfold Republish. cbn [service queue dlq calls faults].
  destruct (next_fault fs) as [fails rest]. simpl in Hok. subst fails.
  reflexivity.
Qed.


(** A fresh message and a handler that keeps failing: three calls,
    two republishes, then the dead-letter queue. *)
Lemma consume_failing fuel msg s fs :
  Unmarshal (Body msg) = Some event ->
  retryCountOf msg = 0 ->
  failing s ->
  calls_ok 2 fs ->
  (3 <= fuel)%nat ->
  consume handler fuel
    {| service := s; queue := [msg]; dlq := []; calls := []; faults := fs |}
  = (Ret tt,
     {| service := handled handler event (handled handler event (handled handler event s)); queue := [];
        dlq := [retry_message msg 2]; calls := [event; event; event];
        faults := snd (next_fault (snd (next_fault fs))) |}).
Proof.
  intros Hu Hr Hf (Hok1 & Hok2 & _) Hfuel.
  destruct fuel as [|[|[|fuel]]]; try lia.
  rewrite consume_retry; [| exact Hu | lia | exact Hf | exact Hok1].
  rewrite Hr.
  rewrite consume_retry;
    [ | exact Hu | rewrite retryCountOf_retry; lia
      | apply handler_fails; exact Hf | exact Hok2 ].
  rewrite retryCountOf_retry.
  rewrite consume_last;
    [ reflexivity | exact Hu | apply retryCountOf_retry
    | apply handler_fails, handler_fails; exact Hf ].
Qed.

End Retry.

(** ** C4: the bound on retries *)




(** ** C6: business failures under the retry envelope *)

Section BusinessFailures.
Import AccountService.

Local Opaque SetString Cmp Sub Add Text_f2 validateAmount.

Lemma business_failure_handled event status w :
  db_faults w = [] -> bus_faults w = [] ->
  business_failure event w status ->
  exists err,
    HandleTransactionSubmitted event w = (Ret (Some err), with_failed event status w).
Proof.
  intros Hdb Hbus Hb. destruct w as [acc dbf out busf]. simpl in Hdb, Hbus. subst.
  unfold HandleTransactionSubmitted, bind, ret, GetByID, with_failed.
  destruct Hb as [Hs | sb Hs Hd | sb db x y Hs Hd Hv Hx Hy Hc]; simpl in *.
  - rewrite Hs. simpl. eexists. reflexivity.
  - rewrite Hs. simpl. rewrite Hd. simpl. eexists. reflexivity.
  - rewrite Hs. simpl. rewrite Hd. simpl. rewrite Hv.
    unfold transfer. simpl. rewrite Hx, Hy.
    destruct (Z.ltb_spec (Cmp x y) 0); [|lia].
    simpl. eexists. reflexivity.
Qed.

Lemma business_failure_stable event status w :
  business_failure event w status ->
  business_failure event (with_failed event status w) status.
Proof.
  intros Hb. destruct Hb; econstructor; eassumption.
Qed.

(** C6 (amended).  For every "submitted" event that fails for a
    business reason (a missing source or destination account, or
    insufficient funds) and with no failing call, the handler
    publishes a "failed" event, leaves the balances as they were and
    returns an error; the consumer, which retries on every error of
    the handler, republishes a fresh message twice and invokes the
    handler three times in all, each invocation publishing the failed
    event again, before it moves the message to the dead-letter
    queue. *)
Theorem C6_business_failure_is_retried_then_dead_lettered
    event status w msg fuel :
  db_faults w = [] -> bus_faults w = [] ->
  business_failure event w status ->
  Messaging.Unmarshal (Messaging.Body msg) = Some event ->
  Messaging.retryCountOf msg = 0 ->
  (3 <= fuel)%nat ->
  (exists err,
     HandleTransactionSubmitted event w = (Ret (Some err), with_failed event status w))
  /\ accounts (with_failed event status w) = accounts w
  /\ Messaging.consume HandleTransactionSubmitted fuel
       {| Messaging.service := w; Messaging.queue := [msg]; Messaging.dlq := [];
          Messaging.calls := []; Messaging.faults := [] |}
     = (Ret tt,
        {| Messaging.service :=
             with_failed event status
               (with_failed event status (with_failed event status w));
           Messaging.queue := [];
           Messaging.dlq := [retry_message msg 2];
           Messaging.calls := [event; event; event];
           Messaging.faults := [] |}).
Proof.
  intros Hdb Hbus Hb Hu Hr Hfuel.
  split; [apply business_failure_handled; assumption|].
  split; [reflexivity|].
  set (failing := fun w : World =>
         db_faults w = [] /\ bus_faults w = [] /\ business_failure event w status).
  assert (forall s, failing s ->
            (exists err, fst (HandleTransactionSubmitted event s) = Ret (Some err))
            /\ failing (snd (HandleTransactionSubmitted event s))) as Hstep.
  { intros s (H1 & H2 & H3).
    destruct (business_failure_handled event status s H1 H2 H3) as [err Hh].
    rewrite Hh. split; [eexists; reflexivity|].
    split; [exact H1|]. split; [exact H2|].
    apply business_failure_stable. exact H3. }
  assert (forall s, failing s ->
            handled HandleTransactionSubmitted event s = with_failed event status s)
    as Hhandled.
  { intros s (H1 & H2 & H3). unfold handled.
    destruct (business_failure_handled event status s H1 H2 H3) as [err Hh].
    rewrite Hh. reflexivity. }
  assert (failing w) as Hw by (split; [|split]; assumption).
  assert (failing (with_failed event status w)) as Hw1.
  { rewrite <- Hhandled by exact Hw. apply Hstep. exact Hw. }
  assert (failing (with_failed event status (with_failed event status w))) as Hw2.
  { rewrite <- (Hhandled _ Hw1). apply Hstep. exact Hw1. }
  rewrite (consume_failing HandleTransactionSubmitted event failing Hstep);
    [| exact Hu | exact Hr | exact Hw | simpl; tauto | exact Hfuel].
  rewrite (Hhandled _ Hw), (Hhandled _ Hw1), (Hhandled _ Hw2). reflexivity.
Qed.

(** Scenario E: the destination does not exist. *)
Lemma C6_witness :
  Messaging.consume HandleTransactionSubmitted 10
    {| Messaging.service := two_accounts "100.00" "0.00";
       Messaging.queue := [fresh_message (submitted 1 1 3 "40.00")];
       Messaging.dlq := []; Messaging.calls := []; Messaging.faults := [] |}
  = (Ret tt,
     {| Messaging.service :=
          with_failed (submitted 1 1 3 "40.00") "failed: destination account not found"
            (with_failed (submitted 1 1 3 "40.00") "failed: destination account not found"
               (with_failed (submitted 1 1 3 "40.00")
                  "failed: destination account not found"
                  (two_accounts "100.00" "0.00")));
        Messaging.queue := [];
        Messaging.dlq := [retry_message (fresh_message (submitted 1 1 3 "40.00")) 2];
        Messaging.calls := [submitted 1 1 3 "40.00"; submitted 1 1 3 "40.00";
                            submitted 1 1 3 "40.00"];
        Messaging.faults := [] |}).
Proof.
  apply (C6_business_failure_is_retried_then_dead_lettered
           (submitted 1 1 3 "40.00") "failed: destination account not found"
           (two_accounts "100.00" "0.00")
           (fresh_message (submitted 1 1 3 "40.00")) 10);
    [ reflexivity | reflexivity
    | apply (destination_missing _ _ "100.00"); reflexivity
    | reflexivity | reflexivity | lia ].
Defined.

(** C6 as stated fails: an event with insufficient funds (Scenario D)
    is handed to the handler three times, and the message ends in the
    dead-letter queue. *)
Lemma C6_counterexample :
  let r := Messaging.consume HandleTransactionSubmitted 10
             {| Messaging.service := two_accounts "100.00" "0.00";
                Messaging.queue := [fresh_message (submitted 1 1 2 "150.00")];
                Messaging.dlq := []; Messaging.calls := [];
                Messaging.faults := [] |} in
  fst (HandleTransactionSubmitted (submitted 1 1 2 "150.00")
         (two_accounts "100.00" "0.00"))
  = Ret (Some ErrInsufficientFunds)
  /\ fst r = Ret tt
  /\ length (Messaging.calls (snd r)) = 3%nat
  /\ length (outbox (Messaging.service (snd r))) = 3%nat
  /\ length (Messaging.dlq (snd r)) = 1%nat.
Proof.
  vm_compute. repeat split; reflexivity.
Qed.

End BusinessFailures.

(** ** C2 and C8: failed attempts *)

Section FailedAttempts.
Import AccountService.

(** Scenario D: 150.00 asked of an account that holds 100.00. *)
Lemma scenario_D_leaves_balances :
  accounts (snd (HandleTransactionSubmitted (submitted 1 1 2 "150.00")
                   (two_accounts "100.00" "0.00")))
  = accounts (two_accounts "100.00" "0.00").
Proof.
  apply (failure_leaves_balances (submitted 1 1 2 "150.00")
           (two_accounts "100.00" "0.00") ErrInsufficientFunds).
  - vm_compute. reflexivity.
  - intros [inner H]. discriminate H.
Qed.

(** C2 (the code at the failing input).  Accounts 1 and 2 hold 100.00
    and 0.00, the event moves 40.00, and the fourth call to the
    database, the write of the destination balance, fails: the handler
    returns an error and publishes a failed event, the destination
    still holds 0.00, and the source, written before, holds 60.00.
    The consumer then retries the message, and the second attempt
    debits the source again: 20.00 and 40.00 are left, with a failed
    and a completed event for the one transaction. *)
Theorem C2_failed_credit_keeps_the_debit :
  let w := set_db_faults (two_accounts "100.00" "0.00") [false; false; false; true] in
  let r := HandleTransactionSubmitted (submitted 1 1 2 "40.00") w in
  let c := Messaging.consume HandleTransactionSubmitted 10
             {| Messaging.service := w;
                Messaging.queue := [fresh_message (submitted 1 1 2 "40.00")];
                Messaging.dlq := []; Messaging.calls := [];
                Messaging.faults := [] |} in
  (fst r = Ret (Some (Wrap "failed to update destination account"
                        (Wrap "failed to update account" ErrDatabase)))
   /\ accounts w !! 1 = Some "100.00"
   /\ accounts (snd r) !! 1 = Some "60.00"
   /\ accounts (snd r) !! 2 = Some "0.00"
   /\ outbox (snd r)
      = [(EventTransactionFailed,
          failedEvent (submitted 1 1 2 "40.00")
            "failed: could not update destination account")])
  /\ (fst c = Ret tt
      /\ accounts (Messaging.service (snd c)) !! 1 = Some "20.00"
      /\ accounts (Messaging.service (snd c)) !! 2 = Some "40.00"
      /\ map (fun p => Status (snd p)) (outbox (Messaging.service (snd c)))
         = ["failed: could not update destination account"; "complete"]).
Proof.
  vm_compute. repeat split; reflexivity.
Qed.

Local Opaque validateAmount.


Local Transparent validateAmount.



(** An amount with an exponent, a base prefix or digit separators is a
    number, and is transferred: "1e2" moves 100.00, "0x10" 16.00 and
    "1_000" 1000.00. *)
Example amounts_in_other_notations_are_transferred :
  (let r := HandleTransactionSubmitted (submitted 1 1 2 "1e2")
              (two_accounts "100.00" "0.00") in
   fst r = Ret None
   /\ accounts (snd r) !! 1 = Some "0.00"
   /\ accounts (snd r) !! 2 = Some "100.00"
   /\ outbox (snd r)
      = [(EventTransactionCompleted, completedEvent (submitted 1 1 2 "1e2"))])
  /\ (let r := HandleTransactionSubmitted (submitted 1 1 2 "0x10")
                 (two_accounts "100.00" "0.00") in
      fst r = Ret None
      /\ accounts (snd r) !! 1 = Some "84.00"
      /\ accounts (snd r) !! 2 = Some "16.00")
  /\ (let r := HandleTransactionSubmitted (submitted 1 1 2 "1_000")
                 (two_accounts "2000.00" "0.00") in
      fst r = Ret None
      /\ accounts (snd r) !! 1 = Some "1000.00"
      /\ accounts (snd r) !! 2 = Some "1000.00").
Proof.
  vm_compute. repeat split; reflexivity.
Qed.

End FailedAttempts.

(** ** C3, C5 and C7: the transaction service *)

Section Reconciler.
Import TransactionService.

Lemma GetByID_row id row w :
  fst (next_fault (db_faults w)) = false ->
  transactions w !! id = Some row ->
  GetByID id w =
    (Ret (Some (with_id row id), None),
     tick (set_db_faults w (snd (next_fault (db_faults w))))).
Proof.
  intros Hf Hl. unfold GetByID.
  destruct (next_fault (db_faults w)) as [fails rest]. simpl in *. subst fails.
  rewrite Hl. reflexivity.
Qed.

Lemma GetByID_none id w :
  fst (next_fault (db_faults w)) = false ->
  transactions w !! id = None ->
  GetByID id w =
    (Ret (None, None), tick (set_db_faults w (snd (next_fault (db_faults w))))).
Proof.
  intros Hf Hl. unfold GetByID.
  destruct (next_fault (db_faults w)) as [fails rest]. simpl in *. subst fails.
  rewrite Hl. reflexivity.
Qed.

Lemma Update_row t row w :
  fst (next_fault (db_faults w)) = false ->
  transactions w !! ID t = Some row ->
  Update t w =
    (Ret None,
     set_stamps
       (set_transactions (tick (set_db_faults w (snd (next_fault (db_faults w)))))
          (<[ID t := with_status row (TxStatus t)]> (transactions w)) (next_id w))
       (alter (update_updated_at_column (clock w)) (ID t) (stamps w))).
Proof.
  intros Hf Hl. unfold Update.
  destruct (next_fault (db_faults w)) as [fails rest]. simpl in *. subst fails.
  rewrite Hl. reflexivity.
Qed.

Lemma with_status_same row : with_status row (TxStatus row) = row.
Proof. destruct row. reflexivity. Qed.

(** The trigger on a row that has its timestamps. *)
Lemma alter_updated_at now id created updated (m : gmap Z (Z * Z)) :
  m !! id = Some (created, updated) ->
  alter (update_updated_at_column now) id m = <[id := (created, now)]> m.
Proof.
  intros H. apply map_eq. intros k. destruct (decide (k = id)) as [-> | Hk].
  - rewrite lookup_alter_eq, lookup_insert_eq, H. reflexivity.
  - rewrite lookup_alter_ne, lookup_insert_ne by congruence. reflexivity.
Qed.

(** Either handler, on a stored transaction and without a failing
    call, writes its own status whatever the status was; the read
    takes the first unit of time, and the update is stamped with the
    second. *)
Lemma terminal_handler_writes event row st w :
  transactions w !! TransactionID event = Some row ->
  calls_ok 2 (db_faults w) ->
  forall handler,
    (st = TransactionStatusComplete /\ handler = HandleTransactionCompleted
     \/ st = TransactionStatusFailed /\ handler = HandleTransactionFailed) ->
    fst (handler event w) = Ret None
    /\ transactions (snd (handler event w))
       = <[TransactionID event := with_status row st]> (transactions w)
    /\ stamps (snd (handler event w))
       = alter (update_updated_at_column (clock w + 1)) (TransactionID event)
           (stamps w).
Proof.
  intros Hl (Hf1 & Hf2 & _) handler [[-> ->] | [-> ->]];
    unfold HandleTransactionCompleted, HandleTransactionFailed, bind, ret;
    rewrite (GetByID_row _ row w Hf1 Hl);
    match goal with |- context [Update ?t ?w1] =>
      rewrite (Update_row t row w1 Hf2 Hl) end;
    repeat split; reflexivity.
Qed.

(** C3 (amended).  For every stored transaction and every event
    delivered for it, the read and the update of the row not failing.
    When the label of the event is exactly "complete" or "failed", the
    reconciler returns success and sets the status to the one of the
    label, whatever the status was: a terminal status is not protected
    against the opposite terminal event.  The update is executed also
    when the transaction has that status already, as under a duplicate
    or redelivered event: this is not an error, and the five columns
    that the code reads stay as they are, but the row is written, and
    the trigger sets its [updated_at] to the time of the update, one
    unit after the delivery.  [created_at] is kept.  When the label is
    any other, as in the events "failed: <reason>" that the account
    service publishes, the event is acknowledged and nothing is read
    or written. *)
Theorem C3_terminal_event_sets_its_status event row created updated w :
  transactions w !! TransactionID event = Some row ->
  stamps w !! TransactionID event = Some (created, updated) ->
  calls_ok 2 (db_faults w) ->
  match terminal_status (Status event) with
  | Some st =>
      fst (dispatch event w) = Ret None
      /\ transactions (snd (dispatch event w))
         = <[TransactionID event := with_status row st]> (transactions w)
      /\ stamps (snd (dispatch event w))
         = <[TransactionID event := (created, clock w + 1)]> (stamps w)
      /\ (TxStatus row = st ->
          transactions (snd (dispatch event w)) = transactions w)
  | None => dispatch event w = (Ret None, w)
  end.
Proof.
  intros Hl Hs Hok. unfold terminal_status, dispatch.
  change (status_string TransactionStatusComplete) with "complete".
  change (status_string TransactionStatusFailed) with "failed".
  assert (forall st handler,
            (st = TransactionStatusComplete /\ handler = HandleTransactionCompleted
             \/ st = TransactionStatusFailed /\ handler = HandleTransactionFailed) ->
            fst (handler event w) = Ret None
            /\ transactions (snd (handler event w))
               = <[TransactionID event := with_status row st]> (transactions w)
            /\ stamps (snd (handler event w))
               = <[TransactionID event := (created, clock w + 1)]> (stamps w)
            /\ (TxStatus row = st ->
                transactions (snd (handler event w)) = transactions w)) as Hh.
  { intros st handler Hc.
    destruct (terminal_handler_writes event row st w Hl Hok handler Hc)
      as (Hr & Ht & Hu).
    split; [exact Hr|]. split; [exact Ht|]. split.
    - rewrite Hu. apply alter_updated_at with (updated := updated). exact Hs.
    - intros <-. rewrite Ht, with_status_same. apply insert_id. exact Hl. }
  destruct (String.eqb (Status event) "complete").
  - apply Hh. left. split; reflexivity.
  - destruct (String.eqb (Status event) "failed"); [|reflexivity].
    apply Hh. right. split; reflexivity.
Qed.

(** A second "completed" event for a completed transaction: the
    status stays, and [updated_at] goes from 12 to 21. *)
Lemma C3_witness :
  fst (dispatch (terminal 5 "complete") (one_transaction TransactionStatusComplete))
  = Ret None
  /\ transactions (snd (dispatch (terminal 5 "complete")
                          (one_transaction TransactionStatusComplete)))
     = transactions (one_transaction TransactionStatusComplete)
  /\ stamps (one_transaction TransactionStatusComplete) !! 5 = Some (10, 12)
  /\ stamps (snd (dispatch (terminal 5 "complete")
                    (one_transaction TransactionStatusComplete))) !! 5
     = Some (10, 21).
Proof.
  pose proof (C3_terminal_event_sets_its_status
                (terminal 5 "complete") (stored TransactionStatusComplete)
                10 12 (one_transaction TransactionStatusComplete)
                eq_refl eq_refl (conj eq_refl (conj eq_refl I))) as H.
  change (terminal_status (Status (terminal 5 "complete")))
    with (Some TransactionStatusComplete) in H.
  destruct H as (Hr & _ & Hu & Hsame).
  split; [exact Hr|]. split; [apply Hsame; reflexivity|].
  split; [reflexivity|]. rewrite Hu. reflexivity.
Defined.

(** The events of other labels, among them every "failed" event of
    the account service, leave the store as it is. *)
Example other_labels_are_ignored :
  dispatch (terminal 5 "failed: insufficient funds")
    (one_transaction TransactionStatusPending)
  = (Ret None, one_transaction TransactionStatusPending)
  /\ dispatch (terminal 5 "failed: invalid amount")
       (one_transaction TransactionStatusPending)
     = (Ret None, one_transaction TransactionStatusPending)
  /\ dispatch (terminal 5 "pending") (one_transaction TransactionStatusPending)
     = (Ret None, one_transaction TransactionStatusPending)
  /\ dispatch (terminal 5 "Complete") (one_transaction TransactionStatusPending)
     = (Ret None, one_transaction TransactionStatusPending).
Proof. repeat split; reflexivity. Qed.

(** C3 as stated fails: a "failed" event delivered for a completed
    transaction turns it into a failed one, and a "completed" event
    turns a failed transaction into a completed one. *)
Lemma C3_counterexample :
  (TxStatus <$>
     transactions (snd (dispatch (terminal 5 "failed")
                          (one_transaction TransactionStatusComplete))) !! 5)
  = Some TransactionStatusFailed
  /\ (TxStatus <$>
        transactions (snd (dispatch (terminal 5 "complete")
                             (one_transaction TransactionStatusFailed))) !! 5)
     = Some TransactionStatusComplete.
Proof.
  split; vm_compute; reflexivity.
Qed.

(** C7 (the code at the failing input).  When the transaction is not
    stored and the read does not fail, [HandleTransactionFailed]
    returns success and [HandleTransactionCompleted] dereferences the
    nil transaction. *)
Theorem C7_completed_event_for_unknown_transaction_panics event w :
  transactions w !! TransactionID event = None ->
  calls_ok 1 (db_faults w) ->
  fst (HandleTransactionFailed event w) = Ret None
  /\ fst (HandleTransactionCompleted event w) = Panic nil_dereference.
Proof.
  intros Hl (Hf & _).
  unfold HandleTransactionFailed, HandleTransactionCompleted, bind, ret, panic.
  rewrite (GetByID_none _ w Hf Hl). split; reflexivity.
Qed.

Lemma C7_witness :
  fst (HandleTransactionFailed (terminal 42 "failed") no_transactions) = Ret None
  /\ fst (HandleTransactionCompleted (terminal 42 "complete") no_transactions)
     = Panic nil_dereference.
Proof.
  split.
  - apply (C7_completed_event_for_unknown_transaction_panics
             (terminal 42 "failed") no_transactions); [reflexivity | simpl; tauto].
  - apply (C7_completed_event_for_unknown_transaction_panics
             (terminal 42 "complete") no_transactions); [reflexivity | simpl; tauto].
Defined.

(** A transfer to the same account is rejected before anything is
    written or published. *)
Lemma SubmitTransaction_same_account dto w :
  DtoSourceAccountID dto = DtoDestinationAccountID dto ->
  SubmitTransaction dto w = (Ret (Some ErrSameAccount), w).
Proof.
  intros H. unfold SubmitTransaction. rewrite H, Z.eqb_refl. reflexivity.
Qed.

(** C5 (the code at the failing input).  Scenario B: the amount -5.00
    between accounts 1 and 2 is not rejected; a pending row is
    stored, the "submitted" event is published, the service returns
    no error and the endpoint answers 201. *)
Theorem C5_negative_amount_is_accepted :
  let dto := {| DtoSourceAccountID := 1; DtoDestinationAccountID := 2;
                DtoAmount := "-5.00" |} in
  let r := SubmitTransaction dto no_transactions in
  fst r = Ret None
  /\ transactions (snd r) !! 1
     = Some {| ID := 1; TxSourceAccountID := 1; TxDestinationAccountID := 2;
               TxAmount := "-5.00"; TxStatus := TransactionStatusPending |}
  /\ outbox (snd r)
     = [(EventTransactionSubmitted,
         {| TransactionID := 1; SourceAccountID := 1; DestinationAccountID := 2;
            Amount := "-5.00"; Status := "pending" |})]
  /\ fst (SubmitTransactionHandler
            {| ReqSourceAccountID := 1; ReqDestinationAccountID := 2;
               ReqAmount := "-5.00" |} no_transactions)
     = Ret StatusCreated.
Proof.
  vm_compute. repeat split; reflexivity.
Qed.

End Reconciler.

(** ** C9: an account that does not exist *)

Section MissingAccount.
Import AccountService.

(** C9 (the code at the failing input).  For every positive
    identifier that names no account, whether or not the read fails,
    the endpoint answers 500 with "Failed to get account": the
    repository reports the missing row as an error, which the service
    wraps, and the wrapped error is not [ErrAccountNotFound]. *)
Theorem C9_missing_account_is_an_internal_error id w :
  0 < id ->
  accounts w !! id = None ->
  fst (GetAccountHandler (Some id) w)
  = Ret (StatusInternalServerError, ErrorResponse "Failed to get account").
Proof.
  intros Hid Hl. unfold GetAccountHandler, GetAccount, validateAccountID, bind, ret.
  destruct (Z.leb_spec id 0); [lia|].
  unfold GetByID.
  destruct (next_fault (db_faults w)) as [[|] rest]; [reflexivity|].
  rewrite Hl. reflexivity.
Qed.

Lemma C9_witness :
  fst (GetAccountHandler (Some 999) (two_accounts "100.00" "0.00"))
  = Ret (500, ErrorResponse "Failed to get account").
Proof.
  apply (C9_missing_account_is_an_internal_error 999 (two_accounts "100.00" "0.00"));
    [lia | reflexivity].
Defined.

End MissingAccount.

(** * Further properties

    The parts of the two services that the statements above do not
    reach: the creation and the lookup of accounts, what a run of the
    handler may and may not change, the consumer on deliveries that
    succeed, and the submission and the lookup of transactions. *)

(** ** The creation of accounts *)

Section AccountCreation.
Import AccountService.



Local Opaque validateAmount.

(** The steps of the repository and of the broker, on the accounts. *)
Lemma Create_accounts account w r w' :
  Create account w = (r, w') ->
  (r = Ret None /\ accounts w !! ID account = None
   /\ accounts w' = <[ID account := Balance account]> (accounts w))
  \/ ((exists err, r = Ret (Some err)) /\ accounts w' = accounts w).
Proof.
  unfold Create.
  destruct (next_fault (db_faults w)) as [[|] rest]; [intros [= <- <-]; right; eauto|].
  destruct (accounts w !! ID account) eqn:Hl; intros [= <- <-]; [right; eauto|].
  left. auto.
Qed.

Lemma CreateAccount_accounts dto r v r' :
  CreateAccount dto r = (v, r') ->
  (v = Ret None /\ accounts (fst r) !! AccountID dto = None
   /\ accounts (fst r') = <[AccountID dto := InitialBalance dto]> (accounts (fst r)))
  \/ ((exists err, v = Ret (Some err)) /\ accounts (fst r') = accounts (fst r)).
Proof.
  destruct r as [w created].
  unfold CreateAccount.
  destruct (validateAccountID (AccountID dto)); [intros [= <- <-]; right; eauto|].
  destruct (validateAmount (InitialBalance dto)); [intros [= <- <-]; right; eauto|].
  unfold bind, lift, ret. cbn [fst snd].
  destruct (GetByID (AccountID dto) w) as [g w1] eqn:Hg.
  destruct (GetByID_frame _ _ _ _ Hg) as [Ha [[a e] ->]].
  destruct e as [e|]; [|destruct a as [a|]; [intros [= <- <-]; right; cbn; eauto|]];
    (cbn [fst snd];
     destruct (Create _ w1) as [c w2] eqn:HCe;
     destruct (Create_accounts _ _ _ _ HCe) as [(-> & Hn & Hi) | ([err ->] & Hk)];
     cbn [ID Balance] in *;
     [ unfold PublishAccountCreated; cbn [fst snd];
       destruct (next_fault (bus_faults w2)) as [[|] rest]; intros [= <- <-]; left;
       cbn; rewrite Hi, Ha; rewrite Ha in Hn; auto
     | intros [= <- <-]; right; cbn; rewrite Hk, Ha; eauto ]).
Qed.

Lemma GetByID_missing id w :
  fst (next_fault (db_faults w)) = false ->
  accounts w !! id = None ->
  GetByID id w =
    (Ret (None, Some (Wrap "failed to get account" ErrNoRows)),
     set_db_faults w (snd (next_fault (db_faults w)))).
Proof.
  intros Hf Hl. unfold GetByID.
  destruct (next_fault (db_faults w)) as [fails rest]. simpl in *. subst fails.
  rewrite Hl. reflexivity.
Qed.

Lemma Create_absent account w :
  fst (next_fault (db_faults w)) = false ->
  accounts w !! ID account = None ->
  Create account w =
    (Ret None,
     set_accounts (set_db_faults w (snd (next_fault (db_faults w))))
       (<[ID account := Balance account]> (accounts w))).
Proof.
  intros Hf Hl. unfold Create.
  destruct (next_fault (db_faults w)) as [fails rest]. simpl in *. subst fails.
  rewrite Hl. reflexivity.
Qed.

(** X2.  [CreateAccount] never changes an account that exists, nor any
    account other than the one it is asked to create, whatever the
    database and the broker do. *)
Theorem CreateAccount_keeps_existing_accounts dto r k :
  k <> AccountID dto \/ accounts (fst r) !! k <> None ->
  accounts (fst (snd (CreateAccount dto r))) !! k = accounts (fst r) !! k.
Proof.
  intros Hk. destruct (CreateAccount dto r) as [v r'] eqn:Hc. cbn [snd].
  destruct (CreateAccount_accounts _ _ _ _ Hc) as [(_ & Hn & ->) | (_ & ->)];
    [|reflexivity].
  apply lookup_insert_ne. intros <-. destruct Hk; congruence.
Qed.

Lemma CreateAccount_keeps_existing_accounts_witness :
  accounts (fst (snd (CreateAccount {| AccountID := 1; InitialBalance := "5.00" |}
                        (two_accounts "100.00" "0.00", [])))) !! 1
  = Some "100.00".
Proof.
  apply (CreateAccount_keeps_existing_accounts
           {| AccountID := 1; InitialBalance := "5.00" |}
           (two_accounts "100.00" "0.00", []) 1).
  right. discriminate.
Defined.

(** X3.  Create, then read: a new account with a positive identifier
    and a validated balance is stored with the balance string as it
    was given, not trimmed; the service returns nil whether or not
    the publication of the created account succeeds; [GetAccount]
    and the endpoint then return that string. *)
Theorem CreateAccount_then_GetAccount dto w created :
  0 < AccountID dto ->
  validateAmount (InitialBalance dto) = None ->
  accounts w !! AccountID dto = None ->
  calls_ok 3 (db_faults w) ->
  let account := {| ID := AccountID dto; Balance := InitialBalance dto |} in
  exists w' created',
    CreateAccount dto (w, created) = (Ret None, (w', created'))
    /\ accounts w' = <[AccountID dto := InitialBalance dto]> (accounts w)
    /\ (calls_ok 1 (bus_faults w) -> created' = (created ++ [account])%list)
    /\ fst (GetAccount (AccountID dto) w') = Ret (Some account, None)
    /\ fst (GetAccountHandler (Some (AccountID dto)) w')
       = Ret (StatusOK, AccountResponse (AccountID dto) (InitialBalance dto)).
Proof.
  intros Hid Hv Hl (Hf1 & Hf2 & Hf3 & _) account.
  unfold CreateAccount, validateAccountID.
  destruct (Z.leb_spec (AccountID dto) 0); [lia|]. rewrite Hv.
  unfold bind, lift, ret. cbn [fst snd].
  rewrite (GetByID_missing _ _ Hf1 Hl).
  set (w1 := set_db_faults w _).
  cbn [fst snd].
  rewrite (Create_absent {| ID := AccountID dto; Balance := InitialBalance dto |} w1 Hf2 Hl).
  set (w2 := set_accounts _ _).
  unfold PublishAccountCreated. cbn [fst snd].
  assert (forall w3, accounts w3 = accounts w2 -> db_faults w3 = db_faults w2 ->
            fst (GetAccount (AccountID dto) w3) = Ret (Some account, None)
            /\ fst (GetAccountHandler (Some (AccountID dto)) w3)
               = Ret (StatusOK, AccountResponse (AccountID dto) (InitialBalance dto)))
    as Hget.
  { intros w3 Ha Hd.
    assert (GetAccount (AccountID dto) w3
            = (Ret (Some account, None),
               set_db_faults w3 (snd (next_fault (db_faults w3))))) as HG.
    { unfold GetAccount, validateAccountID.
      destruct (Z.leb_spec (AccountID dto) 0); [lia|].
      unfold bind, ret.
      rewrite (GetByID_found (AccountID dto) (InitialBalance dto) w3);
        [reflexivity | rewrite Hd; exact Hf3 |].
      rewrite Ha. subst w2. cbn. apply lookup_insert_eq. }
    split; [rewrite HG; reflexivity|].
    unfold GetAccountHandler, bind, ret. rewrite HG. reflexivity. }
  destruct (next_fault (bus_faults w2)) as [[|] rest] eqn:Hb.
  - eexists _, _. split; [reflexivity|]. split; [reflexivity|].
    split; [|apply Hget; reflexivity].
    intros [Hok _]. subst w2 w1. cbn in Hb. rewrite Hb in Hok. discriminate.
  - eexists _, _. split; [reflexivity|]. split; [reflexivity|].
    split; [reflexivity | apply Hget; reflexivity].
Qed.

Lemma CreateAccount_then_GetAccount_witness :
  exists w' created',
    CreateAccount {| AccountID := 3; InitialBalance := " 100 " |}
      (two_accounts "100.00" "0.00", [])
    = (Ret None, (w', created'))
    /\ fst (GetAccount 3 w') = Ret (Some {| ID := 3; Balance := " 100 " |}, None).
Proof.
  destruct (CreateAccount_then_GetAccount
              {| AccountID := 3; InitialBalance := " 100 " |}
              (two_accounts "100.00" "0.00") [])
    as (w' & created' & Hc & _ & _ & Hg & _);
    [cbn; lia | reflexivity | reflexivity | cbn; tauto |].
  exists w', created'. split; [exact Hc | exact Hg].
Defined.

(** X4.  A request to create an account that exists changes nothing;
    the endpoint answers 409 when the read of the account succeeds
    and 500 when it fails, the insert being then refused by the
    primary key. *)
Theorem CreateAccountHandler_existing req r b :
  validate req = true ->
  validateAmount (ReqInitialBalance req) = None ->
  accounts (fst r) !! ReqAccountID req = Some b ->
  fst (CreateAccountHandler (Some req) r)
  = Ret (if fst (next_fault (db_faults (fst r)))
         then StatusInternalServerError else StatusConflict)
  /\ accounts (fst (snd (CreateAccountHandler (Some req) r))) = accounts (fst r).
Proof.
  intros Hval Hv Hl. destruct r as [w created]. cbn [fst] in *.
  unfold CreateAccountHandler. rewrite Hval. cbn [negb].
  unfold validate in Hval.
  destruct (Z.ltb_spec 0 (ReqAccountID req)) as [Hid|];
    [|rewrite andb_false_r in Hval; discriminate].
  unfold bind at 1. unfold CreateAccount, validateAccountID.
  cbn [AccountID InitialBalance].
  destruct (Z.leb_spec (ReqAccountID req) 0); [lia|]. rewrite Hv.
  unfold bind, lift, ret, GetByID, Create. cbn [fst snd ID Balance].
  destruct (next_fault (db_faults w)) as [[|] rest]; cbn.
  - destruct (next_fault rest) as [[|] rest']; cbn; [split; reflexivity|].
    rewrite Hl. split; reflexivity.
  - rewrite Hl. split; reflexivity.
Qed.

Lemma CreateAccountHandler_existing_witness :
  fst (CreateAccountHandler (Some {| ReqAccountID := 1; ReqInitialBalance := "5.00" |})
         (two_accounts "100.00" "0.00", []))
  = Ret 409.
Proof.
  apply (CreateAccountHandler_existing
           {| ReqAccountID := 1; ReqInitialBalance := "5.00" |}
           (two_accounts "100.00" "0.00", []) "100.00");
    reflexivity.
Defined.

(** X5.  The endpoint answers 201 exactly when it has inserted the
    account, under an identifier that was free and with the balance
    of the request; every other answer is 400, 409 or 500 and leaves
    the accounts as they were.  The handler never panics. *)
Theorem CreateAccountHandler_effect req r :
  let out := CreateAccountHandler req r in
  (exists q, req = Some q
     /\ fst out = Ret StatusCreated
     /\ accounts (fst r) !! ReqAccountID q = None
     /\ accounts (fst (snd out))
        = <[ReqAccountID q := ReqInitialBalance q]> (accounts (fst r)))
  \/ (exists status, fst out = Ret status
        /\ (status = StatusBadRequest \/ status = StatusConflict
            \/ status = StatusInternalServerError)
        /\ accounts (fst (snd out)) = accounts (fst r)).
Proof.
  cbv zeta. unfold CreateAccountHandler.
  destruct req as [q|]; [|right; eexists; cbn; eauto].
  destruct (negb (validate q)); [right; eexists; cbn; eauto|].
  unfold bind.
  destruct (CreateAccount _ r) as [v r'] eqn:Hc.
  destruct (CreateAccount_accounts _ _ _ _ Hc) as [(-> & Hn & Hi) | ([err ->] & Hk)];
    cbn [AccountID InitialBalance] in *.
  - left. exists q. cbn. auto.
  - right.
    destruct (errors_Is err ErrAccountExists); [eexists; cbn; eauto|].
    destruct (errors_Is err ErrInvalidAmount || errors_Is err ErrNegativeAmount
              || errors_Is err ErrInvalidAccountID);
      eexists; cbn; eauto.
Qed.

(** X6.  The answers of GET /accounts/{account_id}, case by case.  An
    identifier that does not parse is answered 400 "Invalid account
    ID", and one that is not positive 400 with the text of the
    validation error, both without a call to the database.  A
    positive identifier is answered 200 with the stored balance when
    the read succeeds and the row exists, and 500 "Failed to get
    account" when the read fails or there is no such row: no case is
    answered 404.  The accounts are never changed. *)
Theorem GetAccountHandler_statuses id w :
  let out := GetAccountHandler id w in
  accounts (snd out) = accounts w
  /\ outbox (snd out) = outbox w
  /\ (id = None ->
      out = (Ret (StatusBadRequest, ErrorResponse "Invalid account ID"), w))
  /\ (forall k, id = Some k -> k <= 0 ->
      out = (Ret (StatusBadRequest,
                  ErrorResponse "invalid account ID: invalid account ID"), w))
  /\ (forall k balance,
        id = Some k -> 0 < k -> fst (next_fault (db_faults w)) = false ->
        accounts w !! k = Some balance ->
        fst out = Ret (StatusOK, AccountResponse k balance))
  /\ (forall k,
        id = Some k -> 0 < k ->
        fst (next_fault (db_faults w)) = true \/ accounts w !! k = None ->
        fst out
        = Ret (StatusInternalServerError, ErrorResponse "Failed to get account"))
  /\ (forall b, fst out <> Ret (StatusNotFound, b)).
Proof.
  cbv zeta. unfold GetAccountHandler.
  destruct id as [k|];
    [|repeat split; try reflexivity; try discriminate].
  unfold bind at 1. unfold GetAccount, validateAccountID.
  destruct (Z.leb_spec k 0) as [Hk | Hk].
  { cbn. repeat split; try reflexivity; try discriminate;
      intros k' **;
      match goal with H : Some _ = Some _ |- _ => injection H as <- end; lia. }
  unfold bind, ret, GetByID.
  destruct (next_fault (db_faults w)) as [[|] rest] eqn:Hf; cbn;
    [|destruct (accounts w !! k) as [balance|] eqn:Hl; cbn];
    repeat split; try reflexivity; try discriminate;
    intros k' **;
    match goal with H : Some _ = Some _ |- _ => injection H as <- end;
    repeat match goal with H : _ \/ _ |- _ => destruct H end;
    try lia; congruence.
Qed.

End AccountCreation.


(** A balance with an exponent is a number: the account is created,
    with the balance stored as it was given. *)
Example balance_with_an_exponent_is_accepted :
  let out := AccountService.CreateAccountHandler
               (Some {| AccountService.ReqAccountID := 7;
                        AccountService.ReqInitialBalance := "1e2" |})
               (two_accounts "100.00" "0.00", []) in
  fst out = Ret 201
  /\ AccountService.accounts (fst (snd out)) !! 7 = Some "1e2".
Proof. vm_compute. split; reflexivity. Qed.

(** ** What a run of the handler changes *)

Section HandlerShape.
Import AccountService.

Local Opaque SetString Cmp Sub Add Text_f2 validateAmount.

Lemma GetByID_shape id w r w' :
  GetByID id w = (r, w') ->
  accounts w' = accounts w /\ outbox w' = outbox w
  /\ exists account err,
       r = Ret (account, err)
       /\ (err = None ->
           exists balance,
             account = Some {| ID := id; Balance := balance |}
             /\ accounts w !! id = Some balance).
Proof.
  unfold GetByID. intros H.
  destruct (next_fault (db_faults w)) as [[|] rest];
    [|destruct (accounts w !! id) eqn:Hl]; inversion H; subst;
    (split; [reflexivity|]); (split; [reflexivity|]);
    eexists _, _; (split; [reflexivity|]); try discriminate.
  intros _. eauto.
Qed.

Lemma Update_shape account balance w r w' :
  Update account w = (r, w') ->
  accounts w !! ID account = Some balance ->
  outbox w' = outbox w
  /\ ((r = Ret None
       /\ accounts w' = <[ID account := Balance account]> (accounts w))
      \/ ((exists err, r = Ret (Some err)) /\ accounts w' = accounts w)).
Proof.
  unfold Update. intros H Hl. rewrite Hl in H.
  destruct (next_fault (db_faults w)) as [[|] rest]; inversion H; subst;
    (split; [reflexivity|]); [right; eauto | left; auto].
Qed.

Lemma Publish_shape key event w r w' :
  Publish key event w = (r, w') ->
  accounts w' = accounts w
  /\ (exists v, r = Ret v)
  /\ (outbox w' = outbox w \/ outbox w' = (outbox w ++ [(key, event)])%list).
Proof.
  unfold Publish. intros H.
  destruct (next_fault (bus_faults w)) as [[|] rest]; inversion H; subst;
    (split; [reflexivity|]); (split; [eauto|]); [left | right]; reflexivity.
Qed.

Lemma publishFailed_shape event status w r w' :
  publishFailed event status w = (r, w') ->
  r = Ret tt /\ accounts w' = accounts w
  /\ (outbox w' = outbox w
      \/ outbox w' = (outbox w ++ [(EventTransactionFailed, failedEvent event status)])%list).
Proof.
  unfold publishFailed, PublishTransactionFailed, bind, ret. intros H.
  destruct (Publish _ _ w) as [p w1] eqn:Hp.
  apply Publish_shape in Hp as (Ha & [v ->] & Ho). inversion H; subst. auto.
Qed.

Lemma publishCompleted_shape event w r w' :
  publishCompleted event w = (r, w') ->
  r = Ret tt /\ accounts w' = accounts w
  /\ (outbox w' = outbox w
      \/ outbox w' = (outbox w ++ [(EventTransactionCompleted, completedEvent event)])%list).
Proof.
  unfold publishCompleted, PublishTransactionCompleted, bind, ret. intros H.
  destruct (Publish _ _ w) as [p w1] eqn:Hp.
  apply Publish_shape in Hp as (Ha & [v ->] & Ho). inversion H; subst. auto.
Qed.

Lemma transfer_attempt event sb db w r w' :
  accounts w !! SourceAccountID event = Some sb ->
  accounts w !! DestinationAccountID event = Some db ->
  transfer event {| ID := SourceAccountID event; Balance := sb |}
    {| ID := DestinationAccountID event; Balance := db |} w = (r, w') ->
  attempt event w w' r.
Proof.
  unfold transfer, bind, ret, panic. cbn [ID Balance]. intros Hs Hd H.
  destruct (SetString sb) as [sourceBalance|];
    [|inversion H; subst; constructor; reflexivity].
  destruct (SetString (Amount event)) as [amount|];
    [|inversion H; subst; constructor; reflexivity].
  destruct (Cmp sourceBalance amount <? 0).
  { destruct (publishFailed event "failed: insufficient funds" w) as [p w1] eqn:Hp.
    apply publishFailed_shape in Hp as (-> & Ha & Ho). inversion H; subst.
    apply (attempt_fails _ _ _ _ "insufficient funds"); [left; exact Ha | exact Ho]. }
  destruct (Sub sourceBalance amount) as [newSource|];
    [|inversion H; subst; constructor; reflexivity].
  destruct (SetString db) as [destBalance|];
    [|inversion H; subst; constructor; reflexivity].
  destruct (Add destBalance amount) as [newDest|];
    [|inversion H; subst; constructor; reflexivity].
  match type of H with context [Update ?a w] =>
    destruct (Update a w) as [u1 w1] eqn:Hu1 end.
  apply (Update_shape _ sb) in Hu1 as (Ho1 & [(-> & Ha1) | ([e1 ->] & Ha1)]);
    [| | exact Hs]; cbn [ID Balance] in *.
  2:{ match type of H with context [publishFailed ?e ?s w1] =>
        destruct (publishFailed e s w1) as [p w2] eqn:Hp end.
      apply publishFailed_shape in Hp as (-> & Ha & Ho). inversion H; subst.
      apply (attempt_fails _ _ _ _ "could not update source account");
        [left; congruence | rewrite <- Ho1; exact Ho]. }
  match type of H with context [Update ?a w1] =>
    destruct (Update a w1) as [u2 w2] eqn:Hu2 end.
  assert (exists cur, accounts w1 !! DestinationAccountID event = Some cur) as [cur Hcur].
  { rewrite Ha1.
    destruct (decide (SourceAccountID event = DestinationAccountID event)) as [-> | Hne].
    - rewrite lookup_insert_eq. eauto.
    - rewrite lookup_insert_ne by exact Hne. eauto. }
  apply (Update_shape _ cur) in Hu2 as (Ho2 & [(-> & Ha2) | ([e2 ->] & Ha2)]);
    [| | exact Hcur]; cbn [ID Balance] in *.
  - match type of H with context [publishCompleted ?e w2] =>
      destruct (publishCompleted e w2) as [p w3] eqn:Hp end.
    apply publishCompleted_shape in Hp as (-> & Ha & Ho). inversion H; subst.
    apply (attempt_completes _ _ _ sb db (Text_f2 newSource) (Text_f2 newDest));
      [exact Hs | exact Hd | congruence | rewrite <- Ho1, <- Ho2; exact Ho].
  - match type of H with context [publishFailed ?e ?s w2] =>
      destruct (publishFailed e s w2) as [p w3] eqn:Hp end.
    apply publishFailed_shape in Hp as (-> & Ha & Ho). inversion H; subst.
    apply (attempt_fails _ _ _ _ "could not update destination account");
      [|rewrite <- Ho1, <- Ho2; exact Ho].
    right. split; [eexists; reflexivity|].
    exists sb, (Text_f2 newSource). split; [exact Hs | congruence].
Qed.

Lemma HandleTransactionSubmitted_attempt event w r w' :
  HandleTransactionSubmitted event w = (r, w') -> attempt event w w' r.
Proof.
  unfold HandleTransactionSubmitted, bind, ret. intros H.
  destruct (GetByID (SourceAccountID event) w) as [r1 w1] eqn:Hg1.
  apply GetByID_shape in Hg1 as (Ha1 & Ho1 & sourceAccount & e1 & -> & Hs).
  destruct e1 as [e1|].
  { destruct (publishFailed event "failed: source account not found" w1)
      as [p w2] eqn:Hp.
    apply publishFailed_shape in Hp as (-> & Ha & Ho). inversion H; subst.
    apply (attempt_fails _ _ _ _ "source account not found");
      [left; congruence | rewrite <- Ho1; exact Ho]. }
  destruct (Hs eq_refl) as (sb & -> & Hsb).
  destruct (GetByID (DestinationAccountID event) w1) as [r2 w2] eqn:Hg2.
  apply GetByID_shape in Hg2 as (Ha2 & Ho2 & destAccount & e2 & -> & Hd).
  destruct e2 as [e2|].
  { destruct (publishFailed event "failed: destination account not found" w2)
      as [p w3] eqn:Hp.
    apply publishFailed_shape in Hp as (-> & Ha & Ho). inversion H; subst.
    apply (attempt_fails _ _ _ _ "destination account not found");
      [left; congruence | rewrite <- Ho1, <- Ho2; exact Ho]. }
  destruct (Hd eq_refl) as (db & -> & Hdb).
  destruct (validateAmount (Amount event)) as [e3|].
  { destruct (publishFailed event "failed: invalid amount" w2) as [p w3] eqn:Hp.
    apply publishFailed_shape in Hp as (-> & Ha & Ho). inversion H; subst.
    apply (attempt_fails _ _ _ _ "invalid amount");
      [left; congruence | rewrite <- Ho1, <- Ho2; exact Ho]. }
  apply (transfer_attempt event sb db) in H;
    [| rewrite Ha2, Ha1; exact Hsb | rewrite Ha2; exact Hdb].
  rewrite Ha1 in Hdb.
  destruct H as [m Ha Ho | err reason Ha Ho | sb' db' b b' Hs' Hd' Ha Ho].
  - constructor; congruence.
  - apply (attempt_fails _ _ _ _ reason).
    + destruct Ha as [Ha | (Hw & sb' & b & Hl & Ha)]; [left; congruence|].
      right. split; [exact Hw|]. exists sb, b. split; [exact Hsb | congruence].
    + rewrite <- Ho1, <- Ho2. exact Ho.
  - apply (attempt_completes _ _ _ sb db b b'); [exact Hsb | exact Hdb | congruence |].
    rewrite <- Ho1, <- Ho2. exact Ho.
Qed.

(** X7.  Whatever its result, a run of [HandleTransactionSubmitted]
    neither creates nor removes an account, and changes no balance
    other than those of the source and of the destination of its
    event. *)
Theorem HandleTransactionSubmitted_touches_two_accounts event w id :
  let w' := snd (HandleTransactionSubmitted event w) in
  (is_Some (accounts w' !! id) <-> is_Some (accounts w !! id))
  /\ (id <> SourceAccountID event -> id <> DestinationAccountID event ->
      accounts w' !! id = accounts w !! id).
Proof.
  cbv zeta. destruct (HandleTransactionSubmitted event w) as [r w'] eqn:H.
  cbn [snd]. apply HandleTransactionSubmitted_attempt in H.
  destruct H as [m Ha Ho | err reason Ha Ho | sb db b b' Hs Hd Ha Ho].
  - rewrite Ha. tauto.
  - destruct Ha as [-> | (_ & sb & b & Hl & ->)]; [tauto|].
    destruct (decide (id = SourceAccountID event)) as [-> | Hne].
    + rewrite lookup_insert_eq, Hl. split; [split; eauto | tauto].
    + rewrite lookup_insert_ne by congruence. tauto.
  - rewrite Ha.
    destruct (decide (id = DestinationAccountID event)) as [-> | Hne].
    + rewrite lookup_insert_eq, Hd. split; [split; eauto | tauto].
    + rewrite lookup_insert_ne by congruence.
      destruct (decide (id = SourceAccountID event)) as [-> | Hne'].
      * rewrite lookup_insert_eq, Hs. split; [split; eauto | tauto].
      * rewrite lookup_insert_ne by congruence. tauto.
Qed.

(** X8.  A run of the handler publishes at most one event: a
    completed event only when it returns nil, a failed event, whose
    status starts with "failed: ", only when it returns an error,
    and nothing when it panics. *)
Theorem HandleTransactionSubmitted_publishes_one_event event w :
  let r := fst (HandleTransactionSubmitted event w) in
  let w' := snd (HandleTransactionSubmitted event w) in
  outbox w' = outbox w
  \/ (r = Ret None
      /\ outbox w'
         = (outbox w ++ [(EventTransactionCompleted, completedEvent event)])%list)
  \/ (exists err reason,
        r = Ret (Some err)
        /\ outbox w'
           = (outbox w
              ++ [(EventTransactionFailed,
                   failedEvent event ("failed: " ++ reason))])%list).
Proof.
  cbv zeta. destruct (HandleTransactionSubmitted event w) as [r w'] eqn:H.
  cbn [fst snd]. apply HandleTransactionSubmitted_attempt in H.
  destruct H as [m Ha Ho | err reason Ha Ho | sb db b b' Hs Hd Ha Ho].
  - left. exact Ho.
  - destruct Ho as [Ho | Ho]; [left; exact Ho|]. right. right. eauto.
  - destruct Ho as [Ho | Ho]; [left; exact Ho|]. right. left. auto.
Qed.

End HandlerShape.

(** ** Transfers that are refused, or handled twice *)

Lemma Cmp_near_lt x y a c :
  near (-70) 1 x a -> near (-70) 1 y c -> a < c -> Cmp x y = -1.
Proof.
  intros (m1 & e1 & -> & He1 & Hm1 & Hb1) (m2 & e2 & -> & He2 & Hm2 & Hb2) Hc.
  unfold Cmp, ucmp, ord.
  destruct (align m1 e1 m2 e2) as [[A B] e] eqn:Hal.
  destruct (align m2 e2 m1 e1) as [[B' A'] e'] eqn:Hal'. simpl.
  destruct (align_scaled m1 e1 m2 e2 A B e) as (He & HA & HB);
    [lia | lia | exact Hal |].
  pose proof (ulp_pos e ltac:(lia)) as HU.
  rewrite <- HA in Hb1. rewrite <- HB in Hb2.
  assert (0 < (B - A) * ulp e) as Hpos.
  { rewrite Z.mul_sub_distr_r. scale_numerals. lia. }
  assert (A < B) as HAB by nia.
  destruct (Z.compare_spec A B) as [? | _ | ?]; lia.
Qed.

Lemma insufficient_arithmetic a c :
  0 <= a < c -> c < 10 ^ 17 ->
  (Cmp (money_float a) (money_float c) <? 0) = true.
Proof.
  intros Ha Hc.
  pose proof (money_float_near c ltac:(lia)) as Hnc.
  destruct (Z.eq_dec a 0) as [-> | Hne].
  - destruct Hnc as (m & e & -> & _). reflexivity.
  - pose proof (money_float_near a ltac:(lia)) as Hna.
    rewrite (Cmp_near_lt _ _ a c Hna Hnc); [reflexivity | lia].
Qed.

Section Refusals.
Import AccountService.

Local Opaque SetString Cmp Sub Add Text_f2 fixed2 validateAmount.

(** X9.  Insufficient funds: when the source holds less than the
    amount, both being plain decimals with at most two fractional
    digits and the amount below 10^15, the handler returns
    [ErrInsufficientFunds], publishes the failed event and leaves
    every balance as it was; the balance of the destination is not
    even parsed. *)
Theorem insufficient_funds_are_refused event sb db a c w :
  accounts w !! SourceAccountID event = Some sb ->
  accounts w !! DestinationAccountID event = Some db ->
  money sb = Some a -> money (Amount event) = Some c ->
  a < c -> c < 10 ^ 17 ->
  calls_ok 2 (db_faults w) ->
  exists w',
    HandleTransactionSubmitted event w = (Ret (Some ErrInsufficientFunds), w')
    /\ accounts w' = accounts w
    /\ (calls_ok 1 (bus_faults w) ->
        outbox w'
        = (outbox w
           ++ [(EventTransactionFailed,
                failedEvent event "failed: insufficient funds")])%list).
Proof.
  intros Hs Hd Ha Hc Hac Hcr (Hf1 & Hf2 & _).
  pose proof (money_nonneg _ _ Ha) as Ha0.
  destruct (SetString_money _ _ Ha ltac:(lia)) as [Hpa _].
  destruct (SetString_money _ _ Hc ltac:(lia)) as [Hpc _].
  unfold HandleTransactionSubmitted, bind.
  rewrite (GetByID_found _ sb w Hf1 Hs).
  set (w1 := set_db_faults w _).
  rewrite (GetByID_found _ db w1 Hf2 Hd).
  set (w2 := set_db_faults w1 _).
  rewrite (validateAmount_money _ _ Hc) by lia.
  unfold transfer. cbn [Balance ID].
  rewrite Hpa, Hpc, (insufficient_arithmetic a c) by lia.
  destruct (publishFailed_spec event "failed: insufficient funds" w2)
    as (w3 & Hp & Hacc & _ & Hout).
  unfold bind. rewrite Hp. unfold ret. exists w3. split; [reflexivity|].
  split; [rewrite Hacc; reflexivity | exact Hout].
Qed.

Lemma insufficient_funds_are_refused_witness :
  exists w',
    HandleTransactionSubmitted (submitted 1 1 2 "100.01") (two_accounts "100.00" "0.00")
    = (Ret (Some ErrInsufficientFunds), w')
    /\ accounts w' = accounts (two_accounts "100.00" "0.00").
Proof.
  destruct (insufficient_funds_are_refused (submitted 1 1 2 "100.01")
              "100.00" "0.00" 10000 10001 (two_accounts "100.00" "0.00"))
    as (w' & H & Ha & _);
    [reflexivity | reflexivity | reflexivity | reflexivity | lia | lia
     | cbn; tauto |].
  exists w'. split; [exact H | exact Ha].
Defined.

(** X10.  A literal with white space around it is accepted where it
    is validated, since [validateAmount] trims it, and is then parsed
    untrimmed: for an amount that passed the validation, or a source
    balance, with such white space the parse fails and the
    comparison dereferences nil.  The handler panics, with no
    balance written and no event published. *)
Theorem padded_literal_panics event sb db w :
  accounts w !! SourceAccountID event = Some sb ->
  accounts w !! DestinationAccountID event = Some db ->
  validateAmount (Amount event) = None ->
  Strings.TrimSpace (Amount event) <> Amount event \/ Strings.TrimSpace sb <> sb ->
  calls_ok 2 (db_faults w) ->
  exists w',
    HandleTransactionSubmitted event w = (Panic nil_dereference, w')
    /\ accounts w' = accounts w /\ outbox w' = outbox w.
Proof.
  intros Hs Hd Hv Ht (Hf1 & Hf2 & _).
  assert (SetString (Amount event) = None \/ SetString sb = None) as Hp.
  { destruct Ht as [Ht | Ht]; [left | right];
      match goal with |- SetString ?s = None =>
        destruct (SetString s) as [v|] eqn:Hp; [|reflexivity];
        exfalso; apply Ht; eapply SetString_TrimSpace; exact Hp
      end. }
  unfold HandleTransactionSubmitted, bind.
  rewrite (GetByID_found _ sb w Hf1 Hs).
  set (w1 := set_db_faults w _).
  rewrite (GetByID_found _ db w1 Hf2 Hd).
  set (w2 := set_db_faults w1 _).
  rewrite Hv. unfold transfer. cbn [Balance ID].
  exists w2. split; [|split; reflexivity].
  destruct Hp as [-> | ->]; [destruct (SetString sb); reflexivity | reflexivity].
Qed.

Local Transparent SetString Cmp Sub Add Text_f2 fixed2 validateAmount.

Lemma padded_literal_panics_witness :
  exists w',
    HandleTransactionSubmitted (submitted 1 1 2 " 40.00") (two_accounts "100.00" "0.00")
    = (Panic nil_dereference, w')
    /\ accounts w' = accounts (two_accounts "100.00" "0.00").
Proof.
  destruct (padded_literal_panics (submitted 1 1 2 " 40.00")
              "100.00" "0.00" (two_accounts "100.00" "0.00"))
    as (w' & H & Ha & _);
    [reflexivity | reflexivity | vm_compute; reflexivity
     | left; vm_compute; discriminate | cbn; tauto |].
  exists w'. split; [exact H | exact Ha].
Defined.

End Refusals.

Lemma keeps_ret {W A : Type} (P : W -> Prop) (x : A) : keeps P (ret x).
Proof. intros w H. exact H. Qed.

Lemma keeps_panic {W A : Type} (P : W -> Prop) (m : string) :
  keeps P (panic m : M W A).
Proof. intros w H. exact H. Qed.

Lemma keeps_bind {W A B : Type} (P : W -> Prop) (c : M W A) (k : A -> M W B) :
  keeps P c -> (forall x, keeps P (k x)) -> keeps P (bind c k).
Proof.
  intros Hc Hk w H. unfold bind. specialize (Hc w H).
  destruct (c w) as [[x|m] w1]; cbn [snd] in *; [apply Hk; exact Hc | exact Hc].
Qed.

Ltac keeps_walk prim :=
  repeat first
    [ apply keeps_ret
    | apply keeps_panic
    | prim
    | apply keeps_bind; [|intros ?]
    | progress cbv beta zeta
    | match goal with
      | |- keeps _ (match ?x with _ => _ end) => destruct x
      end ].

Section Redelivery.
Import AccountService.

Local Opaque SetString Cmp Sub Add Text_f2 fixed2 validateAmount.

Lemma GetByID_quiet id : keeps quiet (GetByID id).
Proof.
  intros w [Hd Hb]. unfold GetByID. rewrite Hd. cbn.
  destruct (accounts w !! id); split; cbn; auto.
Qed.

Lemma Update_quiet account : keeps quiet (Update account).
Proof.
  intros w [Hd Hb]. unfold Update. rewrite Hd. cbn.
  destruct (accounts w !! ID account); split; cbn; auto.
Qed.

Lemma Publish_quiet key event : keeps quiet (Publish key event).
Proof.
  intros w [Hd Hb]. unfold Publish. rewrite Hb. cbn. split; cbn; auto.
Qed.

Lemma HandleTransactionSubmitted_quiet event :
  keeps quiet (HandleTransactionSubmitted event).
Proof.
  unfold HandleTransactionSubmitted, transfer, publishFailed, publishCompleted,
    PublishTransactionFailed, PublishTransactionCompleted.
  keeps_walk ltac:(first [apply GetByID_quiet | apply Update_quiet | apply Publish_quiet]).
Qed.

(** X11.  The handler keeps no record of the events it has handled: a
    second delivery of an event that completed moves the amount a
    second time and publishes a second completed event. *)
Theorem redelivered_event_moves_the_amount_again event sb db a b c w :
  SourceAccountID event <> DestinationAccountID event ->
  accounts w !! SourceAccountID event = Some sb ->
  accounts w !! DestinationAccountID event = Some db ->
  money sb = Some a -> money db = Some b -> money (Amount event) = Some c ->
  0 < c -> 2 * c <= a -> a < 10 ^ 17 -> b + 2 * c < 10 ^ 17 ->
  db_faults w = [] -> bus_faults w = [] ->
  exists w1 w2,
    HandleTransactionSubmitted event w = (Ret None, w1)
    /\ HandleTransactionSubmitted event w1 = (Ret None, w2)
    /\ accounts w2 !! SourceAccountID event = Some (fixed2 (a - 2 * c))
    /\ accounts w2 !! DestinationAccountID event = Some (fixed2 (b + 2 * c))
    /\ outbox w2
       = (outbox w
          ++ [(EventTransactionCompleted, completedEvent event);
              (EventTransactionCompleted, completedEvent event)])%list.
Proof.
  intros Hne Hs Hd Ha Hb Hc Hc0 Hca Har Hbr Hdf Hbf.
  pose proof (money_nonneg _ _ Hb) as Hb0.
  assert (forall n fs, fs = [] -> calls_ok n fs) as Hok.
  { intros n fs ->. induction n; cbn; auto. }
  destruct (submitted_completes event sb db a b c w) as (w1 & H1 & Ha1 & Ho1);
    try assumption; try lia; [apply Hok; exact Hdf|].
  pose proof (HandleTransactionSubmitted_quiet event w (conj Hdf Hbf)) as [Hdf1 Hbf1].
  rewrite H1 in Hdf1, Hbf1. cbn [snd] in Hdf1, Hbf1.
  destruct (submitted_completes event (fixed2 (a - c)) (fixed2 (b + c))
              (a - c) (b + c) c w1) as (w2 & H2 & Ha2 & Ho2);
    try assumption; try lia;
    [ rewrite Ha1, lookup_insert_ne, lookup_insert_eq by congruence; reflexivity
    | rewrite Ha1, lookup_insert_eq; reflexivity
    | apply money_fixed2; lia
    | apply money_fixed2; lia
    | apply Hok; exact Hdf1 |].
  exists w1, w2. split; [exact H1|]. split; [exact H2|].
  rewrite Ha2.
  split; [rewrite lookup_insert_ne, lookup_insert_eq by congruence; f_equal; f_equal; lia|].
  split; [rewrite lookup_insert_eq; f_equal; f_equal; lia|].
  rewrite Ho2, Ho1 by (apply Hok; assumption).
  rewrite <- app_assoc. reflexivity.
Qed.

Local Transparent SetString Cmp Sub Add Text_f2 fixed2 validateAmount.

Lemma redelivered_event_moves_the_amount_again_witness :
  exists w1 w2,
    HandleTransactionSubmitted (submitted 1 1 2 "40.00") (two_accounts "100.00" "0.00")
    = (Ret None, w1)
    /\ HandleTransactionSubmitted (submitted 1 1 2 "40.00") w1 = (Ret None, w2)
    /\ accounts w2 !! 1 = Some "20.00"
    /\ accounts w2 !! 2 = Some "80.00".
Proof.
  destruct (redelivered_event_moves_the_amount_again (submitted 1 1 2 "40.00")
              "100.00" "0.00" 10000 0 4000 (two_accounts "100.00" "0.00"))
    as (w1 & w2 & H1 & H2 & Hs & Hd & _);
    [cbn; lia | reflexivity | reflexivity | reflexivity | reflexivity | reflexivity
     | lia | lia | lia | lia | reflexivity | reflexivity |].
  exists w1, w2. split; [exact H1|]. split; [exact H2|].
  split; [exact Hs | exact Hd].
Defined.

End Redelivery.

(** ** The consumer on deliveries that succeed *)

Section Deliveries.
Import Messaging.

Context {S E : Type}.
Variable handler : TransactionEvent -> M S (option E).

Lemma deliver_succeeding msg event c :
  Unmarshal (Body msg) = Some event ->
  retryCountOf msg < 3 ->
  fst (handler event (service c)) = Ret None ->
  deliver handler msg c
  = (Ret tt,
     {| service := handled handler event (service c); queue := queue c;
        dlq := dlq c; calls := calls c ++ [event]; faults := faults c |}).
Proof.
  intros Hu Hr Hh. unfold deliver, invoke, handled. rewrite Hu.
  destruct (Z.leb_spec 3 (retryCountOf msg)); [lia|].
  destruct (handler event (service c)) as [r s']. cbn in Hh. subst r. reflexivity.
Qed.

Lemma deliver_failed msg event c :
  Unmarshal (Body msg) = Some event ->
  retryCountOf msg < 2 ->
  (exists err, fst (handler event (service c)) = Ret (Some err)) ->
  deliver handler msg c
  = (Ret tt,
     snd (Republish (retry_message msg (retryCountOf msg + 1))
            {| service := handled handler event (service c); queue := queue c;
               dlq := dlq c; calls := calls c ++ [event]; faults := faults c |})).
Proof.
  intros Hu Hr [err Hh]. unfold deliver, invoke, handled. rewrite Hu.
  destruct (Z.leb_spec 3 (retryCountOf msg)); [lia|].
  destruct (handler event (service c)) as [r s']. cbn in Hh. subst r.
  destruct (Z.leb_spec 3 (retryCountOf msg + 1)); [lia|].
  unfold retry_message.
  destruct (Republish _ _) as [ok c']. reflexivity.
Qed.

(** X12.  A queue of decodable messages on which the handler
    succeeds is handled in order, once each, and acknowledged:
    nothing is republished or dead-lettered. *)
Theorem consume_handles_in_order msgs events s d k fs fuel :
  Forall2 (fun msg event =>
             Unmarshal (Body msg) = Some event /\ retryCountOf msg < 3)
    msgs events ->
  succeeds handler events s ->
  (length msgs <= fuel)%nat ->
  consume handler fuel
    {| service := s; queue := msgs; dlq := d; calls := k; faults := fs |}
  = (Ret tt,
     {| service := fold_left (fun s event => handled handler event s) events s;
        queue := []; dlq := d; calls := (k ++ events)%list; faults := fs |}).
Proof.
  intros Hall. revert s k fuel.
  induction Hall as [|msg event msgs events [Hu Hr] _ IH]; intros s k fuel Hs Hf.
  - rewrite app_nil_r. destruct fuel; reflexivity.
  - destruct fuel as [|fuel]; [cbn in Hf; lia|].
    destruct Hs as [Hh Hs]. cbn [consume queue].
    rewrite (deliver_succeeding msg event); [|exact Hu | exact Hr | exact Hh].
    unfold pop. cbn [service queue dlq calls faults].
    rewrite IH; [|exact Hs | cbn in Hf; lia].
    rewrite <- app_assoc. reflexivity.
Qed.

(** X13.  A handler that fails once and then succeeds is invoked
    twice: the first delivery is acknowledged and republished with
    the retry count incremented, the second is acknowledged, and
    nothing reaches the dead-letter queue. *)
Theorem consume_retries_until_success msg event s fs fuel :
  Unmarshal (Body msg) = Some event ->
  retryCountOf msg < 2 ->
  (exists err, fst (handler event s) = Ret (Some err)) ->
  fst (handler event (handled handler event s)) = Ret None ->
  calls_ok 1 fs ->
  (2 <= fuel)%nat ->
  consume handler fuel
    {| service := s; queue := [msg]; dlq := []; calls := []; faults := fs |}
  = (Ret tt,
     {| service := handled handler event (handled handler event s);
        queue := []; dlq := []; calls := [event; event];
        faults := snd (next_fault fs) |}).
Proof.
  intros Hu Hr Hfail Hok [Hf _] Hfuel.
  destruct fuel as [|[|fuel]]; try lia.
  cbn [consume queue].
  rewrite (deliver_failed msg event); [|exact Hu | exact Hr | exact Hfail].
  unfold pop, Republish. cbn [service queue dlq calls faults].
  destruct (next_fault fs) as [fails rest]. cbn in Hf. subst fails.
  cbn [snd service queue dlq calls faults app].
  rewrite (deliver_succeeding _ event);
    [| exact Hu
     | rewrite retryCountOf_retry; lia
     | exact Hok ].
  cbn [service queue dlq calls faults]. destruct fuel; reflexivity.
Qed.

(** Bodies are neither altered nor invented. *)
Lemma deliver_bodies msgs msg c r c' :
  body_of msgs msg ->
  Forall (body_of msgs) (queue c) ->
  deliver handler msg c = (r, c') ->
  Forall (body_of msgs) (queue c')
  /\ (exists new, dlq c' = (dlq c ++ new)%list /\ Forall (body_of msgs) new)
  /\ (exists new, calls c' = (calls c ++ new)%list
        /\ Forall (fun event => exists m, In m msgs /\ Unmarshal (Body m) = Some event) new).
Proof.
  intros Hm Hq. unfold deliver.
  assert (forall c0 : Channel S, Forall (body_of msgs) (queue c0) ->
            Forall (body_of msgs) (queue (Nack msg c0))
            /\ (exists new, dlq (Nack msg c0) = (dlq c0 ++ new)%list
                            /\ Forall (body_of msgs) new)) as Hnack.
  { intros c0 H0. split; [exact H0|]. exists [msg]. split; [reflexivity|].
    constructor; [exact Hm | constructor]. }
  assert (forall c0 : Channel S,
            exists new, calls c0 = (calls c0 ++ new)%list
              /\ Forall (fun event => exists m, In m msgs /\ Unmarshal (Body m) = Some event) new)
    as Hnone.
  { intros c0. exists []. rewrite app_nil_r. split; [reflexivity | constructor]. }
  destruct (Unmarshal (Body msg)) as [event|] eqn:Hu.
  2:{ intros [= <- <-]. destruct (Hnack c Hq) as [H1 H2].
    split; [exact H1 | split; [exact H2 | apply (Hnone c)]]. }
  destruct (3 <=? retryCountOf msg).
  { intros [= <- <-]. destruct (Hnack c Hq) as [H1 H2].
    split; [exact H1 | split; [exact H2 | apply (Hnone c)]]. }
  unfold invoke. destruct (handler event (service c)) as [h s'].
  set (c1 := {| service := s'; queue := queue c; dlq := dlq c;
                calls := calls c ++ [event]; faults := faults c |}).
  assert (exists new, calls c1 = (calls c ++ new)%list
            /\ Forall (fun event => exists m, In m msgs /\ Unmarshal (Body m) = Some event) new)
    as Hcalls.
  { exists [event]. split; [reflexivity|]. constructor; [|constructor].
    destruct Hm as (m & Hin & Hb). exists m. split; [exact Hin|]. rewrite <- Hb. exact Hu. }
  destruct h as [[err|]|m].
  - destruct (3 <=? retryCountOf msg + 1).
    + intros [= <- <-]. destruct (Hnack c1 Hq) as [H1 H2].
      split; [exact H1 | split; [exact H2 | exact Hcalls]].
    + unfold Republish.
      destruct (next_fault (faults c1)) as [[|] rest]; intros [= <- <-];
        cbn [queue dlq calls].
      * split; [exact Hq|]. split; [|exact Hcalls].
        exists []. rewrite app_nil_r. split; [reflexivity | constructor].
      * split; [|split; [|exact Hcalls]].
        -- apply Forall_app. split; [exact Hq|]. constructor; [|constructor].
           destruct Hm as (m & Hin & Hb). exists m. split; [exact Hin | exact Hb].
        -- exists []. rewrite app_nil_r. split; [reflexivity | constructor].
  - intros [= <- <-]. split; [exact Hq|]. split; [|exact Hcalls].
    exists []. rewrite app_nil_r. split; [reflexivity | constructor].
  - intros [= <- <-]. split; [exact Hq|]. split; [|exact Hcalls].
    exists []. rewrite app_nil_r. split; [reflexivity | constructor].
Qed.

Lemma consume_bodies msgs fuel : forall c r c',
  Forall (body_of msgs) (queue c) ->
  consume handler fuel c = (r, c') ->
  Forall (body_of msgs) (queue c')
  /\ (exists new, dlq c' = (dlq c ++ new)%list /\ Forall (body_of msgs) new)
  /\ (exists new, calls c' = (calls c ++ new)%list
        /\ Forall (fun event => exists m, In m msgs /\ Unmarshal (Body m) = Some event) new).
Proof.
  induction fuel as [|fuel IH]; intros c r c' Hq H.
  - cbn in H. inversion H; subst. split; [exact Hq|].
    split; exists []; rewrite app_nil_r; (split; [reflexivity | constructor]).
  - cbn [consume] in H. destruct (queue c) as [|msg rest] eqn:Hqc.
    { inversion H; subst. rewrite Hqc. split; [constructor|].
      split; exists []; rewrite app_nil_r; (split; [reflexivity | constructor]). }
    inversion Hq as [|? ? Hm Hrest]; subst.
    destruct (deliver handler msg (pop rest c)) as [d c1] eqn:Hd.
    destruct (deliver_bodies msgs msg (pop rest c) d c1 Hm Hrest Hd)
      as (Hq1 & (nd & Hd1 & Hnd) & (nc & Hc1 & Hnc)).
    cbn [pop dlq calls] in Hd1, Hc1.
    destruct d as [u|m].
    + destruct (IH c1 r c' Hq1 H) as (Hq2 & (nd2 & Hd2 & Hnd2) & (nc2 & Hc2 & Hnc2)).
      split; [exact Hq2|]. split.
      * exists (nd ++ nd2)%list. rewrite Hd2, Hd1, app_assoc.
        split; [reflexivity | apply Forall_app; auto].
      * exists (nc ++ nc2)%list. rewrite Hc2, Hc1, app_assoc.
        split; [reflexivity | apply Forall_app; auto].
    + inversion H; subst. cbn [pop queue dlq calls].
      split; [constructor; [exact Hm | exact Hq1]|].
      split; [exists nd | exists nc]; auto.
Qed.

(** X14.  The consumer neither alters nor invents a body: whatever
    the handler does, every event handed to it is the decoding of a
    message of the queue, hence never a body that does not decode,
    and every message it dead-letters or leaves in the queue carries
    the body of a message of the queue. *)
Theorem consume_keeps_the_bodies fuel c :
  let c' := snd (consume handler fuel c) in
  Forall (body_of (queue c)) (queue c')
  /\ (exists new, dlq c' = (dlq c ++ new)%list /\ Forall (body_of (queue c)) new)
  /\ (exists new,
        calls c' = (calls c ++ new)%list
        /\ Forall (fun event =>
                     exists msg, In msg (queue c) /\ Unmarshal (Body msg) = Some event)
             new).
Proof.
  cbv zeta. destruct (consume handler fuel c) as [r c'] eqn:H. cbn [snd].
  apply (consume_bodies (queue c) fuel c r c'); [|exact H].
  apply List.Forall_forall. intros m Hin. exists m. split; [exact Hin | reflexivity].
Qed.

End Deliveries.

(** Two transfers in a row, and a transfer whose first attempt meets
    a failing read of the database. *)
Lemma consume_handles_in_order_witness :
  exists c',
    Messaging.consume AccountService.HandleTransactionSubmitted 2
      {| Messaging.service := two_accounts "100.00" "0.00";
         Messaging.queue := [fresh_message (submitted 1 1 2 "40.00");
                             fresh_message (submitted 2 2 1 "15.00")];
         Messaging.dlq := []; Messaging.calls := []; Messaging.faults := [] |}
    = (Ret tt, c')
    /\ Messaging.calls c' = [submitted 1 1 2 "40.00"; submitted 2 2 1 "15.00"]
    /\ Messaging.dlq c' = []
    /\ AccountService.accounts (Messaging.service c') !! 1 = Some "75.00"
    /\ AccountService.accounts (Messaging.service c') !! 2 = Some "25.00".
Proof.
  eexists. split.
  - apply (consume_handles_in_order AccountService.HandleTransactionSubmitted
             [fresh_message (submitted 1 1 2 "40.00");
              fresh_message (submitted 2 2 1 "15.00")]
             [submitted 1 1 2 "40.00"; submitted 2 2 1 "15.00"]
             (two_accounts "100.00" "0.00") [] [] [] 2%nat).
    + repeat constructor.
    + vm_compute. auto.
    + simpl. lia.
  - vm_compute. auto.
Defined.

Lemma consume_retries_until_success_witness :
  exists c',
    Messaging.consume AccountService.HandleTransactionSubmitted 5
      {| Messaging.service :=
           AccountService.set_db_faults (two_accounts "100.00" "0.00") [true];
         Messaging.queue := [fresh_message (submitted 1 1 2 "40.00")];
         Messaging.dlq := []; Messaging.calls := []; Messaging.faults := [] |}
    = (Ret tt, c')
    /\ Messaging.calls c' = [submitted 1 1 2 "40.00"; submitted 1 1 2 "40.00"]
    /\ Messaging.dlq c' = []
    /\ AccountService.accounts (Messaging.service c') !! 1 = Some "60.00"
    /\ map fst (AccountService.outbox (Messaging.service c'))
       = [EventTransactionFailed; EventTransactionCompleted].
Proof.
  eexists. split.
  - apply (consume_retries_until_success AccountService.HandleTransactionSubmitted
             (fresh_message (submitted 1 1 2 "40.00")) (submitted 1 1 2 "40.00")
             (AccountService.set_db_faults (two_accounts "100.00" "0.00") [true])
             [] 5%nat).
    + reflexivity.
    + vm_compute. reflexivity.
    + eexists. vm_compute. reflexivity.
    + vm_compute. reflexivity.
    + simpl. auto.
    + lia.
  - vm_compute. auto.
Defined.

(** ** The submission of transactions *)

Section Submission.
Import TransactionService.

(** X15.  [SubmitTransaction] publishes the submitted event exactly
    when it returns nil, and then the pending row of the request is
    stored under the identifier that the event carries; when it
    returns an error nothing is published.  It never panics. *)
Theorem SubmitTransaction_publishes_after_storing dto w :
  let r := fst (SubmitTransaction dto w) in
  let w' := snd (SubmitTransaction dto w) in
  (r = Ret None
   /\ transactions w' !! next_id w = Some (pending_row (next_id w) dto)
   /\ outbox w'
      = (outbox w ++ [(EventTransactionSubmitted, submitted_event (next_id w) dto)])%list)
  \/ ((exists err, r = Ret (Some err)) /\ outbox w' = outbox w).
Proof.
  cbv zeta. unfold SubmitTransaction.
  destruct (DtoSourceAccountID dto =? DtoDestinationAccountID dto);
    [right; cbn; eauto|].
  unfold bind, ret, Create, PublishTransactionSubmitted, Update.
  destruct (next_fault (db_faults w)) as [[|] rest]; cbn; [right; eauto|].
  destruct (next_fault (bus_faults w)) as [[|] rest']; cbn.
  - right. destruct (next_fault rest) as [[|] rest'']; cbn; [eauto|].
    rewrite lookup_insert_eq. cbn. eauto.
  - left. rewrite lookup_insert_eq. auto.
Qed.

(** X16.  When the publication of the submitted event fails, the row
    that was stored as pending is marked failed, nothing is
    published and the endpoint answers 500. *)
Theorem failed_publish_marks_the_transaction_failed req w :
  validate req = true ->
  ReqSourceAccountID req <> ReqDestinationAccountID req ->
  calls_ok 2 (db_faults w) ->
  fst (next_fault (bus_faults w)) = true ->
  exists w',
    SubmitTransactionHandler req w = (Ret StatusInternalServerError, w')
    /\ transactions w' !! next_id w
       = Some {| ID := next_id w;
                 TxSourceAccountID := ReqSourceAccountID req;
                 TxDestinationAccountID := ReqDestinationAccountID req;
                 TxAmount := ReqAmount req;
                 TxStatus := TransactionStatusFailed |}
    /\ outbox w' = outbox w.
Proof.
  intros Hv Hne (Hf1 & Hf2 & _) Hb.
  unfold SubmitTransactionHandler. rewrite Hv. cbn [negb].
  unfold bind at 1. unfold SubmitTransaction.
  cbn [DtoSourceAccountID DtoDestinationAccountID DtoAmount].
  destruct (Z.eqb_spec (ReqSourceAccountID req) (ReqDestinationAccountID req));
    [contradiction|].
  unfold bind, ret, Create, PublishTransactionSubmitted, Update.
  destruct (next_fault (db_faults w)) as [f1 rest]. cbn in Hf1, Hf2. subst f1.
  cbn. destruct (next_fault (bus_faults w)) as [f rest']. cbn in Hb. subst f.
  cbn. destruct (next_fault rest) as [f2 rest'']. cbn in Hf2. subst f2.
  cbn. eexists. rewrite lookup_insert_eq. cbn.
  split; [reflexivity|]. split; [|reflexivity].
  cbn. rewrite lookup_insert_eq. reflexivity.
Qed.

(** X17.  Submit, then read: a valid request between distinct
    accounts is answered 201, one submitted event with the new
    identifier is published, and GET /transactions/{id} for that
    identifier answers 200 with the fields of the request and the
    status "pending". *)
Theorem submitted_transaction_is_pending req w :
  validate req = true ->
  ReqSourceAccountID req <> ReqDestinationAccountID req ->
  calls_ok 2 (db_faults w) -> calls_ok 1 (bus_faults w) ->
  exists w',
    SubmitTransactionHandler req w = (Ret StatusCreated, w')
    /\ next_id w' = next_id w + 1
    /\ outbox w'
       = (outbox w
          ++ [(EventTransactionSubmitted,
               submitted (next_id w) (ReqSourceAccountID req)
                 (ReqDestinationAccountID req) (ReqAmount req))])%list
    /\ fst (GetTransactionHandler (Some (next_id w)) w')
       = Ret (StatusOK,
              TransactionResponse (next_id w) (ReqSourceAccountID req)
                (ReqDestinationAccountID req) (ReqAmount req) "pending").
Proof.
  intros Hv Hne (Hf1 & Hf2 & _) (Hb & _).
  unfold SubmitTransactionHandler. rewrite Hv. cbn [negb].
  unfold bind at 1. unfold SubmitTransaction.
  cbn [DtoSourceAccountID DtoDestinationAccountID DtoAmount].
  destruct (Z.eqb_spec (ReqSourceAccountID req) (ReqDestinationAccountID req));
    [contradiction|].
  unfold bind, ret, Create, PublishTransactionSubmitted.
  destruct (next_fault (db_faults w)) as [f1 rest]. cbn in Hf1, Hf2. subst f1.
  cbn. destruct (next_fault (bus_faults w)) as [f rest']. cbn in Hb. subst f.
  cbn. eexists. split; [reflexivity|]. split; [reflexivity|]. split; [reflexivity|].
  unfold GetTransactionHandler, GetTransaction, bind, ret, GetByID. cbn.
  destruct (next_fault rest) as [f2 rest'']. cbn in Hf2. subst f2.
  cbn. rewrite lookup_insert_eq. reflexivity.
Qed.

End Submission.

Lemma submitted_transaction_is_pending_witness :
  exists w',
    TransactionService.SubmitTransactionHandler
      {| TransactionService.ReqSourceAccountID := 1;
         TransactionService.ReqDestinationAccountID := 2;
         TransactionService.ReqAmount := "40.00" |} no_transactions
    = (Ret 201, w')
    /\ fst (TransactionService.GetTransactionHandler (Some 1) w')
       = Ret (200, TransactionService.TransactionResponse 1 1 2 "40.00" "pending").
Proof.
  destruct (submitted_transaction_is_pending
              {| TransactionService.ReqSourceAccountID := 1;
                 TransactionService.ReqDestinationAccountID := 2;
                 TransactionService.ReqAmount := "40.00" |} no_transactions)
    as (w' & H & _ & _ & Hg);
    [reflexivity | cbn; lia | cbn; tauto | cbn; tauto |].
  exists w'. split; [exact H | exact Hg].
Defined.

Lemma failed_publish_marks_the_transaction_failed_witness :
  exists w',
    TransactionService.SubmitTransactionHandler
      {| TransactionService.ReqSourceAccountID := 1;
         TransactionService.ReqDestinationAccountID := 2;
         TransactionService.ReqAmount := "40.00" |}
      (TransactionService.set_bus no_transactions [] [true])
    = (Ret 500, w')
    /\ (TransactionService.TxStatus <$> TransactionService.transactions w' !! 1)
       = Some TransactionService.TransactionStatusFailed
    /\ TransactionService.outbox w' = [].
Proof.
  destruct (failed_publish_marks_the_transaction_failed
              {| TransactionService.ReqSourceAccountID := 1;
                 TransactionService.ReqDestinationAccountID := 2;
                 TransactionService.ReqAmount := "40.00" |}
              (TransactionService.set_bus no_transactions [] [true]))
    as (w' & H & Ht & Ho);
    [reflexivity | cbn; lia | cbn; tauto | reflexivity |].
  exists w'. split; [exact H|]. split; [|exact Ho].
  cbn in Ht. rewrite Ht. reflexivity.
Defined.

(** ** The store of transactions *)

Section Store.
Import TransactionService.

(** The steps of the repository, on the table. *)
Lemma Create_store t w r w' :
  Create t w = (r, w') ->
  (transactions w' = transactions w /\ next_id w' = next_id w)
  \/ (transactions w' = <[next_id w := with_id t (next_id w)]> (transactions w)
      /\ next_id w' = next_id w + 1
      /\ exists err, r = Ret (with_id t (next_id w), err)).
Proof.
  unfold Create.
  destruct (next_fault (db_faults w)) as [[|] rest]; intros [= <- <-]; cbn; eauto 6.
Qed.









(** X21.  For a request body that decodes, POST /transactions answers
    400 exactly when the validator rejects the request (a zero
    identifier or an empty amount) or the two accounts are the same,
    and then nothing is stored, published or called; it never
    answers 404. *)
Theorem SubmitTransactionHandler_bad_request req w :
  let out := SubmitTransactionHandler req w in
  (fst out = Ret StatusBadRequest
   <-> validate req = false \/ ReqSourceAccountID req = ReqDestinationAccountID req)
  /\ (fst out = Ret StatusBadRequest -> snd out = w)
  /\ fst out <> Ret StatusNotFound.
Proof.
  cbv zeta. unfold SubmitTransactionHandler.
  destruct (validate req) eqn:Hv; cbn [negb];
    [|split; [split; auto | split; [reflexivity | discriminate]]].
  unfold bind at 1 2 3 4. unfold SubmitTransaction.
  cbn [DtoSourceAccountID DtoDestinationAccountID DtoAmount].
  destruct (Z.eqb_spec (ReqSourceAccountID req) (ReqDestinationAccountID req)) as [He | Hne].
  { cbn. split; [split; auto | split; [reflexivity | discriminate]]. }
  unfold bind, ret, Create, PublishTransactionSubmitted, Update.
  destruct (next_fault (db_faults w)) as [[|] rest]; cbn.
  { split; [split; [discriminate | intros [? | ?]; [discriminate | contradiction]]|].
    split; discriminate. }
  destruct (next_fault (bus_faults w)) as [[|] rest']; cbn.
  - destruct (next_fault rest) as [[|] rest'']; cbn;
      [|rewrite lookup_insert_eq; cbn];
      (split; [split; [discriminate | intros [? | ?]; [discriminate | contradiction]]|]);
      split; discriminate.
  - split; [split; [discriminate | intros [? | ?]; [discriminate | contradiction]]|].
    split; discriminate.
Qed.

End Store.


(** ** The two services together *)

Section EndToEnd.

Local Opaque SetString Cmp Sub Add Text_f2 fixed2.

(** X22.  The failed events of the account service carry a status
    that starts with "failed: ", which is neither of the two labels
    that the callback of the transaction service looks for: on every
    such event the callback returns nil without a read or a write,
    and the transaction keeps its status. *)
Theorem failed_event_is_ignored_by_the_transaction_service event aw event' tw :
  AccountService.outbox (snd (AccountService.HandleTransactionSubmitted event aw))
  = (AccountService.outbox aw ++ [(EventTransactionFailed, event')])%list ->
  TransactionID event' = TransactionID event
  /\ TransactionService.dispatch event' tw = (Ret None, tw).
Proof.
  destruct (AccountService.HandleTransactionSubmitted event aw) as [r aw'] eqn:H.
  cbn [snd]. apply HandleTransactionSubmitted_attempt in H. intros Ho.
  assert (forall x : string * TransactionEvent,
            AccountService.outbox aw' = AccountService.outbox aw ->
            AccountService.outbox aw' = (AccountService.outbox aw ++ [x])%list -> False)
    as Hlen.
  { intros x H1 H2. rewrite H1 in H2. apply (f_equal (@length _)) in H2.
    rewrite length_app in H2. cbn in H2. lia. }
  destruct H as [m _ Hs | err reason _ [Hs | Hs] | sb db b b' _ _ _ [Hs | Hs]];
    try (exfalso; exact (Hlen _ Hs Ho)).
  - rewrite Hs in Ho. apply app_inj_tail in Ho as [_ [= <-]].
    split; reflexivity.
  - rewrite Hs in Ho. apply app_inj_tail in Ho as [_ Ho]. inversion Ho.
Qed.

Lemma failed_event_is_ignored_by_the_transaction_service_witness :
  TransactionService.dispatch
    (AccountService.failedEvent (submitted 5 1 2 "100.01") "failed: insufficient funds")
    (one_transaction TransactionService.TransactionStatusPending)
  = (Ret None, one_transaction TransactionService.TransactionStatusPending).
Proof.
  apply (failed_event_is_ignored_by_the_transaction_service
           (submitted 5 1 2 "100.01") (two_accounts "100.00" "0.00")).
  vm_compute. reflexivity.
Defined.

(** X23.  A transfer from end to end: the request is stored as
    pending and its event published; the handler of the account
    service, given that event, moves the amount and publishes the
    completed event; the callback of the transaction service, given
    the completed event, marks the stored row complete. *)
Theorem transfer_end_to_end dto tw aw sb db a b c :
  TransactionService.DtoSourceAccountID dto <> TransactionService.DtoDestinationAccountID dto ->
  AccountService.accounts aw !! TransactionService.DtoSourceAccountID dto = Some sb ->
  AccountService.accounts aw !! TransactionService.DtoDestinationAccountID dto = Some db ->
  money sb = Some a -> money db = Some b ->
  money (TransactionService.DtoAmount dto) = Some c ->
  0 < c <= a -> a < 10 ^ 17 -> b + c < 10 ^ 17 ->
  calls_ok 3 (TransactionService.db_faults tw) ->
  calls_ok 1 (TransactionService.bus_faults tw) ->
  calls_ok 4 (AccountService.db_faults aw) ->
  calls_ok 1 (AccountService.bus_faults aw) ->
  let id := TransactionService.next_id tw in
  exists tw1 aw1 tw2,
    TransactionService.SubmitTransaction dto tw = (Ret None, tw1)
    /\ TransactionService.outbox tw1
       = (TransactionService.outbox tw
          ++ [(EventTransactionSubmitted, submitted_event id dto)])%list
    /\ AccountService.HandleTransactionSubmitted (submitted_event id dto) aw
       = (Ret None, aw1)
    /\ AccountService.accounts aw1 !! TransactionService.DtoSourceAccountID dto
       = Some (fixed2 (a - c))
    /\ AccountService.accounts aw1 !! TransactionService.DtoDestinationAccountID dto
       = Some (fixed2 (b + c))
    /\ AccountService.outbox aw1
       = (AccountService.outbox aw
          ++ [(EventTransactionCompleted,
               AccountService.completedEvent (submitted_event id dto))])%list
    /\ TransactionService.dispatch
         (AccountService.completedEvent (submitted_event id dto)) tw1
       = (Ret None, tw2)
    /\ TransactionService.transactions tw2 !! id
       = Some (TransactionService.with_status (pending_row id dto)
                 TransactionService.TransactionStatusComplete).
Proof.
  intros Hne Hs Hd Ha Hb Hc Hca Har Hbr (Hf1 & Hf2 & Hf3 & _) (Hb1 & _) Hdb Hbus id.
  destruct (submitted_completes (submitted_event id dto) sb db a b c aw)
    as (aw1 & Hh & Hacc & Hout); try assumption.
  cbn [submitted_event submitted SourceAccountID DestinationAccountID] in Hacc.
  assert (exists tw1,
    TransactionService.SubmitTransaction dto tw = (Ret None, tw1)
    /\ TransactionService.outbox tw1
       = (TransactionService.outbox tw
          ++ [(EventTransactionSubmitted, submitted_event id dto)])%list
    /\ TransactionService.transactions tw1 !! id = Some (pending_row id dto)
    /\ TransactionService.db_faults tw1
       = snd (next_fault (TransactionService.db_faults tw))) as (tw1 & Hsub & Ho1 & Ht1 & Hd1).
  { unfold TransactionService.SubmitTransaction.
    destruct (Z.eqb_spec (TransactionService.DtoSourceAccountID dto)
                (TransactionService.DtoDestinationAccountID dto)); [contradiction|].
    unfold bind, ret, TransactionService.Create,
      TransactionService.PublishTransactionSubmitted.
    destruct (next_fault (TransactionService.db_faults tw)) as [f1 rest].
    cbn in Hf1. subst f1. cbn.
    destruct (next_fault (TransactionService.bus_faults tw)) as [f rest'].
    cbn in Hb1. subst f. cbn.
    eexists. split; [reflexivity|]. split; [reflexivity|].
    split; [cbn; apply lookup_insert_eq | reflexivity]. }
  assert (exists tw2,
    TransactionService.dispatch
      (AccountService.completedEvent (submitted_event id dto)) tw1 = (Ret None, tw2)
    /\ TransactionService.transactions tw2 !! id
       = Some (TransactionService.with_status (pending_row id dto)
                 TransactionService.TransactionStatusComplete)) as (tw2 & Hdis & Ht2).
  { change (TransactionService.dispatch
              (AccountService.completedEvent (submitted_event id dto)))
      with (TransactionService.HandleTransactionCompleted
              (AccountService.completedEvent (submitted_event id dto))).
    unfold TransactionService.HandleTransactionCompleted, bind, ret.
    change (TransactionID (AccountService.completedEvent (submitted_event id dto)))
      with id.
    rewrite (GetByID_row id (pending_row id dto) tw1);
      [| rewrite Hd1; exact Hf2 | exact Ht1].
    set (tw1' := TransactionService.tick _).
    rewrite (Update_row _ (pending_row id dto) tw1');
      [| subst tw1'; cbn; rewrite Hd1; exact Hf3 | exact Ht1].
    eexists. split; [reflexivity|]. cbn. apply lookup_insert_eq. }
  exists tw1, aw1, tw2.
  split; [exact Hsub|]. split; [exact Ho1|]. split; [exact Hh|].
  split; [rewrite Hacc, lookup_insert_ne, lookup_insert_eq by congruence; reflexivity|].
  split; [rewrite Hacc, lookup_insert_eq; reflexivity|].
  split; [apply Hout; exact Hbus|]. split; [exact Hdis | exact Ht2].
Qed.

Local Transparent SetString Cmp Sub Add Text_f2 fixed2.

Lemma transfer_end_to_end_witness :
  let dto := {| TransactionService.DtoSourceAccountID := 1;
                TransactionService.DtoDestinationAccountID := 2;
                TransactionService.DtoAmount := "40.00" |} in
  exists tw1 aw1 tw2,
    TransactionService.SubmitTransaction dto no_transactions = (Ret None, tw1)
    /\ AccountService.HandleTransactionSubmitted (submitted 1 1 2 "40.00")
         (two_accounts "100.00" "0.00")
       = (Ret None, aw1)
    /\ AccountService.accounts aw1 !! 1 = Some "60.00"
    /\ AccountService.accounts aw1 !! 2 = Some "40.00"
    /\ TransactionService.dispatch
         (AccountService.completedEvent (submitted 1 1 2 "40.00")) tw1
       = (Ret None, tw2)
    /\ (TransactionService.TxStatus <$> TransactionService.transactions tw2 !! 1)
       = Some TransactionService.TransactionStatusComplete.
Proof.
  intros dto.
  destruct (transfer_end_to_end dto no_transactions (two_accounts "100.00" "0.00")
              "100.00" "0.00" 10000 0 4000)
    as (tw1 & aw1 & tw2 & H1 & _ & H2 & H3 & H4 & _ & H5 & H6);
    [cbn; lia | reflexivity | reflexivity | reflexivity | reflexivity | reflexivity
     | lia | lia | lia | cbn; tauto | cbn; tauto | cbn; tauto | cbn; tauto |].
  exists tw1, aw1, tw2.
  split; [exact H1|]. split; [exact H2|]. split; [exact H3|]. split; [exact H4|].
  split; [exact H5|]. cbn in H6. rewrite H6. reflexivity.
Defined.

End EndToEnd.
